(** * The live voice session of App.tsx: playback scheduling, barge-in,
      tool dispatch and teardown

    A shallow embedding of the session code of [src/App.tsx]
    ([stopAllAudio], [handleToolCall], [connectToJarvis] with its [onopen],
    [onmessage], [onclose] and [onerror] callbacks, the [onended] closure,
    [disconnect], [toggleAGI], [toggleVision] and the end-call button)
    together with the contact table of the types module.

    - React state and refs are the fields of one record, [State]; a setter
      [setX v] is an immediate update of field [X].
    - The code is asynchronous: an [async] function runs until its first
      [await] on the network or on the decoder and is resumed later, after
      other callbacks may have run.  [Proc] is a resumption monad over
      [State] with exceptions: a computation finishes, raises, or is
      suspended together with its continuation, which reads the state it is
      resumed in.
    - Time is the output [AudioContext]'s [currentTime], a rational number of
      seconds.  An [AudioBuffer] carries its length in sample frames and its
      sample rate; its duration is their quotient, as in Web Audio.
    - The event loop takes one event at a time: an inbound message, the
      settling of an awaited promise, a clock reading, the end of a source
      node, the closing of the transport, a disconnect request.  [Shell]
      adds the handshake, which parks at the microphone request and at the
      opening of the channel, the mode switch, the vision toggle and the
      end-call button.

    Left out: the capture processor that [onopen] wires to the microphone,
    the interval that sends camera frames, the install prompt and the
    deletion of reminders; the random ids and the timestamps of log entries
    and reminders.  The Frame Codec, whose code is not among the sources, is
    modelled from its specification in [Codec]. *)

From Stdlib Require Import QArith Qminmax Qround Qabs Lqa Lia ZArith Ascii String.
From stdpp Require Import base list strings gmap.

Local Open Scope string_scope.
Local Open Scope list_scope.

(* ================================================================== *)
(** * JavaScript values and exceptions *)
(* ================================================================== *)

(** A primitive argument value.  A Number is carried by its [ToString]
    image: the handlers only ever interpolate it into a template literal,
    test its truthiness or try to call a string method on it.  A missing
    property ([undefined]) is an absent key. *)
Inductive JSVal : Type :=
| VString (s : string)
| VNumber (shown : string).

(** A thrown value; [e.message] is what the handlers read. *)
Record JSError : Type := mkError { err_name : string; err_message : string }.

Definition TypeError (m : string) : JSError := mkError "TypeError" m.

(** Synchronous expression evaluation: an exception or a value. *)
Definition Result (A : Type) : Type := JSError + A.

(** [args.key], where [args] itself may be [undefined]. *)
Definition get_prop (args : option (gmap string JSVal)) (key : string)
  : Result (option JSVal) :=
  match args with
  | None =>
      inl (TypeError ("Cannot read properties of undefined (reading '" +:+ key +:+ "')"))
  | Some o => inr (o !! key)
  end.

Definition lower_ascii (c : ascii) : ascii :=
  let n := Ascii.N_of_ascii c in
  if (65 <=? n)%N && (n <=? 90)%N then Ascii.ascii_of_N (n + 32) else c.

Fixpoint toLowerCase (s : string) : string :=
  match s with
  | EmptyString => EmptyString
  | String c r => String (lower_ascii c) (toLowerCase r)
  end.

(** [v.toLowerCase()] for a property value [v]. *)
Definition call_toLowerCase (v : option JSVal) : Result string :=
  match v with
  | None =>
      inl (TypeError "Cannot read properties of undefined (reading 'toLowerCase')")
  | Some (VNumber _) => inl (TypeError "toLowerCase is not a function")
  | Some (VString s) => inr (toLowerCase s)
  end.

(** [`${v}`] *)
Definition show (v : option JSVal) : string :=
  match v with
  | None => "undefined"
  | Some (VString s) => s
  | Some (VNumber n) => n
  end.

(** JavaScript truthiness of a property value. *)
Definition truthy (v : option JSVal) : bool :=
  match v with
  | None => false
  | Some (VString s) => negb (String.eqb s "")
  | Some (VNumber n) => negb (String.eqb n "0" || String.eqb n "NaN")
  end.

(* ================================================================== *)
(** * Data of the types module *)
(* ================================================================== *)

Record Contact : Type := mkContact { name : string; number : string }.

Record PhoneState : Type := mkPhoneState {
  isInCall : bool;
  activeContact : option Contact;
  callDuration : Z
}.

Record Reminder : Type := mkReminder {
  task : option JSVal;
  time : JSVal;
  completed : bool
}.

Inductive LogType : Type := info | action | error | system.

Record LogEntry : Type := mkLog { log_message : string; log_type : LogType }.

Record SearchResult : Type := mkSearchResult { title : string; url : string }.

Definition MOCK_CONTACTS : list Contact :=
  [ mkContact "Mom" "9876543210";
    mkContact "Dad" "9123456789";
    mkContact "Boss" "8888888888";
    mkContact "Pepper" "7777777777";
    mkContact "Happy" "9999999999" ].

(* ================================================================== *)
(** * Wire messages *)
(* ================================================================== *)

Record FunctionCall : Type := mkCall {
  fc_id : string;
  fc_name : string;
  fc_args : option (gmap string JSVal)
}.

Record ToolResponse : Type := mkResponse {
  resp_id : string;
  resp_name : string;
  resp_result : string
}.

Record InlineData : Type := mkInline { data : option string }.
Record Part : Type := mkPart { inlineData : option InlineData }.
Record Web : Type := mkWeb { web_title : string; web_uri : string }.
Record GroundingChunk : Type := mkChunk { web : option Web }.

Record ModelTurn : Type := mkTurn {
  groundingChunks : option (list GroundingChunk);
  parts : option (list Part)
}.

Record ServerContent : Type := mkContent {
  interrupted : bool;
  modelTurn : option ModelTurn
}.

Record ToolCallMessage : Type := mkToolCall {
  functionCalls : option (list FunctionCall)
}.

Record LiveServerMessage : Type := mkMessage {
  serverContent : option ServerContent;
  toolCall : option ToolCallMessage
}.

(** The reply of [models.generateContent]. *)
Record Content : Type := mkGenContent { content_parts : option (list Part) }.
Record Candidate : Type := mkCandidate { content : option Content }.
Record GenerateContentResponse : Type := mkGenResponse {
  candidates : option (list Candidate)
}.

Inductive GenOutcome : Type :=
| GenRejected (e : JSError)
| GenResolved (r : GenerateContentResponse).

(* ================================================================== *)
(** * Web Audio objects *)
(* ================================================================== *)

Record AudioBuffer : Type := mkBuffer {
  buf_length : N;
  buf_sampleRate : positive
}.

Definition duration (b : AudioBuffer) : Q :=
  Qmake (Z.of_N (buf_length b)) (buf_sampleRate b).

Inductive DecodeOutcome : Type :=
| DecodeRejected (e : JSError)
| Decoded (b : AudioBuffer).

Record AudioContext : Type := mkContext {
  currentTime : Q;
  ctx_closed : bool
}.

(** An [AudioBufferSourceNode]; nodes live in a store and are referred to by
    their index in it, which plays the role of object identity. *)
Record SourceNode : Type := mkNode {
  node_buffer : AudioBuffer;
  node_connected : bool;
  node_startedAt : option Q;
  node_stopped : bool;
  node_onended : bool
}.

Record MediaStream : Type := mkStream { tracks_stopped : bool }.

Record LiveSession : Type := mkSession {
  sess_closed : bool;
  sess_toolResponses : list ToolResponse
}.

(* ================================================================== *)
(** * Component state *)
(* ================================================================== *)

Record State : Type := mkState {
  (* useState *)
  connected : bool;
  isSpeaking : bool;
  isVisionActive : bool;
  logs : list LogEntry;
  reminders : list Reminder;
  phoneState : PhoneState;
  searchResults : list SearchResult;
  weatherState : option (option (gmap string JSVal));
  voiceGeneratedImage : option string;
  (* useRef *)
  audioContextRef : option AudioContext;
  inputAudioContextRef : option AudioContext;
  analyserRef : option unit;
  streamRef : option MediaStream;
  videoStreamRef : option MediaStream;
  audioSourcesRef : list nat;
  clientRef : option unit;
  sessionRef : option LiveSession;
  nextStartTimeRef : Q;
  (* objects created through the output context *)
  nodes : list SourceNode;
  systemSounds : list string
}.

Definition setConnected (v : bool) (s : State) : State :=
  {| connected := v; isSpeaking := isSpeaking s; isVisionActive := isVisionActive s;
     logs := logs s; reminders := reminders s; phoneState := phoneState s;
     searchResults := searchResults s; weatherState := weatherState s;
     voiceGeneratedImage := voiceGeneratedImage s;
     audioContextRef := audioContextRef s;
     inputAudioContextRef := inputAudioContextRef s; analyserRef := analyserRef s;
     streamRef := streamRef s; videoStreamRef := videoStreamRef s;
     audioSourcesRef := audioSourcesRef s; clientRef := clientRef s;
     sessionRef := sessionRef s; nextStartTimeRef := nextStartTimeRef s;
     nodes := nodes s; systemSounds := systemSounds s |}.
Definition setIsSpeaking (v : bool) (s : State) : State :=
  {| connected := connected s; isSpeaking := v; isVisionActive := isVisionActive s;
     logs := logs s; reminders := reminders s; phoneState := phoneState s;
     searchResults := searchResults s; weatherState := weatherState s;
     voiceGeneratedImage := voiceGeneratedImage s;
     audioContextRef := audioContextRef s;
     inputAudioContextRef := inputAudioContextRef s; analyserRef := analyserRef s;
     streamRef := streamRef s; videoStreamRef := videoStreamRef s;
     audioSourcesRef := audioSourcesRef s; clientRef := clientRef s;
     sessionRef := sessionRef s; nextStartTimeRef := nextStartTimeRef s;
     nodes := nodes s; systemSounds := systemSounds s |}.
Definition setIsVisionActive (v : bool) (s : State) : State :=
  {| connected := connected s; isSpeaking := isSpeaking s; isVisionActive := v;
     logs := logs s; reminders := reminders s; phoneState := phoneState s;
     searchResults := searchResults s; weatherState := weatherState s;
     voiceGeneratedImage := voiceGeneratedImage s;
     audioContextRef := audioContextRef s;
     inputAudioContextRef := inputAudioContextRef s; analyserRef := analyserRef s;
     streamRef := streamRef s; videoStreamRef := videoStreamRef s;
     audioSourcesRef := audioSourcesRef s; clientRef := clientRef s;
     sessionRef := sessionRef s; nextStartTimeRef := nextStartTimeRef s;
     nodes := nodes s; systemSounds := systemSounds s |}.
Definition setLogs (v : list LogEntry) (s : State) : State :=
  {| connected := connected s; isSpeaking := isSpeaking s;
     isVisionActive := isVisionActive s; logs := v; reminders := reminders s;
     phoneState := phoneState s; searchResults := searchResults s;
     weatherState := weatherState s; voiceGeneratedImage := voiceGeneratedImage s;
     audioContextRef := audioContextRef s;
     inputAudioContextRef := inputAudioContextRef s; analyserRef := analyserRef s;
     streamRef := streamRef s; videoStreamRef := videoStreamRef s;
     audioSourcesRef := audioSourcesRef s; clientRef := clientRef s;
     sessionRef := sessionRef s; nextStartTimeRef := nextStartTimeRef s;
     nodes := nodes s; systemSounds := systemSounds s |}.
Definition setReminders (v : list Reminder) (s : State) : State :=
  {| connected := connected s; isSpeaking := isSpeaking s;
     isVisionActive := isVisionActive s; logs := logs s; reminders := v;
     phoneState := phoneState s; searchResults := searchResults s;
     weatherState := weatherState s; voiceGeneratedImage := voiceGeneratedImage s;
     audioContextRef := audioContextRef s;
     inputAudioContextRef := inputAudioContextRef s; analyserRef := analyserRef s;
     streamRef := streamRef s; videoStreamRef := videoStreamRef s;
     audioSourcesRef := audioSourcesRef s; clientRef := clientRef s;
     sessionRef := sessionRef s; nextStartTimeRef := nextStartTimeRef s;
     nodes := nodes s; systemSounds := systemSounds s |}.
Definition setPhoneState (v : PhoneState) (s : State) : State :=
  {| connected := connected s; isSpeaking := isSpeaking s;
     isVisionActive := isVisionActive s; logs := logs s; reminders := reminders s;
     phoneState := v; searchResults := searchResults s; weatherState := weatherState s;
     voiceGeneratedImage := voiceGeneratedImage s;
     audioContextRef := audioContextRef s;
     inputAudioContextRef := inputAudioContextRef s; analyserRef := analyserRef s;
     streamRef := streamRef s; videoStreamRef := videoStreamRef s;
     audioSourcesRef := audioSourcesRef s; clientRef := clientRef s;
     sessionRef := sessionRef s; nextStartTimeRef := nextStartTimeRef s;
     nodes := nodes s; systemSounds := systemSounds s |}.
Definition setSearchResults (v : list SearchResult) (s : State) : State :=
  {| connected := connected s; isSpeaking := isSpeaking s;
     isVisionActive := isVisionActive s; logs := logs s; reminders := reminders s;
     phoneState := phoneState s; searchResults := v; weatherState := weatherState s;
     voiceGeneratedImage := voiceGeneratedImage s;
     audioContextRef := audioContextRef s;
     inputAudioContextRef := inputAudioContextRef s; analyserRef := analyserRef s;
     streamRef := streamRef s; videoStreamRef := videoStreamRef s;
     audioSourcesRef := audioSourcesRef s; clientRef := clientRef s;
     sessionRef := sessionRef s; nextStartTimeRef := nextStartTimeRef s;
     nodes := nodes s; systemSounds := systemSounds s |}.
Definition setWeatherState (v : option (gmap string JSVal)) (s : State) : State :=
  {| connected := connected s; isSpeaking := isSpeaking s;
     isVisionActive := isVisionActive s; logs := logs s; reminders := reminders s;
     phoneState := phoneState s; searchResults := searchResults s;
     weatherState := Some v; voiceGeneratedImage := voiceGeneratedImage s;
     audioContextRef := audioContextRef s;
     inputAudioContextRef := inputAudioContextRef s; analyserRef := analyserRef s;
     streamRef := streamRef s; videoStreamRef := videoStreamRef s;
     audioSourcesRef := audioSourcesRef s; clientRef := clientRef s;
     sessionRef := sessionRef s; nextStartTimeRef := nextStartTimeRef s;
     nodes := nodes s; systemSounds := systemSounds s |}.
Definition setVoiceGeneratedImage (v : string) (s : State) : State :=
  {| connected := connected s; isSpeaking := isSpeaking s;
     isVisionActive := isVisionActive s; logs := logs s; reminders := reminders s;
     phoneState := phoneState s; searchResults := searchResults s;
     weatherState := weatherState s; voiceGeneratedImage := Some v;
     audioContextRef := audioContextRef s;
     inputAudioContextRef := inputAudioContextRef s; analyserRef := analyserRef s;
     streamRef := streamRef s; videoStreamRef := videoStreamRef s;
     audioSourcesRef := audioSourcesRef s; clientRef := clientRef s;
     sessionRef := sessionRef s; nextStartTimeRef := nextStartTimeRef s;
     nodes := nodes s; systemSounds := systemSounds s |}.
Definition set_audioContextRef (v : option AudioContext) (s : State) : State :=
  {| connected := connected s; isSpeaking := isSpeaking s;
     isVisionActive := isVisionActive s; logs := logs s; reminders := reminders s;
     phoneState := phoneState s; searchResults := searchResults s;
     weatherState := weatherState s; voiceGeneratedImage := voiceGeneratedImage s;
     audioContextRef := v; inputAudioContextRef := inputAudioContextRef s;
     analyserRef := analyserRef s; streamRef := streamRef s;
     videoStreamRef := videoStreamRef s; audioSourcesRef := audioSourcesRef s;
     clientRef := clientRef s; sessionRef := sessionRef s;
     nextStartTimeRef := nextStartTimeRef s; nodes := nodes s;
     systemSounds := systemSounds s |}.
Definition set_inputAudioContextRef (v : option AudioContext) (s : State) : State :=
  {| connected := connected s; isSpeaking := isSpeaking s;
     isVisionActive := isVisionActive s; logs := logs s; reminders := reminders s;
     phoneState := phoneState s; searchResults := searchResults s;
     weatherState := weatherState s; voiceGeneratedImage := voiceGeneratedImage s;
     audioContextRef := audioContextRef s; inputAudioContextRef := v;
     analyserRef := analyserRef s; streamRef := streamRef s;
     videoStreamRef := videoStreamRef s; audioSourcesRef := audioSourcesRef s;
     clientRef := clientRef s; sessionRef := sessionRef s;
     nextStartTimeRef := nextStartTimeRef s; nodes := nodes s;
     systemSounds := systemSounds s |}.
Definition set_streamRef (v : option MediaStream) (s : State) : State :=
  {| connected := connected s; isSpeaking := isSpeaking s;
     isVisionActive := isVisionActive s; logs := logs s; reminders := reminders s;
     phoneState := phoneState s; searchResults := searchResults s;
     weatherState := weatherState s; voiceGeneratedImage := voiceGeneratedImage s;
     audioContextRef := audioContextRef s;
     inputAudioContextRef := inputAudioContextRef s; analyserRef := analyserRef s;
     streamRef := v; videoStreamRef := videoStreamRef s;
     audioSourcesRef := audioSourcesRef s; clientRef := clientRef s;
     sessionRef := sessionRef s; nextStartTimeRef := nextStartTimeRef s;
     nodes := nodes s; systemSounds := systemSounds s |}.
Definition set_videoStreamRef (v : option MediaStream) (s : State) : State :=
  {| connected := connected s; isSpeaking := isSpeaking s;
     isVisionActive := isVisionActive s; logs := logs s; reminders := reminders s;
     phoneState := phoneState s; searchResults := searchResults s;
     weatherState := weatherState s; voiceGeneratedImage := voiceGeneratedImage s;
     audioContextRef := audioContextRef s;
     inputAudioContextRef := inputAudioContextRef s; analyserRef := analyserRef s;
     streamRef := streamRef s; videoStreamRef := v;
     audioSourcesRef := audioSourcesRef s; clientRef := clientRef s;
     sessionRef := sessionRef s; nextStartTimeRef := nextStartTimeRef s;
     nodes := nodes s; systemSounds := systemSounds s |}.
Definition set_audioSourcesRef (v : list nat) (s : State) : State :=
  {| connected := connected s; isSpeaking := isSpeaking s;
     isVisionActive := isVisionActive s; logs := logs s; reminders := reminders s;
     phoneState := phoneState s; searchResults := searchResults s;
     weatherState := weatherState s; voiceGeneratedImage := voiceGeneratedImage s;
     audioContextRef := audioContextRef s;
     inputAudioContextRef := inputAudioContextRef s; analyserRef := analyserRef s;
     streamRef := streamRef s; videoStreamRef := videoStreamRef s;
     audioSourcesRef := v; clientRef := clientRef s; sessionRef := sessionRef s;
     nextStartTimeRef := nextStartTimeRef s; nodes := nodes s;
     systemSounds := systemSounds s |}.
Definition set_sessionRef (v : option LiveSession) (s : State) : State :=
  {| connected := connected s; isSpeaking := isSpeaking s;
     isVisionActive := isVisionActive s; logs := logs s; reminders := reminders s;
     phoneState := phoneState s; searchResults := searchResults s;
     weatherState := weatherState s; voiceGeneratedImage := voiceGeneratedImage s;
     audioContextRef := audioContextRef s;
     inputAudioContextRef := inputAudioContextRef s; analyserRef := analyserRef s;
     streamRef := streamRef s; videoStreamRef := videoStreamRef s;
     audioSourcesRef := audioSourcesRef s; clientRef := clientRef s; sessionRef := v;
     nextStartTimeRef := nextStartTimeRef s; nodes := nodes s;
     systemSounds := systemSounds s |}.
Definition set_nextStartTimeRef (v : Q) (s : State) : State :=
  {| connected := connected s; isSpeaking := isSpeaking s;
     isVisionActive := isVisionActive s; logs := logs s; reminders := reminders s;
     phoneState := phoneState s; searchResults := searchResults s;
     weatherState := weatherState s; voiceGeneratedImage := voiceGeneratedImage s;
     audioContextRef := audioContextRef s;
     inputAudioContextRef := inputAudioContextRef s; analyserRef := analyserRef s;
     streamRef := streamRef s; videoStreamRef := videoStreamRef s;
     audioSourcesRef := audioSourcesRef s; clientRef := clientRef s;
     sessionRef := sessionRef s; nextStartTimeRef := v; nodes := nodes s;
     systemSounds := systemSounds s |}.
Definition set_nodes (v : list SourceNode) (s : State) : State :=
  {| connected := connected s; isSpeaking := isSpeaking s;
     isVisionActive := isVisionActive s; logs := logs s; reminders := reminders s;
     phoneState := phoneState s; searchResults := searchResults s;
     weatherState := weatherState s; voiceGeneratedImage := voiceGeneratedImage s;
     audioContextRef := audioContextRef s;
     inputAudioContextRef := inputAudioContextRef s; analyserRef := analyserRef s;
     streamRef := streamRef s; videoStreamRef := videoStreamRef s;
     audioSourcesRef := audioSourcesRef s; clientRef := clientRef s;
     sessionRef := sessionRef s; nextStartTimeRef := nextStartTimeRef s; nodes := v;
     systemSounds := systemSounds s |}.
Definition set_systemSounds (v : list string) (s : State) : State :=
  {| connected := connected s; isSpeaking := isSpeaking s;
     isVisionActive := isVisionActive s; logs := logs s; reminders := reminders s;
     phoneState := phoneState s; searchResults := searchResults s;
     weatherState := weatherState s; voiceGeneratedImage := voiceGeneratedImage s;
     audioContextRef := audioContextRef s;
     inputAudioContextRef := inputAudioContextRef s; analyserRef := analyserRef s;
     streamRef := streamRef s; videoStreamRef := videoStreamRef s;
     audioSourcesRef := audioSourcesRef s; clientRef := clientRef s;
     sessionRef := sessionRef s; nextStartTimeRef := nextStartTimeRef s;
     nodes := nodes s; systemSounds := v |}.

(* ================================================================== *)
(** * The resumption monad of asynchronous callbacks *)
(* ================================================================== *)

(** The result of running a callback from some state up to its next
    suspension: it returned, it threw, or it is parked at an [await] with the
    rest of its body.  The continuation receives how the awaited promise
    settled and the state at the time of resumption. *)
Inductive Step (A : Type) : Type :=
| Finished (s : State) (a : A)
| Raised (s : State) (e : JSError)
| AwaitGenerate (s : State) (prompt : option JSVal)
    (k : GenOutcome -> State -> Step A)
| AwaitDecode (s : State) (bytes : list Z)
    (k : DecodeOutcome -> State -> Step A).

Arguments Finished {A} s a.
Arguments Raised {A} s e.
Arguments AwaitGenerate {A} s prompt k.
Arguments AwaitDecode {A} s bytes k.

Definition Proc (A : Type) : Type := State -> Step A.

Fixpoint bind_step {A B} (r : Step A) (f : A -> Proc B) : Step B :=
  match r with
  | Finished s a => f a s
  | Raised s e => Raised s e
  | AwaitGenerate s p k => AwaitGenerate s p (fun o s' => bind_step (k o s') f)
  | AwaitDecode s b k => AwaitDecode s b (fun o s' => bind_step (k o s') f)
  end.

(** [try { r } catch (e) { h e }] *)
Fixpoint catch_step {A} (r : Step A) (h : JSError -> Proc A) : Step A :=
  match r with
  | Finished s a => Finished s a
  | Raised s e => h e s
  | AwaitGenerate s p k => AwaitGenerate s p (fun o s' => catch_step (k o s') h)
  | AwaitDecode s b k => AwaitDecode s b (fun o s' => catch_step (k o s') h)
  end.

Definition ret {A} (a : A) : Proc A := fun s => Finished s a.
Definition bind {A B} (m : Proc A) (f : A -> Proc B) : Proc B :=
  fun s => bind_step (m s) f.
Definition throw {A} (e : JSError) : Proc A := fun s => Raised s e.
Definition try_catch {A} (m : Proc A) (h : JSError -> Proc A) : Proc A :=
  fun s => catch_step (m s) h.
Definition gets {A} (f : State -> A) : Proc A := fun s => Finished s (f s).
Definition modify (f : State -> State) : Proc unit := fun s => Finished (f s) tt.
Definition eval {A} (r : Result A) : Proc A :=
  match r with inl e => throw e | inr a => ret a end.

(** [Proc] is a monad in stdpp's sense, which gives [x ← m; k] and [m ;; k]. *)
#[global] Instance proc_ret : MRet Proc := @ret.
#[global] Instance proc_bind : MBind Proc := fun A B f m => bind m f.

(** [await client.models.generateContent(...)]: a rejected promise is
    rethrown at the [await]. *)
Definition await_generate (prompt : option JSVal) : Proc GenerateContentResponse :=
  fun s => AwaitGenerate s prompt (fun o s' =>
    match o with
    | GenRejected e => Raised s' e
    | GenResolved r => Finished s' r
    end).

(** [await decodeAudioData(bytes, ctx, 24000, 1)] *)
Definition await_decode (bytes : list Z) : Proc AudioBuffer :=
  fun s => AwaitDecode s bytes (fun o s' =>
    match o with
    | DecodeRejected e => Raised s' e
    | Decoded b => Finished s' b
    end).

(** [for (const x of xs) await f(x)] *)
Fixpoint for_of {A} (xs : list A) (f : A -> Proc unit) : Proc unit :=
  match xs with
  | [] => ret tt
  | x :: rest => f x ;; for_of rest f
  end.

(* ================================================================== *)
(** * Browser built-ins used by the callbacks *)
(* ================================================================== *)

Definition dquote : string := String (Ascii.ascii_of_nat 34) EmptyString.

(** [atob]: the forgiving base64 decoder of the HTML standard.  The result
    is the byte sequence that [Uint8Array.from] of the char codes yields. *)
Definition is_ascii_whitespace (c : ascii) : bool :=
  let n := Ascii.N_of_ascii c in
  (n =? 9)%N || (n =? 10)%N || (n =? 12)%N || (n =? 13)%N || (n =? 32)%N.

Definition sextet (c : ascii) : option Z :=
  let n := Z.of_N (Ascii.N_of_ascii c) in
  if (65 <=? n)%Z && (n <=? 90)%Z then Some (n - 65)%Z
  else if (97 <=? n)%Z && (n <=? 122)%Z then Some (n - 71)%Z
  else if (48 <=? n)%Z && (n <=? 57)%Z then Some (n + 4)%Z
  else if (n =? 43)%Z then Some 62%Z
  else if (n =? 47)%Z then Some 63%Z
  else None.

Fixpoint sextets (cs : list ascii) : option (list Z) :=
  match cs with
  | [] => Some []
  | c :: rest =>
      match sextet c, sextets rest with
      | Some v, Some vs => Some (v :: vs)
      | _, _ => None
      end
  end.

Fixpoint bytes_of_sextets (l : list Z) : list Z :=
  match l with
  | a :: b :: c :: d :: rest =>
      (a * 4 + b / 16)%Z :: ((b mod 16) * 16 + c / 4)%Z :: ((c mod 4) * 64 + d)%Z
        :: bytes_of_sextets rest
  | [a; b; c] => [(a * 4 + b / 16)%Z; ((b mod 16) * 16 + c / 4)%Z]
  | [a; b] => [(a * 4 + b / 16)%Z]
  | _ => []
  end.

Definition is_pad (c : ascii) : bool := (Ascii.N_of_ascii c =? 61)%N.

(** Remove one or two trailing [=] of a string whose length is a multiple
    of four. *)
Definition strip_padding (cs : list ascii) : list ascii :=
  if (length cs mod 4 =? 0)%nat then
    match rev cs with
    | p :: q :: rest =>
        if is_pad p then (if is_pad q then rev rest else rev (q :: rest)) else cs
    | _ => cs
    end
  else cs.

Definition atob (s : string) : Result (list Z) :=
  let cs := strip_padding
              (List.filter (fun c => negb (is_ascii_whitespace c))
                           (list_ascii_of_string s)) in
  if (length cs mod 4 =? 1)%nat then
    inl (mkError "InvalidCharacterError" "The string to be decoded is not correctly encoded.")
  else
    match sextets cs with
    | Some vs => inr (bytes_of_sextets vs)
    | None =>
        inl (mkError "InvalidCharacterError" "The string to be decoded is not correctly encoded.")
    end.

(** [ctx.createBufferSource()] followed by [source.buffer = buffer]:
    a fresh node at the end of the store. *)
Definition createBufferSource (buffer : AudioBuffer) : Proc nat :=
  fun s =>
    Finished (set_nodes (nodes s ++ [mkNode buffer false None false false]) s)
             (length (nodes s)).

Definition update_node (source : nat) (f : SourceNode -> SourceNode) : Proc unit :=
  modify (fun s =>
    match nodes s !! source with
    | Some n => set_nodes (<[source := f n]> (nodes s)) s
    | None => s
    end).

Definition connect_node (n : SourceNode) : SourceNode :=
  mkNode (node_buffer n) true (node_startedAt n) (node_stopped n) (node_onended n).
Definition start_node (when : Q) (n : SourceNode) : SourceNode :=
  mkNode (node_buffer n) (node_connected n) (Some when) (node_stopped n) (node_onended n).
Definition stop_node (n : SourceNode) : SourceNode :=
  mkNode (node_buffer n) (node_connected n) (node_startedAt n) true (node_onended n).
Definition listen_node (n : SourceNode) : SourceNode :=
  mkNode (node_buffer n) (node_connected n) (node_startedAt n) (node_stopped n) true.

(** [source.stop()]: an [InvalidStateError] unless [start] was called.  An
    index outside the store stands for no object at all. *)
Definition source_stop (source : nat) : Proc unit :=
  fun s =>
    match nodes s !! source with
    | Some n =>
        match node_startedAt n with
        | Some _ => Finished (set_nodes (<[source := stop_node n]> (nodes s)) s) tt
        | None =>
            Raised s (mkError "InvalidStateError" "cannot call stop without calling start first")
        end
    | None => Raised s (TypeError "source.stop is not a function")
    end.

Definition stop_tracks (m : MediaStream) : MediaStream := mkStream true.
(** [ctx.close()]; on a context that is closed already the promise it
    returns is rejected, which is no exception of the caller. *)
Definition close_context (c : AudioContext) : AudioContext :=
  mkContext (currentTime c) true.
Definition close_session (se : LiveSession) : LiveSession :=
  mkSession true (sess_toolResponses se).
Definition sendToolResponse (r : ToolResponse) (se : LiveSession) : LiveSession :=
  mkSession (sess_closed se) (sess_toolResponses se ++ [r]).

(* ================================================================== *)
(** * App.tsx *)
(* ================================================================== *)

Definition addLog (message : string) (type : LogType) : Proc unit :=
  modify (fun s => setLogs (logs s ++ [mkLog message type]) s).

(** [playSystemSound] is imported from the audio utilities, whose code is
    not among the sources: the call is recorded, and it is taken to return
    normally. *)
Definition playSystemSound (kind : string) : Proc unit :=
  modify (fun s => set_systemSounds (systemSounds s ++ [kind]) s).

Definition stopAllAudio : Proc unit :=
  sources ← gets audioSourcesRef;
  for_of sources (fun source => try_catch (source_stop source) (fun _ => ret tt));;
  modify (set_audioSourcesRef []);;
  ctx ← gets audioContextRef;
  match ctx with
  | Some c => modify (set_nextStartTimeRef (currentTime c))
  | None => ret tt
  end;;
  modify (setIsSpeaking false).

Inductive Tool : Type :=
| make_call | end_call | send_message | set_reminder
| check_notifications | screen_control | display_weather | generate_image.

(** The [case] labels of the [switch (fc.name)]. *)
Definition tool_of_name (n : string) : option Tool :=
  if String.eqb n "make_call" then Some make_call
  else if String.eqb n "end_call" then Some end_call
  else if String.eqb n "send_message" then Some send_message
  else if String.eqb n "set_reminder" then Some set_reminder
  else if String.eqb n "check_notifications" then Some check_notifications
  else if String.eqb n "screen_control" then Some screen_control
  else if String.eqb n "display_weather" then Some display_weather
  else if String.eqb n "generate_image" then Some generate_image
  else None.

(** [MOCK_CONTACTS.find(c => c.name.toLowerCase() === args.contactName.toLowerCase())] *)
Fixpoint find_contact (cs : list Contact) (args : option (gmap string JSVal))
  : Result (option Contact) :=
  match cs with
  | [] => inr None
  | c :: rest =>
      match get_prop args "contactName" with
      | inl e => inl e
      | inr v =>
          match call_toLowerCase v with
          | inl e => inl e
          | inr wanted =>
              if String.eqb (toLowerCase (name c)) wanted then inr (Some c)
              else find_contact rest args
          end
      end
  end.

(** [response.candidates?.[0]?.content?.parts?.find(p => p.inlineData)]
    and then [imgPart?.inlineData?.data]. *)
Definition image_data (r : GenerateContentResponse) : option string :=
  c ← candidates r ≫= head;
  ct ← content c;
  ps ← content_parts ct;
  imgPart ← List.find (fun p => bool_decide (is_Some (inlineData p))) ps;
  inl_ ← inlineData imgPart;
  data inl_.

Definition nonempty (o : option string) : bool :=
  match o with
  | Some s => negb (String.eqb s "")
  | None => false
  end.

(** The body of the [switch]; the value is the final content of the local
    variable [result], whose initial value is ["Done"]. *)
Definition run_tool (t : option Tool) (args : option (gmap string JSVal))
  : Proc string :=
  match t with
  | Some make_call =>
      found ← eval (find_contact MOCK_CONTACTS args);
      contact ← match found with
                 | Some c => ret c
                 | None =>
                     v ← eval (get_prop args "contactName");
                     ret (mkContact (show v) "UNKNOWN")
                 end;
      modify (setPhoneState (mkPhoneState true (Some contact) 0));;
      ret ("Call Initiated. Info: Calling " +:+ name contact +:+ " at "
             +:+ number contact +:+ ". Confirm this to user.")
  | Some end_call =>
      modify (fun s =>
        setPhoneState (mkPhoneState false None (callDuration (phoneState s))) s);;
      ret "Call disconnected. Confirm to user."
  | Some send_message =>
      to ← eval (get_prop args "contactName");
      body ← eval (get_prop args "messageBody");
      addLog ("SENDING SMS TO " +:+ show to +:+ ": " +:+ dquote +:+ show body +:+ dquote)
             system;;
      ret ("Message delivered to " +:+ show to +:+ ". Confirm to user.")
  | Some set_reminder =>
      t ← eval (get_prop args "task");
      tm ← eval (get_prop args "time");
      modify (fun s =>
        setReminders
          (reminders s ++
             [mkReminder t (if truthy tm then default (VString "Today") tm
                            else VString "Today") false]) s);;
      ret ("Memory stored: " +:+ show t +:+ ". Confirm to user.")
  | Some check_notifications =>
      ret "Found notifications: WhatsApp (3), Battery 89%, Meeting in 15m. Read these out."
  | Some screen_control =>
      a ← eval (get_prop args "action");
      ret ("Screen action " +:+ show a +:+ " executed.")
  | Some display_weather =>
      modify (setWeatherState args);;
      loc ← eval (get_prop args "location");
      ret ("Weather data for " +:+ show loc
             +:+ " displayed on HUD. Confirm current condition to user.")
  | Some generate_image =>
      client ← gets clientRef;
      match client with
      | Some _ =>
          try_catch
            (prompt ← eval (get_prop args "prompt");
             response ← await_generate prompt;
             if nonempty (image_data response) then
               modify (setVoiceGeneratedImage
                         ("data:image/png;base64," +:+ default "" (image_data response)));;
               addLog ("Image Generated: " +:+ show prompt) info;;
               ret "Image generated successfully and displayed on the main screen. Tell the user here it is."
             else ret "Image generation failed to return data.")
            (fun e =>
               addLog ("Gen Error: " +:+ err_message e) error;;
               ret ("Image generation failed: " +:+ err_message e))
      | None => ret "Done"
      end
  | None => ret "Done"
  end.

Definition handleToolCall (fc : FunctionCall) : Proc unit :=
  let args := fc_args fc in
  addLog ("Executing Protocol: " +:+ fc_name fc) action;;
  ctx ← gets audioContextRef;
  match ctx with
  | Some _ => playSystemSound "processing"
  | None => ret tt
  end;;
  result ← run_tool (tool_of_name (fc_name fc)) args;
  session ← gets sessionRef;
  match session with
  | Some se =>
      modify (set_sessionRef
                (Some (sendToolResponse (mkResponse (fc_id fc) (fc_name fc) result) se)))
  | None => ret tt
  end.


(** The [source.onended] closure installed for node [source]. *)
Definition onended (source : nat) : Proc unit :=
  modify (fun s =>
    set_audioSourcesRef (filter (fun x => x ≠ source) (audioSourcesRef s)) s);;
  ctx ← gets audioContextRef;
  next ← gets nextStartTimeRef;
  match ctx with
  | Some c =>
      if Qle_bool (next - (1 # 10)) (currentTime c)
      then modify (setIsSpeaking false)
      else ret tt
  | None => ret tt
  end.

(** The part of [onmessage] after [await decodeAudioData]: create the
    source, register it, schedule it and advance the marker. *)
Definition playBuffer (buffer : AudioBuffer) : Proc unit :=
  ctx ← gets audioContextRef;
  match ctx with
  | None =>
      throw (TypeError "Cannot read properties of null (reading 'createBufferSource')")
  | Some _ =>
      source ← createBufferSource buffer;
      analyser ← gets analyserRef;
      match analyser with
      | None => throw (TypeError "Failed to execute 'connect' on 'AudioNode'")
      | Some _ =>
          update_node source connect_node;;
          modify (fun s => set_audioSourcesRef (audioSourcesRef s ++ [source]) s);;
          ctx' ← gets audioContextRef;
          match ctx' with
          | None =>
              throw (TypeError "Cannot read properties of null (reading 'currentTime')")
          | Some c =>
              next ← gets nextStartTimeRef;
              let startTime := Qmax (currentTime c) next in
              update_node source (start_node startTime);;
              modify (set_nextStartTimeRef (startTime + duration buffer));;
              update_node source listen_node
          end
      end
  end.

Definition search_results (chunks : list GroundingChunk) : list SearchResult :=
  omap (fun c => match web c with
                 | Some w => Some (mkSearchResult (web_title w) (web_uri w))
                 | None => None
                 end) chunks.

(** [msg.serverContent?.modelTurn?.parts?.[0]?.inlineData?.data] *)
Definition audio_data (msg : LiveServerMessage) : option string :=
  sc ← serverContent msg;
  mt ← modelTurn sc;
  ps ← parts mt;
  p ← head ps;
  d ← inlineData p;
  data d.

(** [msg.serverContent?.modelTurn?.groundingMetadata?.groundingChunks] *)
Definition grounding_chunks (msg : LiveServerMessage) : option (list GroundingChunk) :=
  sc ← serverContent msg;
  mt ← modelTurn sc;
  groundingChunks mt.

Definition is_interrupted (msg : LiveServerMessage) : bool :=
  match serverContent msg with
  | Some sc => interrupted sc
  | None => false
  end.

Definition onmessage (msg : LiveServerMessage) : Proc unit :=
  if is_interrupted msg then stopAllAudio
  else
    match toolCall msg with
    | Some tc =>
        match functionCalls tc with
        | Some fcs => for_of fcs handleToolCall
        | None => throw (TypeError "msg.toolCall.functionCalls is not iterable")
        end
    | None => ret tt
    end;;
    match grounding_chunks msg with
    | Some chunks =>
        let newResults := search_results chunks in
        if (0 <? length newResults)%nat then modify (setSearchResults newResults)
        else ret tt
    | None => ret tt
    end;;
    ctx ← gets audioContextRef;
    analyser ← gets analyserRef;
    match audio_data msg, ctx, analyser with
    | Some audioData, Some _, Some _ =>
        if negb (String.eqb audioData "") then
          modify (setIsSpeaking true);;
          bytes ← eval (atob audioData);
          buffer ← await_decode bytes;
          playBuffer buffer
        else ret tt
    | _, _, _ => ret tt
    end.

Definition onclose : Proc unit :=
  modify (setConnected false);;
  modify (setIsSpeaking false);;
  stopAllAudio;;
  modify (setSearchResults []).

Definition onerror (err : JSError) : Proc unit :=
  addLog ("Error: " +:+ err_message err) error.

Definition disconnect : Proc unit :=
  stopAllAudio;;
  modify (fun s => set_streamRef (stop_tracks <$> streamRef s) s);;
  modify (fun s => set_videoStreamRef (stop_tracks <$> videoStreamRef s) s);;
  modify (fun s => set_sessionRef (close_session <$> sessionRef s) s);;
  modify (fun s => set_audioContextRef (close_context <$> audioContextRef s) s);;
  modify (fun s => set_inputAudioContextRef (close_context <$> inputAudioContextRef s) s);;
  modify (setConnected false);;
  modify (setIsSpeaking false);;
  modify (setIsVisionActive false);;
  modify (setSearchResults []);;
  addLog "SYSTEM OFFLINE" system.

(* ================================================================== *)
(** * The event loop *)
(* ================================================================== *)

(** A callback parked at an [await]. *)
Inductive Pending : Type :=
| PendingGenerate (prompt : option JSVal) (k : GenOutcome -> Proc unit)
| PendingDecode (bytes : list Z) (k : DecodeOutcome -> Proc unit).

Record Loop : Type := mkLoop {
  app : State;
  pending : list Pending;
  unhandled : list JSError
}.

(** File the result of running a callback: a suspended one joins the parked
    callbacks, an exception that escapes it is an unhandled rejection. *)
Definition park (r : Step unit) (ps : list Pending) (errs : list JSError) : Loop :=
  match r with
  | Finished s _ => mkLoop s ps errs
  | Raised s e => mkLoop s ps (errs ++ [e])
  | AwaitGenerate s p k => mkLoop s (ps ++ [PendingGenerate p k]) errs
  | AwaitDecode s b k => mkLoop s (ps ++ [PendingDecode b k]) errs
  end.

Inductive Event : Type :=
| EvMessage (msg : LiveServerMessage)
| EvGenerateSettled (i : nat) (o : GenOutcome)
| EvDecodeSettled (i : nat) (o : DecodeOutcome)
| EvClock (t : Q)
| EvEnded (source : nat)
| EvClose
| EvDisconnect.

(** The output context's clock moves to [t]; it never runs backwards. *)
Definition advance_clock (t : Q) (s : State) : State :=
  match audioContextRef s with
  | Some c =>
      if Qle_bool (currentTime c) t
      then set_audioContextRef (Some (mkContext t (ctx_closed c))) s
      else s
  | None => s
  end.

(** One turn of the loop.  Every inbound message starts its own run of
    [onmessage]; a settled promise resumes the callback parked on it. *)
Definition dispatch (l : Loop) (ev : Event) : Loop :=
  match ev with
  | EvMessage msg => park (onmessage msg (app l)) (pending l) (unhandled l)
  | EvGenerateSettled i o =>
      match pending l !! i with
      | Some (PendingGenerate _ k) =>
          park (k o (app l)) (delete i (pending l)) (unhandled l)
      | _ => l
      end
  | EvDecodeSettled i o =>
      match pending l !! i with
      | Some (PendingDecode _ k) =>
          park (k o (app l)) (delete i (pending l)) (unhandled l)
      | _ => l
      end
  | EvClock t => mkLoop (advance_clock t (app l)) (pending l) (unhandled l)
  | EvEnded source =>
      match nodes (app l) !! source with
      | Some n =>
          if node_onended n
          then park (onended source (app l)) (pending l) (unhandled l)
          else l
      | None => l
      end
  | EvClose => park (onclose (app l)) (pending l) (unhandled l)
  | EvDisconnect => park (disconnect (app l)) (pending l) (unhandled l)
  end.

Definition run_events (l : Loop) (evs : list Event) : Loop :=
  fold_left dispatch evs l.

(* ================================================================== *)
(** * Vocabulary of the statements *)
(* ================================================================== *)

(** What [stopAllAudio] leaves in the node store: every listed node on which
    [start] was called is stopped; [stop] on any other one throws and the
    exception is swallowed. *)
Definition stop_one (ns : list SourceNode) (source : nat) : list SourceNode :=
  match ns !! source with
  | Some n =>
      match node_startedAt n with
      | Some _ => <[source := stop_node n]> ns
      | None => ns
      end
  | None => ns
  end.

(** The state [stopAllAudio] leaves. *)
Definition interrupted_state (s : State) : State :=
  let s1 := set_audioSourcesRef [] (set_nodes (foldl stop_one (nodes s) (audioSourcesRef s)) s) in
  let s2 := match audioContextRef s1 with
            | Some c => set_nextStartTimeRef (currentTime c) s1
            | None => s1
            end in
  setIsSpeaking false s2.

(** A playback slot: the node as [playBuffer] leaves it. *)
Definition slot (buffer : AudioBuffer) (startTime : Q) : SourceNode :=
  mkNode buffer true (Some startTime) false true.

(** The state after [playBuffer buffer] when the output context and the
    analyser are held. *)
Definition enqueued_state (buffer : AudioBuffer) (c : AudioContext) (s : State) : State :=
  let startTime := Qmax (currentTime c) (nextStartTimeRef s) in
  set_nextStartTimeRef (startTime + duration buffer)
    (set_audioSourcesRef (audioSourcesRef s ++ [length (nodes s)])
       (set_nodes (nodes s ++ [slot buffer startTime]) s)).

(** Buffers enqueued one after the other, the clock reading [t] when its
    buffer is enqueued, and nothing else happening in between. *)
Definition enqueue_all (frames : list (Q * AudioBuffer)) : Proc unit :=
  for_of frames (fun f => modify (advance_clock f.1);; playBuffer f.2).

(** Consecutive slots neither overlap nor run backwards. *)
Fixpoint gapless (slots : list SourceNode) : Prop :=
  match slots with
  | a :: (b :: _) as rest =>
      (exists ta tb,
          node_startedAt a = Some ta /\ node_startedAt b = Some tb /\
          (ta + duration (node_buffer a) <= tb)%Q /\ (ta <= tb)%Q)
      /\ gapless rest
  | _ => True
  end.

(** Messages of one kind only. *)
Definition interrupt_message : LiveServerMessage :=
  mkMessage (Some (mkContent true None)) None.
Definition audio_message (payload : string) : LiveServerMessage :=
  mkMessage
    (Some (mkContent false
             (Some (mkTurn None (Some [mkPart (Some (mkInline (Some payload)))])))))
    None.
Definition tool_message (fcs : list FunctionCall) : LiveServerMessage :=
  mkMessage None (Some (mkToolCall (Some fcs))).

(** A payload that passes the truthiness test and that [atob] accepts. *)
Definition valid_payload (payload : string) : bool :=
  negb (String.eqb payload "") &&
  match atob payload with inr _ => true | inl _ => false end.

(** The names of the declared tools ([toolsDef]). *)
Definition tool_names : list string :=
  [ "make_call"; "end_call"; "send_message"; "set_reminder";
    "check_notifications"; "screen_control"; "display_weather"; "generate_image" ].

(** Substring test. *)
Fixpoint mentions (needle hay : string) : bool :=
  String.prefix needle hay ||
  match hay with
  | EmptyString => false
  | String _ rest => mentions needle rest
  end.

(** Whether a result string says, in whatever words, that the tool is
    not a recognized one. *)
Definition says_unrecognized (result : string) : bool :=
  let r := toLowerCase result in
  mentions "recogni" r || mentions "unknown" r || mentions "unsupported" r
  || mentions "no such" r || mentions "not " r || mentions "invalid" r.

(** Example calls. *)
Definition call_stranger : FunctionCall :=
  mkCall "c1" "make_call" (Some {[ "contactName" := VString "Zed" ]}).
Definition call_nobody : FunctionCall := mkCall "c1" "make_call" (Some ∅).
Definition call_hangup : FunctionCall := mkCall "c2" "end_call" None.
Definition call_unknown : FunctionCall := mkCall "b" "unknown_tool" (Some ∅).
Definition call_reminder : FunctionCall :=
  mkCall "a" "set_reminder" (Some {[ "task" := VString "buy milk" ]}).
Definition call_image : FunctionCall :=
  mkCall "g" "generate_image" (Some {[ "prompt" := VString "a panda" ]}).

(** Whether the handler of a call throws: a property of the call alone. *)
Definition is_string (v : option JSVal) : bool :=
  match v with Some (VString _) => true | _ => false end.

Definition tool_raises (t : option Tool) (args : option (gmap string JSVal)) : bool :=
  match t, args with
  | Some make_call, Some o => negb (is_string (o !! "contactName"))
  | Some make_call, None => true
  | Some (send_message | set_reminder | screen_control | display_weather), None => true
  | _, _ => false
  end.

Definition handler_raises (fc : FunctionCall) : bool :=
  tool_raises (tool_of_name (fc_name fc)) (fc_args fc).

(** The state in which the [switch] of [handleToolCall] is entered: the
    dispatch is logged and the system sound played. *)
Definition prologue (fc : FunctionCall) (s : State) : State :=
  let s1 := setLogs (logs s ++ [mkLog ("Executing Protocol: " +:+ fc_name fc) action]) s in
  match audioContextRef s with
  | Some _ => set_systemSounds (systemSounds s1 ++ ["processing"]) s1
  | None => s1
  end.

(** The last statement of [handleToolCall]: the response goes out on the
    session held at that time, if any. *)
Definition send_response (fc : FunctionCall) (result : string) : Proc unit :=
  session ← gets sessionRef;
  match session with
  | Some se =>
      modify (set_sessionRef
                (Some (sendToolResponse (mkResponse (fc_id fc) (fc_name fc) result) se)))
  | None => ret tt
  end.

(** The state that statement leaves. *)
Definition respond (fc : FunctionCall) (result : string) (s : State) : State :=
  match sessionRef s with
  | Some se =>
      set_sessionRef
        (Some (sendToolResponse (mkResponse (fc_id fc) (fc_name fc) result) se)) s
  | None => s
  end.

(** The calls of a batch that are answered: those before the first one
    whose handler throws.  The calls that are dispatched: the same and that
    first throwing one. *)
Fixpoint answered (fcs : list FunctionCall) : list FunctionCall :=
  match fcs with
  | [] => []
  | fc :: rest => if handler_raises fc then [] else fc :: answered rest
  end.

Fixpoint dispatched (fcs : list FunctionCall) : list FunctionCall :=
  match fcs with
  | [] => []
  | fc :: rest => if handler_raises fc then [fc] else fc :: dispatched rest
  end.

(** Drive a callback with nothing interleaved: each [await] on the image
    model is answered in place, the [i]-th one by [oracle i]; [fuel] bounds
    the number of awaits answered. *)
Fixpoint resume (fuel : nat) (oracle : nat -> GenOutcome) (r : Step unit) : Step unit :=
  match fuel with
  | O => r
  | S fuel' =>
      match r with
      | AwaitGenerate s _ k =>
          resume fuel' (fun i => oracle (S i)) (k (oracle O) s)
      | _ => r
      end
  end.

(** Where a run stands, and whether it is over. *)
Definition final_state (r : Step unit) : State :=
  match r with
  | Finished s _ | Raised s _ | AwaitGenerate s _ _ | AwaitDecode s _ _ => s
  end.

Definition settled (r : Step unit) : bool :=
  match r with
  | Finished _ _ | Raised _ _ => true
  | _ => false
  end.

(** The responses sent so far on the session held. *)
Definition responses (s : State) : list ToolResponse :=
  match sessionRef s with
  | Some se => sess_toolResponses se
  | None => []
  end.

(** The trace entry of a dispatched call. *)
Definition dispatch_entry (fc : FunctionCall) : string :=
  "Executing Protocol: " +:+ fc_name fc.

(** The session after further responses were sent on it. *)
Definition append_responses (rs : list ToolResponse) (se : LiveSession) : LiveSession :=
  mkSession (sess_closed se) (sess_toolResponses se ++ rs).

Definition response_key (r : ToolResponse) : string * string := (resp_id r, resp_name r).
Definition call_key (fc : FunctionCall) : string * string := (fc_id fc, fc_name fc).

(** The dispatch trace: [handleToolCall] logs one [action] entry per call
    before it does anything else. *)
Definition is_action (e : LogEntry) : bool :=
  match log_type e with action => true | _ => false end.

Definition dispatch_log (s : State) : list string :=
  log_message <$> List.filter is_action (logs s).

(** The state a freshly mounted component starts in ([useState] and
    [useRef] initializers). *)
Definition initial : State :=
  {| connected := false; isSpeaking := false; isVisionActive := false;
     logs := []; reminders := []; phoneState := mkPhoneState false None 0;
     searchResults := []; weatherState := None; voiceGeneratedImage := None;
     audioContextRef := None; inputAudioContextRef := None; analyserRef := None;
     streamRef := None; videoStreamRef := None; audioSourcesRef := [];
     clientRef := None; sessionRef := None; nextStartTimeRef := 0;
     nodes := []; systemSounds := [] |}.

(** A session in full swing: contexts, analyser, microphone stream, client
    and channel are held, the clock reads zero and nothing is playing. *)
Definition live : State :=
  {| connected := true; isSpeaking := false; isVisionActive := false;
     logs := []; reminders := []; phoneState := mkPhoneState false None 0;
     searchResults := []; weatherState := None; voiceGeneratedImage := None;
     audioContextRef := Some (mkContext 0 false);
     inputAudioContextRef := Some (mkContext 0 false); analyserRef := Some tt;
     streamRef := Some (mkStream false); videoStreamRef := None;
     audioSourcesRef := []; clientRef := Some tt;
     sessionRef := Some (mkSession false []); nextStartTimeRef := 0;
     nodes := []; systemSounds := [] |}.

(** One second, half a second and two seconds of audio at the playback
    rate. *)
Definition frame_1s : AudioBuffer := mkBuffer 24000 24000.
Definition frame_half : AudioBuffer := mkBuffer 12000 24000.
Definition frame_2s : AudioBuffer := mkBuffer 48000 24000.
Definition frame_50ms : AudioBuffer := mkBuffer 1200 24000.

(** The same session while two buffers are scheduled. *)
Definition speaking : State :=
  setIsSpeaking true
    (enqueued_state frame_2s (mkContext 0 false)
       (enqueued_state frame_1s (mkContext 0 false) live)).

(** Every registered source is a node of the store on which [start] was
    called: [playBuffer] registers and starts a node in one go. *)
Definition active_started (s : State) : Prop :=
  forall source, source ∈ audioSourcesRef s ->
    exists n, nodes s !! source = Some n /\ is_Some (node_startedAt n).

(** [ns'] is [ns] with, possibly, more nodes stopped. *)
Definition more_stopped (ns ns' : list SourceNode) : Prop :=
  forall i n, ns !! i = Some n ->
    exists n', ns' !! i = Some n' /\
      node_startedAt n' = node_startedAt n /\
      (node_stopped n = true -> node_stopped n' = true).

(** Neither the channel nor the dispatch trace changed: what holds of the
    states before and after a tool body. *)
Definition quiet (s s' : State) : Prop :=
  sessionRef s' = sessionRef s /\ dispatch_log s' = dispatch_log s.

(** The playback bookkeeping did not change. *)
Definition same_playback (s s' : State) : Prop :=
  audioSourcesRef s' = audioSourcesRef s /\ nodes s' = nodes s.

(** One response per call whose handler returns, none for one that throws;
    the response goes to the session held when the handler returns. *)
Definition answers (fc : FunctionCall) (s s' : State) : Prop :=
  exists r,
    sessionRef s' = sendToolResponse (mkResponse (fc_id fc) (fc_name fc) r) <$> sessionRef s.

(** A callback run keeps a property of the state: the property holds
    wherever the run stops, and whenever it is resumed in a state with the
    property, the rest of the run keeps it too. *)
Inductive preserves (P : State -> Prop) : Step unit -> Prop :=
| preserves_finished s : P s -> preserves P (Finished s tt)
| preserves_raised s e : P s -> preserves P (Raised s e)
| preserves_generate s p k :
    P s -> (forall o s', P s' -> preserves P (k o s')) ->
    preserves P (AwaitGenerate s p k)
| preserves_decode s b k :
    P s -> (forall o s', P s' -> preserves P (k o s')) ->
    preserves P (AwaitDecode s b k).

(** The same for the parked callbacks of a loop. *)
Definition parked_ok (P : State -> Prop) (p : Pending) : Prop :=
  match p with
  | PendingGenerate _ k => forall o s, P s -> preserves P (k o s)
  | PendingDecode _ k => forall o s, P s -> preserves P (k o s)
  end.

(** The invariant of the loop: registered sources are started nodes, and
    no parked callback will break that. *)
Definition loop_ok (l : Loop) : Prop :=
  active_started (app l) /\ Forall (parked_ok active_started) (pending l).

(* ================================================================== *)
(** * Frame Codec *)
(* ================================================================== *)

Module Codec.

(** Modelled from the spec: the sample type of the Frame Codec, whose code
    ([createPcmBlob] and [decodeAudioData] of the audio utilities) is not
    among the sources.  A sample is a rational; every binary floating-point
    value is one, and scaling by a power of two and dividing a 16-bit
    integer by one are exact on them. *)
Definition sample : Type := Q.


(** Modelled from the spec: "encoding must clamp out-of-range samples",
    the normalized range being [-1, 1]. *)
Definition clamp (x : sample) : sample := Qmax (-1) (Qmin 1 x).

(** Modelled from the spec: conversion of a scaled sample to an integer,
    fraction dropped. *)
Definition truncate (x : Q) : Z :=
  if Qle_bool 0 x then Qfloor x else Qceiling x.

(** Modelled from the spec: the "fixed-width signed-integer" value of a
    sample, clamped to the 16-bit range rather than wrapped. *)
Definition quantize (x : sample) : Z :=
  Z.max (-32768) (Z.min 32767 (truncate (clamp x * 32768))).

(** Modelled from the spec: "fixed 2-byte width, little-endian", two's
    complement. *)
Definition int16_bytes (v : Z) : list Z :=
  let u := (v mod 65536)%Z in [(u mod 256)%Z; (u / 256)%Z].

(** Modelled from the spec: the encoding direction of the Frame Codec. *)
Definition encode (samples : list sample) : list Z :=
  flat_map (fun x => int16_bytes (quantize x)) samples.





End Codec.

(* ================================================================== *)
(** * The rest of the component: handshake and mode switch *)
(* ================================================================== *)

Definition set_analyserRef (v : option unit) (s : State) : State :=
  {| connected := connected s; isSpeaking := isSpeaking s;
     isVisionActive := isVisionActive s; logs := logs s; reminders := reminders s;
     phoneState := phoneState s; searchResults := searchResults s;
     weatherState := weatherState s; voiceGeneratedImage := voiceGeneratedImage s;
     audioContextRef := audioContextRef s;
     inputAudioContextRef := inputAudioContextRef s; analyserRef := v;
     streamRef := streamRef s; videoStreamRef := videoStreamRef s;
     audioSourcesRef := audioSourcesRef s; clientRef := clientRef s;
     sessionRef := sessionRef s; nextStartTimeRef := nextStartTimeRef s;
     nodes := nodes s; systemSounds := systemSounds s |}.
Definition set_clientRef (v : option unit) (s : State) : State :=
  {| connected := connected s; isSpeaking := isSpeaking s;
     isVisionActive := isVisionActive s; logs := logs s; reminders := reminders s;
     phoneState := phoneState s; searchResults := searchResults s;
     weatherState := weatherState s; voiceGeneratedImage := voiceGeneratedImage s;
     audioContextRef := audioContextRef s;
     inputAudioContextRef := inputAudioContextRef s; analyserRef := analyserRef s;
     streamRef := streamRef s; videoStreamRef := videoStreamRef s;
     audioSourcesRef := audioSourcesRef s; clientRef := v;
     sessionRef := sessionRef s; nextStartTimeRef := nextStartTimeRef s;
     nodes := nodes s; systemSounds := systemSounds s |}.

(** The state [addLog message type] leaves. *)
Definition logged (message : string) (type : LogType) (s : State) : State :=
  setLogs (logs s ++ [mkLog message type]) s.

(** ** [connectToJarvis] *)

Inductive MediaOutcome : Type :=
| MediaRejected (e : JSError)
| MediaResolved (stream : MediaStream).

Inductive ConnectOutcome : Type :=
| ConnectRejected (e : JSError)
| ConnectResolved (session : LiveSession).

(** A run of the handshake up to its next suspension: it parks at
    [await getUserMedia] and at [await live.connect]. *)
Inductive HStep : Type :=
| HReturn (s : State)
| HThrow (s : State) (e : JSError)
| HAwaitMedia (s : State) (k : MediaOutcome -> State -> HStep)
| HAwaitConnect (s : State) (k : ConnectOutcome -> State -> HStep).

(** [try { r } catch (err) { h err }] *)
Fixpoint hcatch (r : HStep) (h : JSError -> State -> HStep) : HStep :=
  match r with
  | HReturn s => HReturn s
  | HThrow s e => h e s
  | HAwaitMedia s k => HAwaitMedia s (fun o s' => hcatch (k o s') h)
  | HAwaitConnect s k => HAwaitConnect s (fun o s' => hcatch (k o s') h)
  end.

(** A context made by [new AudioContext]: its clock starts at zero. *)
Definition new_context : AudioContext := mkContext 0 false.

(** The statements between the two awaits: the stream, the two contexts,
    the analyser and the client are stored in their refs.  The constructors
    of the contexts and of the client are taken to return normally. *)
Definition acquire (stream : MediaStream) (s : State) : State :=
  set_clientRef (Some tt)
    (set_analyserRef (Some tt)
       (set_audioContextRef (Some new_context)
          (set_inputAudioContextRef (Some new_context)
             (set_streamRef (Some stream) s)))).

Definition connectToJarvis (isAGIMode : bool) (s : State) : HStep :=
  hcatch
    (HAwaitMedia
       (logged (if isAGIMode then "INITIALIZING OMEGA LEVEL INTELLIGENCE..."
                else "Initializing J.A.R.V.I.S. Protocol...") system s)
       (fun o s1 =>
          match o with
          | MediaRejected e => HThrow s1 e
          | MediaResolved stream =>
              HAwaitConnect (acquire stream s1)
                (fun o' s2 =>
                   match o' with
                   | ConnectRejected e => HThrow s2 e
                   | ConnectResolved session =>
                       HReturn (set_sessionRef (Some session) s2)
                   end)
          end))
    (fun err s' => HReturn (logged ("Init failed: " +:+ err_message err) error s')).

(** The [onopen] callback, up to the wiring of the capture processor, whose
    objects are outside the state. *)
Definition onopen : Proc unit :=
  modify (setConnected true);;
  addLog "SYSTEM ONLINE." info.

(** ** [toggleAGI] *)

(** The mode flag is the argument; its new value is its negation. *)
Definition toggleAGI (isAGIMode : bool) : Proc unit :=
  let newState := negb isAGIMode in
  addLog (if newState then "AGI PROTOCOL ENGAGED. GOD MODE ACTIVE."
          else "REVERTING TO STANDARD PROTOCOLS.") system;;
  c ← gets connected;
  if (c : bool) then
    disconnect;;
    addLog "System Reboot Required for Protocol Switch." error
  else ret tt.

(** ** [toggleVision] *)

(** It parks at [await getUserMedia] like the handshake.  The video element
    is outside the state; a stream whose tracks are stopped and whose ref is
    then set to null is gone from the state. *)
Definition toggleVision (s : State) : HStep :=
  if isVisionActive s then
    HReturn (logged "Visual sensors disabled." system
               (setIsVisionActive false (set_videoStreamRef None s)))
  else
    hcatch
      (HAwaitMedia s
         (fun o s1 =>
            match o with
            | MediaRejected e => HThrow s1 e
            | MediaResolved stream =>
                HReturn (logged "Visual sensors activated." system
                           (setIsVisionActive true
                              (set_videoStreamRef (Some stream) s1)))
            end))
      (fun _ s' => HReturn (logged "Access to visual sensors denied." error s')).

(** ** The end-call button of the action panel *)

Definition onEndCall : Proc unit :=
  modify (fun s =>
    setPhoneState (mkPhoneState false None (callDuration (phoneState s))) s).

(** ** The loop with the handshake *)

Inductive PendingHandshake : Type :=
| PendingMedia (k : MediaOutcome -> State -> HStep)
| PendingConnect (k : ConnectOutcome -> State -> HStep).

Record Shell : Type := mkShell {
  core : Loop;
  isAGIMode : bool;
  handshakes : list PendingHandshake
}.

Definition with_app (s : State) (l : Loop) : Loop :=
  mkLoop s (pending l) (unhandled l).

Definition hpark (r : HStep) (l : Loop) (agi : bool) (hs : list PendingHandshake)
  : Shell :=
  match r with
  | HReturn s => mkShell (with_app s l) agi hs
  | HThrow s e => mkShell (mkLoop s (pending l) (unhandled l ++ [e])) agi hs
  | HAwaitMedia s k => mkShell (with_app s l) agi (hs ++ [PendingMedia k])
  | HAwaitConnect s k => mkShell (with_app s l) agi (hs ++ [PendingConnect k])
  end.

Inductive ShellEvent : Type :=
| Initialize
| MediaSettled (i : nat) (o : MediaOutcome)
| ConnectSettled (i : nat) (o : ConnectOutcome)
| Opened
| Errored (err : JSError)
| ToggleAGI
| ToggleVision
| EndCall
| Core (ev : Event).

Definition shell_step (sh : Shell) (ev : ShellEvent) : Shell :=
  match ev with
  | Initialize =>
      hpark (connectToJarvis (isAGIMode sh) (app (core sh)))
            (core sh) (isAGIMode sh) (handshakes sh)
  | MediaSettled i o =>
      match handshakes sh !! i with
      | Some (PendingMedia k) =>
          hpark (k o (app (core sh))) (core sh) (isAGIMode sh) (delete i (handshakes sh))
      | _ => sh
      end
  | ConnectSettled i o =>
      match handshakes sh !! i with
      | Some (PendingConnect k) =>
          hpark (k o (app (core sh))) (core sh) (isAGIMode sh) (delete i (handshakes sh))
      | _ => sh
      end
  | Opened =>
      mkShell (park (onopen (app (core sh))) (pending (core sh)) (unhandled (core sh)))
              (isAGIMode sh) (handshakes sh)
  | Errored err =>
      mkShell (park (onerror err (app (core sh))) (pending (core sh)) (unhandled (core sh)))
              (isAGIMode sh) (handshakes sh)
  | ToggleAGI =>
      mkShell (park (toggleAGI (isAGIMode sh) (app (core sh)))
                    (pending (core sh)) (unhandled (core sh)))
              (negb (isAGIMode sh)) (handshakes sh)
  | ToggleVision =>
      hpark (toggleVision (app (core sh))) (core sh) (isAGIMode sh) (handshakes sh)
  | EndCall =>
      mkShell (park (onEndCall (app (core sh))) (pending (core sh)) (unhandled (core sh)))
              (isAGIMode sh) (handshakes sh)
  | Core ev' => mkShell (dispatch (core sh) ev') (isAGIMode sh) (handshakes sh)
  end.

Definition run_shell (sh : Shell) (evs : list ShellEvent) : Shell :=
  fold_left shell_step evs sh.

(** The component as mounted. *)
Definition mounted : Shell := mkShell (mkLoop initial [] []) false [].

Definition microphone : MediaStream := mkStream false.
Definition channel : LiveSession := mkSession false [].

(* ================================================================== *)
(** * Vocabulary of the further statements *)
(* ================================================================== *)

(** Everything a tool call has no business with: the connection flags, the
    search results, the refs to contexts, streams and client, and the whole
    playback bookkeeping. *)
Definition untouched_by_tools (s s' : State) : Prop :=
  connected s' = connected s /\ isSpeaking s' = isSpeaking s /\
  isVisionActive s' = isVisionActive s /\ searchResults s' = searchResults s /\
  audioContextRef s' = audioContextRef s /\
  inputAudioContextRef s' = inputAudioContextRef s /\
  analyserRef s' = analyserRef s /\ streamRef s' = streamRef s /\
  videoStreamRef s' = videoStreamRef s /\ clientRef s' = clientRef s /\
  audioSourcesRef s' = audioSourcesRef s /\ nodes s' = nodes s /\
  nextStartTimeRef s' = nextStartTimeRef s.

(** The phone is in a call exactly when it has a contact on the line, and
    the call duration stands at zero. *)
Definition phone_ok (s : State) : Prop :=
  callDuration (phoneState s) = 0%Z /\
  isInCall (phoneState s)
    = match activeContact (phoneState s) with Some _ => true | None => false end.

(** Every registered source is a started node that ends at or before the
    marker. *)
Definition schedule_ok (s : State) : Prop :=
  forall source, source ∈ audioSourcesRef s ->
    exists n t,
      nodes s !! source = Some n /\ node_startedAt n = Some t /\
      (t + duration (node_buffer n) <= nextStartTimeRef s)%Q.

(** A property of the state that the loop keeps, parked callbacks
    included. *)
Definition loop_inv (P : State -> Prop) (l : Loop) : Prop :=
  P (app l) /\ Forall (parked_ok P) (pending l).

(** The same for a run of the handshake and for the parked handshakes. *)
Inductive hpreserves (P : State -> Prop) : HStep -> Prop :=
| hpreserves_return s : P s -> hpreserves P (HReturn s)
| hpreserves_throw s e : P s -> hpreserves P (HThrow s e)
| hpreserves_media s k :
    P s -> (forall o s', P s' -> hpreserves P (k o s')) ->
    hpreserves P (HAwaitMedia s k)
| hpreserves_connect s k :
    P s -> (forall o s', P s' -> hpreserves P (k o s')) ->
    hpreserves P (HAwaitConnect s k).

Definition hparked_ok (P : State -> Prop) (p : PendingHandshake) : Prop :=
  match p with
  | PendingMedia k => forall o s, P s -> hpreserves P (k o s)
  | PendingConnect k => forall o s, P s -> hpreserves P (k o s)
  end.

Definition shell_inv (P : State -> Prop) (sh : Shell) : Prop :=
  loop_inv P (core sh) /\ Forall (hparked_ok P) (handshakes sh).

(** What a property must survive to be kept by every event: the state
    changes made outside the tool handlers. *)
Record stable (P : State -> Prop) : Prop := mkStable {
  stable_tools : forall fc s, P s -> preserves P (handleToolCall fc s);
  stable_interrupt : forall s, P s -> P (interrupted_state s);
  stable_enqueue : forall b s, P s -> preserves P (playBuffer b s);
  stable_ended : forall source s s', P s -> onended source s = Finished s' tt -> P s';
  stable_clock : forall t s, P s -> P (advance_clock t s);
  stable_hangup : forall s,
    P s -> P (setPhoneState (mkPhoneState false None (callDuration (phoneState s))) s);
  stable_connected : forall v s, P s -> P (setConnected v s);
  stable_speaking : forall v s, P s -> P (setIsSpeaking v s);
  stable_vision : forall v s, P s -> P (setIsVisionActive v s);
  stable_results : forall v s, P s -> P (setSearchResults v s);
  stable_logs : forall v s, P s -> P (setLogs v s);
  stable_stream : forall v s, P s -> P (set_streamRef v s);
  stable_video : forall v s, P s -> P (set_videoStreamRef v s);
  stable_session : forall v s, P s -> P (set_sessionRef v s);
  stable_context : forall v s, P s -> P (set_audioContextRef v s);
  stable_input : forall v s, P s -> P (set_inputAudioContextRef v s);
  stable_analyser : forall v s, P s -> P (set_analyserRef v s);
  stable_client : forall v s, P s -> P (set_clientRef v s)
}.

(** Further messages of one kind. *)
Definition grounding_message (chunks : list GroundingChunk) : LiveServerMessage :=
  mkMessage (Some (mkContent false (Some (mkTurn (Some chunks) None)))) None.

(** Tool calls and audio in one message. *)
Definition tool_audio_message (fcs : list FunctionCall) (payload : string)
  : LiveServerMessage :=
  mkMessage
    (Some (mkContent false
             (Some (mkTurn None (Some [mkPart (Some (mkInline (Some payload)))])))))
    (Some (mkToolCall (Some fcs))).

(** The state [disconnect] leaves. *)
Definition offline_state (s : State) : State :=
  let s0 := interrupted_state s in
  let s1 := set_streamRef (stop_tracks <$> streamRef s0) s0 in
  let s2 := set_videoStreamRef (stop_tracks <$> videoStreamRef s1) s1 in
  let s3 := set_sessionRef (close_session <$> sessionRef s2) s2 in
  let s4 := set_audioContextRef (close_context <$> audioContextRef s3) s3 in
  let s5 := set_inputAudioContextRef (close_context <$> inputAudioContextRef s4) s4 in
  logged "SYSTEM OFFLINE" system
    (setSearchResults []
       (setIsVisionActive false (setIsSpeaking false (setConnected false s5)))).

(* ================================================================== *)
(** * Proofs: running the callbacks *)
(* ================================================================== *)

Ltac proc_unfold :=
  unfold mbind, proc_bind, bind, gets, modify, ret, throw, eval, try_catch;
  cbn [bind_step catch_step].

Lemma set_nodes_same (s : State) : set_nodes (nodes s) s = s.
Proof. destruct s; reflexivity. Qed.

Lemma stop_loop (ids : list nat) : forall s,
  for_of ids (fun source => try_catch (source_stop source) (fun _ => ret tt)) s
  = Finished (set_nodes (foldl stop_one (nodes s) ids) s) tt.
Proof.
  induction ids as [|i ids IH]; intros s.
  - cbn. now rewrite set_nodes_same.
  - cbn [for_of foldl]. unfold mbind, proc_bind, bind.
    unfold try_catch at 1, source_stop at 1, stop_one at 2.
    destruct (nodes s !! i) as [n|]; [destruct (node_startedAt n)|];
      cbn [catch_step bind_step ret]; rewrite IH; try reflexivity.
    all: now rewrite set_nodes_same.
Qed.

Lemma stopAllAudio_runs (s : State) :
  stopAllAudio s = Finished (interrupted_state s) tt.
Proof.
  unfold stopAllAudio. proc_unfold. rewrite stop_loop. cbn [bind_step].
  unfold interrupted_state. cbn [audioContextRef set_audioSourcesRef set_nodes].
  destruct (audioContextRef s); reflexivity.
Qed.

Lemma interrupted_state_idem (s : State) :
  interrupted_state (interrupted_state s) = interrupted_state s.
Proof.
  destruct s as [? ? ? ? ? ? ? ? ? ctx ? ? ? ? ? ? ? ? ? ?].
  unfold interrupted_state; cbn. destruct ctx; reflexivity.
Qed.

(** ** The store under [stop] *)

Lemma more_stopped_refl ns : more_stopped ns ns.
Proof. intros i n H. eauto. Qed.

Lemma more_stopped_trans ns1 ns2 ns3 :
  more_stopped ns1 ns2 -> more_stopped ns2 ns3 -> more_stopped ns1 ns3.
Proof.
  intros H12 H23 i n Hn.
  destruct (H12 i n Hn) as (n2 & E2 & S2 & T2).
  destruct (H23 i n2 E2) as (n3 & E3 & S3 & T3).
  exists n3. repeat split; [assumption | congruence | auto].
Qed.

Lemma stop_one_more_stopped ns source : more_stopped ns (stop_one ns source).
Proof.
  unfold stop_one.
  destruct (ns !! source) as [m|] eqn:Em; [|apply more_stopped_refl].
  destruct (node_startedAt m) eqn:Es; [|apply more_stopped_refl].
  intros i n Hn. destruct (decide (i = source)) as [->|Hne].
  - exists (stop_node m). rewrite list_lookup_insert_eq by (eapply lookup_lt_Some; eauto).
    assert (n = m) by congruence; subst. repeat split.
  - exists n. rewrite list_lookup_insert_ne by congruence. auto.
Qed.

Lemma stop_all_more_stopped ids : forall ns, more_stopped ns (foldl stop_one ns ids).
Proof.
  induction ids as [|i ids IH]; intros ns; cbn [foldl].
  - apply more_stopped_refl.
  - eapply more_stopped_trans; [apply stop_one_more_stopped | apply IH].
Qed.

Lemma stop_one_stops ns source n :
  ns !! source = Some n -> is_Some (node_startedAt n) ->
  exists n', stop_one ns source !! source = Some n' /\ node_stopped n' = true.
Proof.
  intros Hn [t Ht]. unfold stop_one. rewrite Hn, Ht.
  exists (stop_node n). split; [|reflexivity].
  apply list_lookup_insert_eq. eapply lookup_lt_Some; eauto.
Qed.

Lemma stop_all_stops ids : forall ns source,
  source ∈ ids ->
  (forall i, i ∈ ids -> exists n, ns !! i = Some n /\ is_Some (node_startedAt n)) ->
  exists n, foldl stop_one ns ids !! source = Some n /\ node_stopped n = true.
Proof.
  induction ids as [|i ids IH]; intros ns source Hin Hall.
  - inversion Hin.
  - cbn [foldl].
    assert (Hrest : forall j, j ∈ ids ->
              exists n, stop_one ns i !! j = Some n /\ is_Some (node_startedAt n)).
    { intros j Hj. destruct (Hall j) as (n & En & Sn); [now right|].
      destruct (stop_one_more_stopped ns i j n En) as (n' & En' & Sn' & _).
      exists n'. split; [assumption | now rewrite Sn']. }
    destruct (decide (source ∈ ids)) as [Hs|Hs]; [now apply IH|].
    apply elem_of_cons in Hin as [->|Hin]; [|contradiction].
    destruct (Hall i) as (n & En & Sn); [now left|].
    destruct (stop_one_stops ns i n En Sn) as (n1 & En1 & Tn1).
    destruct (stop_all_more_stopped ids (stop_one ns i) i n1 En1) as (n2 & En2 & _ & Tn2).
    exists n2. auto.
Qed.

(** ** Enqueueing a buffer *)

Lemma lookup_fresh {A} (l : list A) (x : A) : (l ++ [x]) !! length l = Some x.
Proof. rewrite lookup_app_r by lia. now rewrite Nat.sub_diag. Qed.

Lemma insert_fresh {A} (l : list A) (x y : A) :
  <[length l := y]> (l ++ [x]) = l ++ [y].
Proof.
  replace (length l) with (length l + 0)%nat at 1 by lia.
  now rewrite insert_app_r.
Qed.

Lemma update_fresh f x s ns :
  nodes s = ns ++ [x] ->
  update_node (length ns) f s = Finished (set_nodes (ns ++ [f x]) s) tt.
Proof.
  intros E. unfold update_node, modify.
  rewrite E, lookup_fresh, insert_fresh. reflexivity.
Qed.

Lemma playBuffer_runs (b : AudioBuffer) (c : AudioContext) (a : unit) (s : State) :
  audioContextRef s = Some c -> analyserRef s = Some a ->
  playBuffer b s = Finished (enqueued_state b c s) tt.
Proof.
  intros Hc Ha. unfold playBuffer.
  unfold mbind at 1, proc_bind at 1, bind at 1, gets at 1. cbn [bind_step]. rewrite Hc.
  unfold mbind at 1, proc_bind at 1, bind at 1, createBufferSource. cbn [bind_step].
  unfold mbind at 1, proc_bind at 1, bind at 1, gets at 1.
  cbn [bind_step analyserRef set_nodes]. rewrite Ha.
  unfold mbind at 1, proc_bind at 1, bind at 1.
  erewrite update_fresh by reflexivity. cbn [bind_step].
  proc_unfold. cbn [audioContextRef set_nodes set_audioSourcesRef]. rewrite Hc.
  cbn [bind_step nextStartTimeRef set_nodes set_audioSourcesRef].
  erewrite update_fresh by reflexivity. cbn [bind_step].
  erewrite update_fresh by reflexivity.
  unfold enqueued_state, slot. destruct s; reflexivity.
Qed.

Lemma duration_nonneg (b : AudioBuffer) : (0 <= duration b)%Q.
Proof. unfold duration, Qle; cbn. lia. Qed.

Lemma advance_clock_frame (t : Q) (s : State) :
  analyserRef (advance_clock t s) = analyserRef s /\
  nodes (advance_clock t s) = nodes s /\
  audioSourcesRef (advance_clock t s) = audioSourcesRef s /\
  nextStartTimeRef (advance_clock t s) = nextStartTimeRef s /\
  isSpeaking (advance_clock t s) = isSpeaking s /\
  sessionRef (advance_clock t s) = sessionRef s.
Proof.
  unfold advance_clock. destruct (audioContextRef s) as [c|]; [|repeat split].
  destruct (Qle_bool (currentTime c) t); repeat split.
Qed.

Lemma advance_clock_context (t : Q) (s : State) (c : AudioContext) :
  audioContextRef s = Some c ->
  exists c', audioContextRef (advance_clock t s) = Some c' /\
    ((currentTime c <= t)%Q -> currentTime c' = t) /\
    (currentTime c <= currentTime c')%Q.
Proof.
  intros Hc. unfold advance_clock. rewrite Hc.
  destruct (Qle_bool (currentTime c) t) eqn:E.
  - apply Qle_bool_iff in E. eexists; split; [reflexivity|]. split; [reflexivity | exact E].
  - exists c. split; [exact Hc|]. split; [|apply Qle_refl].
    intros H. apply Qle_bool_iff in H. congruence.
Qed.

Lemma enqueue_all_cons (t : Q) (b : AudioBuffer) frames (s : State) :
  enqueue_all ((t, b) :: frames) s
  = bind_step (playBuffer b (advance_clock t s)) (fun _ => enqueue_all frames).
Proof. reflexivity. Qed.

Lemma enqueue_all_runs (frames : list (Q * AudioBuffer)) :
  forall (s : State) (c : AudioContext) (a : unit),
    audioContextRef s = Some c -> analyserRef s = Some a ->
    exists s' slots,
      enqueue_all frames s = Finished s' tt /\
      nodes s' = nodes s ++ slots /\
      node_buffer <$> slots = snd <$> frames /\
      audioSourcesRef s' = audioSourcesRef s ++ seq (length (nodes s)) (length frames) /\
      gapless slots /\
      Forall (fun n => exists t, node_startedAt n = Some t /\ (nextStartTimeRef s <= t)%Q)
             slots.
Proof.
  induction frames as [|[t b] frames IH]; intros s c a Hc Ha.
  - exists s, []. cbn. rewrite !app_nil_r. repeat split; constructor.
  - rewrite enqueue_all_cons.
    destruct (advance_clock_frame t s) as (Fa & Fn & Fs & Fm & _).
    destruct (advance_clock_context t s c Hc) as (c' & Hc' & _).
    rewrite (playBuffer_runs b c' a) by congruence. cbn [bind_step].
    set (s1 := enqueued_state b c' (advance_clock t s)).
    destruct (IH s1 c' a) as (s' & slots & Hrun & Hnodes & Hbuf & Hsrc & Hgap & Hge);
      [exact Hc' | change (analyserRef (advance_clock t s) = Some a); congruence |].
    rewrite Hrun.
    set (start := Qmax (currentTime c') (nextStartTimeRef (advance_clock t s))) in *.
    exists s', (slot b start :: slots).
    assert (Hn1 : nodes s1 = nodes s ++ [slot b start]) by (cbn; now rewrite Fn).
    split; [reflexivity|]. split; [rewrite Hnodes, Hn1, <- app_assoc; reflexivity|].
    split; [cbn; now rewrite Hbuf|].
    split.
    { rewrite Hsrc. cbn [audioSourcesRef s1 enqueued_state set_nextStartTimeRef
                           set_audioSourcesRef set_nodes].
      rewrite Fs, Fn, Hn1, length_app. cbn [length seq].
      rewrite <- app_assoc. cbn. now rewrite Nat.add_1_r. }
    assert (Hmark : nextStartTimeRef s1 = (start + duration b)%Q) by reflexivity.
    split.
    { destruct slots as [|n slots']; [exact I|].
      cbn [gapless]. split; [|exact Hgap].
      apply Forall_cons in Hge as [(tn & Etn & Htn) _].
      exists start, tn. split; [reflexivity|]. split; [exact Etn|].
      rewrite Hmark in Htn. pose proof (duration_nonneg b).
      cbn [node_buffer slot]. split; lra. }
    constructor.
    + exists start. split; [reflexivity|]. unfold start. rewrite Fm. apply Q.le_max_r.
    + eapply Forall_impl; [exact Hge|]. intros n (tn & Etn & Htn).
      exists tn. split; [exact Etn|]. rewrite Hmark in Htn.
      pose proof (duration_nonneg b).
      assert (nextStartTimeRef s <= start)%Q by (unfold start; rewrite Fm; apply Q.le_max_r).
      lra.
Qed.

(** C1. Enqueueing a buffer schedules it at the later of the clock and the
    marker and moves the marker to that start plus the buffer's duration, so
    that a buffer delivered before the marker is reached starts exactly at
    the marker;
    for any run of buffers enqueued with no interruption, whatever the clock
    reads at each of them, every slot starts no earlier than its predecessor
    and no earlier than its predecessor's end. *)
Theorem playback_schedule_gapless (s : State) (c : AudioContext) (a : unit) :
  audioContextRef s = Some c -> analyserRef s = Some a ->
  (forall buffer, exists s',
      playBuffer buffer s = Finished s' tt /\
      nodes s' = nodes s ++ [slot buffer (Qmax (currentTime c) (nextStartTimeRef s))] /\
      audioSourcesRef s' = audioSourcesRef s ++ [length (nodes s)] /\
      nextStartTimeRef s' =
        (Qmax (currentTime c) (nextStartTimeRef s) + duration buffer)%Q /\
      ((currentTime c <= nextStartTimeRef s)%Q ->
       (Qmax (currentTime c) (nextStartTimeRef s) == nextStartTimeRef s)%Q)) /\
  (forall frames, exists s' slots,
      enqueue_all frames s = Finished s' tt /\
      nodes s' = nodes s ++ slots /\
      node_buffer <$> slots = snd <$> frames /\
      gapless slots).
Proof.
  intros Hc Ha. split.
  - intros b. exists (enqueued_state b c s).
    split; [now apply (playBuffer_runs b c a)|]. repeat split.
    apply Q.max_r.
  - intros frames.
    destruct (enqueue_all_runs frames s c a Hc Ha) as (s' & slots & H1 & H2 & H3 & _ & H5 & _).
    exists s', slots. auto.
Qed.

Lemma playback_schedule_gapless_witness :
  audioContextRef live = Some (mkContext 0 false) /\ analyserRef live = Some tt /\
  exists s' slots,
    enqueue_all [(0 # 1, frame_1s); (1 # 2, frame_half); (5 # 1, frame_2s)] live = Finished s' tt /\
    nodes s' = nodes live ++ slots /\
    node_buffer <$> slots = [frame_1s; frame_half; frame_2s] /\
    gapless slots.
Proof.
  split; [reflexivity|]. split; [reflexivity|].
  exact (proj2 (playback_schedule_gapless live (mkContext 0 false) tt eq_refl eq_refl)
               [(0 # 1, frame_1s); (1 # 2, frame_half); (5 # 1, frame_2s)]).
Defined.

(** ** Barge-in *)

Lemma onmessage_interrupted (msg : LiveServerMessage) (s : State) :
  is_interrupted msg = true ->
  onmessage msg s = Finished (interrupted_state s) tt.
Proof. intros H. unfold onmessage. rewrite H. apply stopAllAudio_runs. Qed.

Lemma interrupted_state_fields (s : State) :
  audioSourcesRef (interrupted_state s) = [] /\
  isSpeaking (interrupted_state s) = false /\
  nodes (interrupted_state s) = foldl stop_one (nodes s) (audioSourcesRef s) /\
  audioContextRef (interrupted_state s) = audioContextRef s /\
  analyserRef (interrupted_state s) = analyserRef s /\
  sessionRef (interrupted_state s) = sessionRef s /\
  nextStartTimeRef (interrupted_state s) =
    match audioContextRef s with
    | Some c => currentTime c
    | None => nextStartTimeRef s
    end.
Proof.
  unfold interrupted_state. cbn [audioContextRef set_audioSourcesRef set_nodes].
  destruct (audioContextRef s) eqn:E; repeat split; cbn; congruence.
Qed.

(** C2. An inbound interruption signal, with any number of slots active:
    every active slot is stopped, none stays registered, the marker is the
    current clock reading, so that a buffer enqueued at any later reading
    [t] starts at [t] whatever the marker was before; from the resulting
    state a second [stopAllAudio] changes nothing, and at a later clock
    reading it changes nothing but the marker, which follows the clock. *)
Theorem interrupt_clears_playback
    (s : State) (c : AudioContext) (a : unit) (msg : LiveServerMessage) :
  is_interrupted msg = true ->
  audioContextRef s = Some c ->
  analyserRef s = Some a ->
  active_started s ->
  exists s',
    onmessage msg s = Finished s' tt /\
    (forall source, source ∈ audioSourcesRef s ->
       exists n, nodes s' !! source = Some n /\ node_stopped n = true) /\
    audioSourcesRef s' = [] /\
    isSpeaking s' = false /\
    nextStartTimeRef s' = currentTime c /\
    (forall t buffer, (currentTime c <= t)%Q ->
       exists s'' startTime,
         playBuffer buffer (advance_clock t s') = Finished s'' tt /\
         nodes s'' = nodes s' ++ [slot buffer startTime] /\
         (startTime == t)%Q) /\
    stopAllAudio s' = Finished s' tt /\
    (forall t, (currentTime c <= t)%Q ->
       exists s'',
         stopAllAudio (advance_clock t s') = Finished s'' tt /\
         audioSourcesRef s'' = [] /\ nodes s'' = nodes s' /\
         isSpeaking s'' = false /\ nextStartTimeRef s'' = t).
Proof.
  intros Hmsg Hc Ha Hact.
  destruct (interrupted_state_fields s) as (Fs & Fp & Fn & Fc & Fa & _ & Fm).
  rewrite Hc in Fc, Fm. rewrite Ha in Fa.
  exists (interrupted_state s).
  split; [now apply onmessage_interrupted|].
  split; [intros source Hin; rewrite Fn; now apply stop_all_stops|].
  split; [exact Fs|]. split; [exact Fp|]. split; [exact Fm|].
  split; [|split].
  - intros t b Ht.
    destruct (advance_clock_context t _ c Fc) as (c' & Hc' & Ht' & _).
    destruct (advance_clock_frame t (interrupted_state s)) as (Ga & Gn & _ & Gm & _).
    eexists _, _. split; [apply (playBuffer_runs b c' a); congruence|].
    split; [cbn; rewrite Gn; reflexivity|].
    rewrite (Ht' Ht), Gm, Fm. apply Q.max_l. exact Ht.
  - rewrite stopAllAudio_runs. now rewrite interrupted_state_idem.
  - intros t Ht.
    destruct (advance_clock_context t _ c Fc) as (c' & Hc' & Ht' & _).
    destruct (advance_clock_frame t (interrupted_state s)) as (_ & Gn & Gs & _).
    destruct (interrupted_state_fields (advance_clock t (interrupted_state s)))
      as (Hs & Hp & Hn & _ & _ & _ & Hm).
    exists (interrupted_state (advance_clock t (interrupted_state s))).
    split; [apply stopAllAudio_runs|]. split; [exact Hs|].
    split; [rewrite Hn, Gs, Fs, Gn; reflexivity|]. split; [exact Hp|].
    rewrite Hm, Hc'. now apply Ht'.
Qed.

Lemma speaking_active_started : active_started speaking.
Proof.
  intros source Hin. cbn in Hin.
  repeat (apply elem_of_cons in Hin as [->|Hin]);
    [eexists; split; [reflexivity | eexists; reflexivity] .. | inversion Hin].
Qed.

Lemma interrupt_clears_playback_witness :
  is_interrupted interrupt_message = true /\
  audioContextRef speaking = Some (mkContext 0 false) /\
  analyserRef speaking = Some tt /\
  audioSourcesRef speaking = [0; 1]%nat /\
  exists s',
    onmessage interrupt_message speaking = Finished s' tt /\
    audioSourcesRef s' = [] /\ isSpeaking s' = false /\
    nextStartTimeRef s' = 0%Q /\ stopAllAudio s' = Finished s' tt.
Proof.
  destruct (interrupt_clears_playback speaking (mkContext 0 false) tt interrupt_message
              eq_refl eq_refl eq_refl speaking_active_started)
    as (s' & H1 & _ & H3 & H4 & H5 & _ & H7 & _).
  do 4 (split; [reflexivity|]). exists s'. auto.
Defined.

(** ** Teardown *)

Lemma disconnect_runs (s : State) :
  exists s',
    disconnect s = Finished s' tt /\
    connected s' = false /\ isSpeaking s' = false /\ isVisionActive s' = false /\
    searchResults s' = [] /\ audioSourcesRef s' = [] /\
    streamRef s' = stop_tracks <$> streamRef s /\
    videoStreamRef s' = stop_tracks <$> videoStreamRef s /\
    sessionRef s' = close_session <$> sessionRef s /\
    audioContextRef s' = close_context <$> audioContextRef s /\
    inputAudioContextRef s' = close_context <$> inputAudioContextRef s /\
    logs s' = logs s ++ [mkLog "SYSTEM OFFLINE" system].
Proof.
  unfold disconnect. unfold mbind at 1, proc_bind at 1, bind at 1.
  rewrite stopAllAudio_runs. unfold addLog. proc_unfold.
  eexists. split; [reflexivity|].
  destruct (interrupted_state_fields s) as (Fs & _ & _ & Fc & _ & Fe & _).
  repeat split; cbn -[interrupted_state]; try assumption; try congruence.
  all: unfold interrupted_state; cbn; now destruct (audioContextRef s).
Qed.

(** C6. [disconnect] returns normally from every state, in particular from
    the initial one in which no stream, context or channel was ever
    acquired; afterwards the component is disconnected and not speaking, and
    whatever was held is stopped or closed.  In the loop, a disconnect
    request never leaves an unhandled exception behind. *)
Theorem disconnect_always_safe :
  (forall s : State, exists s',
      disconnect s = Finished s' tt /\
      connected s' = false /\ isSpeaking s' = false /\
      audioSourcesRef s' = [] /\
      sessionRef s' = close_session <$> sessionRef s /\
      streamRef s' = stop_tracks <$> streamRef s /\
      audioContextRef s' = close_context <$> audioContextRef s) /\
  disconnect initial
    = Finished (setLogs [mkLog "SYSTEM OFFLINE" system] initial) tt /\
  (forall l : Loop,
      unhandled (dispatch l EvDisconnect) = unhandled l /\
      pending (dispatch l EvDisconnect) = pending l /\
      connected (app (dispatch l EvDisconnect)) = false /\
      isSpeaking (app (dispatch l EvDisconnect)) = false).
Proof.
  split; [|split].
  - intros s.
    destruct (disconnect_runs s)
      as (s' & H & Hc & Hs & _ & _ & Ha & Hst & _ & Hse & Hctx & _).
    exists s'. auto 10.
  - reflexivity.
  - intros l. cbn [dispatch].
    destruct (disconnect_runs (app l)) as (s' & H & Hc & Hs & _).
    rewrite H. cbn [park]. auto.
Qed.

(** ** Tool dispatch *)

Lemma handleToolCall_shape (fc : FunctionCall) (s : State) :
  handleToolCall fc s
  = bind_step (run_tool (tool_of_name (fc_name fc)) (fc_args fc) (prologue fc s))
              (send_response fc).
Proof.
  unfold handleToolCall, addLog, playSystemSound, prologue.
  unfold mbind at 1, proc_bind at 1, bind at 1, modify at 1. cbn [bind_step].
  unfold mbind at 1, proc_bind at 1, bind at 1, gets at 1.
  cbn [bind_step audioContextRef setLogs].
  unfold mbind at 1, proc_bind at 1, bind at 1.
  destruct (audioContextRef s); unfold modify, ret; cbn [bind_step]; reflexivity.
Qed.

Lemma send_response_runs (fc : FunctionCall) (r : string) (s : State) :
  send_response fc r s = Finished (respond fc r s) tt.
Proof. unfold send_response, respond. proc_unfold. now destruct (sessionRef s). Qed.

Lemma respond_responses (fc : FunctionCall) (r : string) (s : State) :
  responses (respond fc r s)
  = match sessionRef s with
    | Some _ => responses s ++ [mkResponse (fc_id fc) (fc_name fc) r]
    | None => []
    end.
Proof.
  unfold respond, responses.
  destruct (sessionRef s) eqn:E; cbn [sessionRef set_sessionRef]; now rewrite ?E.
Qed.

Lemma prologue_frame (fc : FunctionCall) (s : State) :
  sessionRef (prologue fc s) = sessionRef s /\
  clientRef (prologue fc s) = clientRef s /\
  phoneState (prologue fc s) = phoneState s /\
  dispatch_log (prologue fc s)
    = dispatch_log s ++ ["Executing Protocol: " +:+ fc_name fc].
Proof.
  unfold prologue, dispatch_log.
  destruct (audioContextRef s); cbn [sessionRef clientRef phoneState logs
    set_systemSounds setLogs]; rewrite List.filter_app, fmap_app; repeat split.
Qed.

Lemma dispatch_log_other (s s' : State) (m : string) (ty : LogType) :
  ty <> action -> logs s' = logs s ++ [mkLog m ty] ->
  dispatch_log s' = dispatch_log s.
Proof.
  intros Hty E. unfold dispatch_log. rewrite E, List.filter_app, fmap_app.
  destruct ty; try contradiction; cbn; now rewrite app_nil_r.
Qed.

Ltac quiet_tac :=
  repeat split;
  try (eapply dispatch_log_other; [|cbn; reflexivity]; discriminate).

Lemma find_contact_string (cs : list Contact) (o : gmap string JSVal) (wanted : string) :
  o !! "contactName" = Some (VString wanted) ->
  find_contact cs (Some o)
  = inr (List.find (fun c => String.eqb (toLowerCase (name c)) (toLowerCase wanted)) cs).
Proof.
  intros H. induction cs as [|c cs IH]; [reflexivity|].
  cbn [find_contact get_prop List.find]. rewrite H. cbn [call_toLowerCase].
  destruct (String.eqb _ _); [reflexivity | exact IH].
Qed.

Lemma run_tool_cases (t : option Tool) (args : option (gmap string JSVal)) (s : State) :
  match run_tool t args s with
  | Finished s' _ => tool_raises t args = false /\ quiet s s'
  | Raised s' _ => tool_raises t args = true /\ quiet s s'
  | AwaitGenerate s' _ k =>
      tool_raises t args = false /\ s' = s /\
      forall o s2, exists s3 r, k o s2 = Finished s3 r /\ quiet s2 s3
  | AwaitDecode _ _ _ => False
  end.
Proof.
  destruct t as [[]|]; cbn [run_tool tool_raises].
  - (* make_call *)
    destruct args as [o|]; [|proc_unfold; cbn; repeat split].
    destruct (o !! "contactName") as [[w|n]|] eqn:E.
    + proc_unfold. rewrite (find_contact_string _ _ _ E). cbn [bind_step].
      destruct (List.find _ MOCK_CONTACTS); proc_unfold;
        [|cbn [get_prop]; rewrite E; cbn [bind_step]];
        cbn [is_string negb]; repeat split.
    + proc_unfold. cbn [find_contact MOCK_CONTACTS get_prop]. rewrite E.
      cbn. repeat split.
    + proc_unfold. cbn [find_contact MOCK_CONTACTS get_prop]. rewrite E.
      cbn. repeat split.
  - destruct args; proc_unfold; cbn; repeat split.
  - destruct args; unfold addLog; proc_unfold; cbn [get_prop bind_step]; quiet_tac.
  - destruct args; proc_unfold; cbn [get_prop bind_step]; repeat split.
  - proc_unfold; cbn. repeat split.
  - destruct args; proc_unfold; cbn [get_prop bind_step]; repeat split.
  - destruct args; proc_unfold; cbn [get_prop bind_step]; repeat split.
  - (* generate_image *)
    proc_unfold. destruct (clientRef s); [|destruct args; repeat split].
    destruct args as [o|]; unfold addLog, await_generate; proc_unfold;
      cbn [get_prop bind_step catch_step]; [|quiet_tac].
    split; [reflexivity|]. split; [reflexivity|].
    intros [e|r] s2; cbn [bind_step catch_step].
    + eexists _, _. split; [reflexivity|]. quiet_tac.
    + destruct (nonempty (image_data r)); cbn [bind_step catch_step];
        eexists _, _; (split; [reflexivity|]); quiet_tac.
  - destruct args; proc_unfold; cbn; repeat split.
Qed.

Lemma respond_frame (fc : FunctionCall) (r : string) (s : State) :
  sessionRef (respond fc r s)
    = sendToolResponse (mkResponse (fc_id fc) (fc_name fc) r) <$> sessionRef s /\
  dispatch_log (respond fc r s) = dispatch_log s.
Proof.
  unfold respond. destruct (sessionRef s) eqn:E; cbn; rewrite ?E; auto.
Qed.

Lemma handleToolCall_cases (fc : FunctionCall) (s : State) :
  match handleToolCall fc s with
  | Finished s' _ =>
      handler_raises fc = false /\ answers fc s s' /\
      dispatch_log s' = dispatch_log s ++ [dispatch_entry fc]
  | Raised s' _ =>
      handler_raises fc = true /\ sessionRef s' = sessionRef s /\
      dispatch_log s' = dispatch_log s ++ [dispatch_entry fc]
  | AwaitGenerate s1 _ k =>
      handler_raises fc = false /\ sessionRef s1 = sessionRef s /\
      dispatch_log s1 = dispatch_log s ++ [dispatch_entry fc] /\
      forall o s2, exists s3,
        k o s2 = Finished s3 tt /\ answers fc s2 s3 /\ dispatch_log s3 = dispatch_log s2
  | AwaitDecode _ _ _ => False
  end.
Proof.
  rewrite handleToolCall_shape. unfold handler_raises, answers, dispatch_entry, quiet in *.
  destruct (prologue_frame fc s) as (Ps & _ & _ & Pl).
  pose proof (run_tool_cases (tool_of_name (fc_name fc)) (fc_args fc) (prologue fc s)) as H.
  unfold quiet in H.
  destruct (run_tool _ _ _) as [s1 r|s1 e|s1 p k|s1 b k]; cbn [bind_step].
  - destruct H as (Hr & Hs & Hl). rewrite send_response_runs.
    destruct (respond_frame fc r s1) as (Rs & Rl).
    split; [exact Hr|]. split; [exists r; rewrite Rs; congruence | congruence].
  - destruct H as (Hr & Hs & Hl). split; [exact Hr|]. split; congruence.
  - destruct H as (Hr & -> & Hk). split; [exact Hr|]. split; [exact Ps|]. split; [exact Pl|].
    intros o s2. destruct (Hk o s2) as (s3 & r & Ek & Hs & Hl).
    rewrite Ek. cbn [bind_step]. rewrite send_response_runs.
    destruct (respond_frame fc r s3) as (Rs & Rl).
    eexists. split; [reflexivity|]. split; [exists r; rewrite Rs; congruence | congruence].
  - exact H.
Qed.

(** ** A batch of tool calls *)

Lemma resume_settled (fuel : nat) (oracle : nat -> GenOutcome) (r : Step unit) :
  settled r = true -> resume fuel oracle r = r.
Proof. destruct fuel, r; cbn; intros; try reflexivity; discriminate. Qed.

Lemma resume_bind_done (fuel : nat) : forall oracle (r : Step unit),
  settled (resume fuel oracle (bind_step r (fun _ s => Finished s tt)))
    = settled (resume fuel oracle r) /\
  final_state (resume fuel oracle (bind_step r (fun _ s => Finished s tt)))
    = final_state (resume fuel oracle r).
Proof.
  induction fuel as [|fuel IH]; intros oracle r.
  - destruct r; cbn; auto.
  - destruct r; cbn [bind_step resume]; auto.
Qed.

Lemma append_responses_nil (x : option LiveSession) :
  append_responses [] <$> x = x.
Proof.
  destruct x as [[c rs]|]; [|reflexivity].
  cbn. unfold append_responses. cbn. now rewrite app_nil_r.
Qed.

Lemma append_responses_cons (r : ToolResponse) (rs : list ToolResponse)
    (x : option LiveSession) :
  append_responses rs <$> (sendToolResponse r <$> x) = append_responses (r :: rs) <$> x.
Proof.
  destruct x as [[c l]|]; [|reflexivity].
  cbn. unfold append_responses, sendToolResponse. cbn. now rewrite <- app_assoc.
Qed.

Lemma batch_runs (fcs : list FunctionCall) :
  forall (s : State) (oracle : nat -> GenOutcome) (fuel : nat),
    (length fcs <= fuel)%nat ->
    let r := resume fuel oracle (for_of fcs handleToolCall s) in
    settled r = true /\
    dispatch_log (final_state r) = dispatch_log s ++ (dispatch_entry <$> dispatched fcs) /\
    exists rs,
      response_key <$> rs = call_key <$> answered fcs /\
      sessionRef (final_state r) = append_responses rs <$> sessionRef s.
Proof.
  induction fcs as [|fc fcs IH]; intros s oracle fuel Hfuel; cbn zeta.
  - cbn [for_of]. rewrite resume_settled by reflexivity. cbn.
    split; [reflexivity|]. split; [now rewrite app_nil_r|].
    exists []. split; [reflexivity | now rewrite append_responses_nil].
  - change (for_of (fc :: fcs) handleToolCall s)
      with (bind_step (handleToolCall fc s) (fun _ => for_of fcs handleToolCall)).
    pose proof (handleToolCall_cases fc s) as H.
    cbn [length] in Hfuel. cbn [dispatched answered].
    destruct (handleToolCall fc s) as [s1 []|s1 e|s1 p k|s1 b k]; cbn [bind_step].
    + destruct H as (Hr & (res & Hs) & Hl). rewrite Hr.
      destruct (IH s1 oracle fuel ltac:(lia)) as (I1 & I2 & rs & I3 & I4).
      split; [exact I1|]. split.
      { rewrite I2, Hl, <- app_assoc. reflexivity. }
      exists (mkResponse (fc_id fc) (fc_name fc) res :: rs). split.
      { cbn. now rewrite I3. }
      rewrite I4, Hs. apply append_responses_cons.
    + destruct H as (Hr & Hs & Hl). rewrite Hr.
      rewrite resume_settled by reflexivity. cbn [final_state settled].
      split; [reflexivity|]. split; [exact Hl|].
      exists []. split; [reflexivity|]. now rewrite append_responses_nil.
    + destruct H as (Hr & Hs & Hl & Hk). rewrite Hr.
      destruct fuel as [|fuel]; [lia|]. cbn [resume].
      destruct (Hk (oracle O) s1) as (s3 & Ek & (res & Hs3) & Hl3).
      rewrite Ek. cbn [bind_step].
      destruct (IH s3 (fun i => oracle (S i)) fuel ltac:(lia)) as (I1 & I2 & rs & I3 & I4).
      split; [exact I1|]. split.
      { rewrite I2, Hl3, Hl, <- app_assoc. reflexivity. }
      exists (mkResponse (fc_id fc) (fc_name fc) res :: rs). split.
      { cbn. now rewrite I3. }
      rewrite I4, Hs3, Hs. apply append_responses_cons.
    + destruct H.
Qed.

Lemma onmessage_tool_message (fcs : list FunctionCall) (s : State) :
  onmessage (tool_message fcs) s
  = bind_step (for_of fcs handleToolCall s) (fun _ s' => Finished s' tt).
Proof. reflexivity. Qed.

Lemma answered_prefix (fcs : list FunctionCall) :
  answered fcs `prefix_of` dispatched fcs /\ dispatched fcs `prefix_of` fcs.
Proof.
  induction fcs as [|fc fcs [IH1 IH2]]; cbn; [split; reflexivity|].
  destruct (handler_raises fc).
  - split; [apply prefix_nil | apply prefix_cons, prefix_nil].
  - split; now apply prefix_cons.
Qed.

Lemma answered_all (fcs : list FunctionCall) :
  if forallb (fun fc => negb (handler_raises fc)) fcs
  then dispatched fcs = fcs /\ answered fcs = fcs
  else answered fcs <> fcs.
Proof.
  induction fcs as [|fc fcs IH]; cbn; [auto|].
  destruct (handler_raises fc); cbn; [discriminate|].
  destruct (forallb _ fcs).
  - destruct IH as [-> ->]. auto.
  - intros E. apply IH. congruence.
Qed.

(** X26. What the loop over a batch guarantees.  With the awaits on the
    image model answered in place by any outcomes, the calls dispatched are
    a prefix of the batch in the order received, and the responses sent are
    those of a prefix of the dispatched calls, in that same order, one per
    call.  Dispatch stops at the first call whose handler throws, which is
    not answered; when no handler throws, every call of the batch is
    dispatched and answered. *)
Theorem tool_batch_in_order
    (fcs : list FunctionCall) (s : State) (oracle : nat -> GenOutcome) :
  let r := resume (length fcs) oracle (onmessage (tool_message fcs) s) in
  settled r = true /\
  dispatch_log (final_state r) = dispatch_log s ++ (dispatch_entry <$> dispatched fcs) /\
  (exists rs,
     response_key <$> rs = call_key <$> answered fcs /\
     sessionRef (final_state r) = append_responses rs <$> sessionRef s) /\
  answered fcs `prefix_of` dispatched fcs /\
  dispatched fcs `prefix_of` fcs /\
  (if forallb (fun fc => negb (handler_raises fc)) fcs
   then dispatched fcs = fcs /\ answered fcs = fcs
   else answered fcs <> fcs).
Proof.
  cbn zeta. rewrite onmessage_tool_message.
  destruct (resume_bind_done (length fcs) oracle (for_of fcs handleToolCall s)) as [-> ->].
  destruct (batch_runs fcs s oracle (length fcs) (le_n _)) as (H1 & H2 & H3).
  destruct (answered_prefix fcs) as [P1 P2].
  pose proof (answered_all fcs). auto 10.
Qed.

Lemma cut_short (pre post : list FunctionCall) (fc : FunctionCall) :
  forallb (fun c => negb (handler_raises c)) pre = true ->
  handler_raises fc = true ->
  dispatched (pre ++ fc :: post) = pre ++ [fc] /\ answered (pre ++ fc :: post) = pre.
Proof.
  intros Hpre Hfc. induction pre as [|c pre IH]; cbn [List.app dispatched answered].
  - now rewrite Hfc.
  - cbn [forallb] in Hpre. apply andb_prop in Hpre as [Hc Hpre].
    apply negb_true_iff in Hc. rewrite Hc.
    destruct (IH Hpre) as [-> ->]. split; reflexivity.
Qed.

(** C5, where the code departs from it.  The loop over a batch has no
    [try]: when the handler of one call throws, the exception leaves
    [onmessage] and the loop with it.  The calls before the throwing one
    are dispatched and answered in the order received; the throwing one is
    dispatched and not answered; the calls after it are neither dispatched
    nor answered, however many there are and whatever the image model
    answers. *)
Theorem throwing_call_cuts_batch_short
    (pre post : list FunctionCall) (fc : FunctionCall) (s : State)
    (oracle : nat -> GenOutcome) :
  forallb (fun c => negb (handler_raises c)) pre = true ->
  handler_raises fc = true ->
  let fcs := pre ++ fc :: post in
  let r := resume (length fcs) oracle (onmessage (tool_message fcs) s) in
  settled r = true /\
  dispatch_log (final_state r) = dispatch_log s ++ (dispatch_entry <$> (pre ++ [fc])) /\
  exists rs,
    response_key <$> rs = call_key <$> pre /\
    sessionRef (final_state r) = append_responses rs <$> sessionRef s.
Proof.
  intros Hpre Hfc. cbv zeta. rewrite onmessage_tool_message.
  destruct (resume_bind_done (length (pre ++ fc :: post)) oracle
              (for_of (pre ++ fc :: post) handleToolCall s)) as [-> ->].
  destruct (batch_runs (pre ++ fc :: post) s oracle (length (pre ++ fc :: post)) (le_n _))
    as (H1 & H2 & H3).
  destruct (cut_short pre post fc Hpre Hfc) as [Ed Ea].
  rewrite Ed in H2. rewrite Ea in H3. auto.
Qed.

Lemma throwing_call_cuts_batch_short_witness :
  let batch := [call_reminder; call_nobody; call_hangup] in
  (let r := resume 3 (fun _ => GenRejected (TypeError "none"))
                   (onmessage (tool_message batch) live) in
   settled r = true /\
   dispatch_log (final_state r) = [dispatch_entry call_reminder; dispatch_entry call_nobody] /\
   exists rs,
     response_key <$> rs = [call_key call_reminder] /\
     sessionRef (final_state r) = append_responses rs <$> sessionRef live) /\
  (let l := dispatch (mkLoop live [] []) (EvMessage (tool_message batch)) in
   responses (app l)
   = [mkResponse "a" "set_reminder" "Memory stored: buy milk. Confirm to user."] /\
   dispatch_log (app l) = [dispatch_entry call_reminder; dispatch_entry call_nobody] /\
   phoneState (app l) = phoneState live /\
   pending l = [] /\
   unhandled l
   = [TypeError "Cannot read properties of undefined (reading 'toLowerCase')"]).
Proof.
  split.
  - exact (throwing_call_cuts_batch_short [call_reminder] [call_hangup] call_nobody live
             (fun _ => GenRejected (TypeError "none")) eq_refl eq_refl).
  - cbn zeta. repeat split; reflexivity.
Defined.

(** ** Calling a contact that is not in the list *)

Lemma find_no_match (wanted : string) (cs : list Contact) :
  Forall (fun c => toLowerCase (name c) <> toLowerCase wanted) cs ->
  List.find (fun c => String.eqb (toLowerCase (name c)) (toLowerCase wanted)) cs = None.
Proof.
  induction 1 as [|c cs Hc _ IH]; [reflexivity|].
  cbn [List.find]. destruct (String.eqb_spec (toLowerCase (name c)) (toLowerCase wanted));
    [contradiction | exact IH].
Qed.

Lemma respond_phone (fc : FunctionCall) (r : string) (s : State) :
  phoneState (respond fc r s) = phoneState s.
Proof. unfold respond. now destruct (sessionRef s). Qed.

(** C10. A [make_call] for a name that matches no known contact, case
    ignored: the handler returns, the phone is in a call with a contact made
    of the requested name and the number [UNKNOWN], and the one response
    sent says that the call was initiated. *)
Theorem make_call_unknown_contact
    (fc : FunctionCall) (o : gmap string JSVal) (wanted : string) (s : State) :
  fc_name fc = "make_call" ->
  fc_args fc = Some o ->
  o !! "contactName" = Some (VString wanted) ->
  Forall (fun c => toLowerCase (name c) <> toLowerCase wanted) MOCK_CONTACTS ->
  exists s',
    handleToolCall fc s = Finished s' tt /\
    phoneState s' = mkPhoneState true (Some (mkContact wanted "UNKNOWN")) 0 /\
    sessionRef s' =
      sendToolResponse
        (mkResponse (fc_id fc) "make_call"
           ("Call Initiated. Info: Calling " +:+ wanted +:+ " at " +:+ "UNKNOWN"
              +:+ ". Confirm this to user."))
        <$> sessionRef s.
Proof.
  intros Hname Hargs Hprop Hnone.
  destruct (prologue_frame fc s) as (Ps & _ & _ & _).
  rewrite handleToolCall_shape, Hname, Hargs.
  change (tool_of_name "make_call") with (Some make_call).
  cbn [run_tool]. proc_unfold.
  rewrite (find_contact_string _ _ _ Hprop), (find_no_match _ _ Hnone).
  proc_unfold. cbn [get_prop]. rewrite Hprop. proc_unfold. cbn [show name number].
  rewrite send_response_runs. eexists. split; [reflexivity|].
  split; [now rewrite respond_phone|].
  destruct (respond_frame fc
    ("Call Initiated. Info: Calling " +:+ wanted +:+ " at " +:+ "UNKNOWN"
       +:+ ". Confirm this to user.")
    (setPhoneState (mkPhoneState true (Some (mkContact wanted "UNKNOWN")) 0)
                   (prologue fc s))) as (Rs & _).
  rewrite Hname in Rs. rewrite Rs. cbn [sessionRef setPhoneState]. now rewrite Ps.
Qed.

Lemma make_call_unknown_contact_witness :
  fc_name call_stranger = "make_call" /\
  fc_args call_stranger = Some {[ "contactName" := VString "Zed" ]} /\
  Forall (fun c => toLowerCase (name c) <> toLowerCase "Zed") MOCK_CONTACTS /\
  exists s',
    handleToolCall call_stranger live = Finished s' tt /\
    phoneState s' = mkPhoneState true (Some (mkContact "Zed" "UNKNOWN")) 0 /\
    sessionRef s' =
      Some (mkSession false
              [mkResponse "c1" "make_call"
                 "Call Initiated. Info: Calling Zed at UNKNOWN. Confirm this to user."]).
Proof.
  assert (H : Forall (fun c => toLowerCase (name c) <> toLowerCase "Zed") MOCK_CONTACTS)
    by (repeat constructor; discriminate).
  split; [reflexivity|]. split; [reflexivity|]. split; [exact H|].
  apply (make_call_unknown_contact call_stranger
           {[ "contactName" := VString "Zed" ]} "Zed" live);
    [reflexivity | reflexivity | reflexivity | exact H].
Defined.

(** ** Names outside the declared tool set *)

Lemma tool_of_name_none (n : string) :
  tool_of_name n = None <-> n ∉ tool_names.
Proof.
  unfold tool_of_name, tool_names. split.
  - intros H Hin.
    repeat (apply elem_of_cons in Hin as [->|Hin]; [discriminate H|]).
    inversion Hin.
  - intros Hnot.
    repeat match goal with
           | |- context [String.eqb n ?x] =>
               destruct (String.eqb_spec n x) as [->|_];
               [exfalso; apply Hnot; repeat first [now left | right]|]
           end.
    reflexivity.
Qed.

Lemma respond_fields (fc : FunctionCall) (r : string) (s : State) :
  phoneState (respond fc r s) = phoneState s /\
  reminders (respond fc r s) = reminders s /\
  weatherState (respond fc r s) = weatherState s /\
  voiceGeneratedImage (respond fc r s) = voiceGeneratedImage s.
Proof. unfold respond. now destruct (sessionRef s). Qed.

Lemma prologue_fields (fc : FunctionCall) (s : State) :
  phoneState (prologue fc s) = phoneState s /\
  reminders (prologue fc s) = reminders s /\
  weatherState (prologue fc s) = weatherState s /\
  voiceGeneratedImage (prologue fc s) = voiceGeneratedImage s.
Proof. unfold prologue. now destruct (audioContextRef s). Qed.

(** C4, as the code has it.  A call whose name is none of the declared
    tools runs no tool action: the handler returns, phone, reminders,
    weather and image are as before, and the one response sent carries the
    call's id and name and the initial value of [result], the string
    [Done]. *)
Theorem unknown_tool_answered_done (fc : FunctionCall) (s : State) :
  fc_name fc ∉ tool_names ->
  exists s',
    handleToolCall fc s = Finished s' tt /\
    sessionRef s' =
      sendToolResponse (mkResponse (fc_id fc) (fc_name fc) "Done") <$> sessionRef s /\
    dispatch_log s' = dispatch_log s ++ [dispatch_entry fc] /\
    phoneState s' = phoneState s /\ reminders s' = reminders s /\
    weatherState s' = weatherState s /\
    voiceGeneratedImage s' = voiceGeneratedImage s.
Proof.
  intros Hname. apply tool_of_name_none in Hname.
  rewrite handleToolCall_shape, Hname. cbn [run_tool]. proc_unfold.
  rewrite send_response_runs.
  destruct (prologue_frame fc s) as (Ps & _ & _ & Pl).
  destruct (prologue_fields fc s) as (P1 & P2 & P3 & P4).
  destruct (respond_frame fc "Done" (prologue fc s)) as (Rs & Rl).
  destruct (respond_fields fc "Done" (prologue fc s)) as (R1 & R2 & R3 & R4).
  eexists. split; [reflexivity|]. unfold dispatch_entry.
  repeat split; congruence.
Qed.

Lemma unknown_tool_answered_done_witness :
  (fc_name call_unknown ∉ tool_names) /\
  exists s',
    handleToolCall call_unknown live = Finished s' tt /\
    sessionRef s' = Some (mkSession false [mkResponse "b" "unknown_tool" "Done"]).
Proof.
  assert (H : fc_name call_unknown ∉ tool_names)
    by (apply tool_of_name_none; reflexivity).
  split; [exact H|].
  destruct (unknown_tool_answered_done call_unknown live H) as (s' & H1 & H2 & _).
  exists s'. split; [exact H1 | exact H2].
Defined.

(** The reply to an unknown tool says nothing about the tool not being
    recognized: it is the same [Done] that a declared tool yields when it
    has nothing to report. *)
Lemma unknown_tool_not_reported :
  (fc_name call_unknown ∉ tool_names) /\
  exists s' s'',
    handleToolCall call_unknown live = Finished s' tt /\
    responses s' = [mkResponse "b" "unknown_tool" "Done"] /\
    says_unrecognized "Done" = false /\
    handleToolCall call_image (set_sessionRef (sessionRef live) initial) = Finished s'' tt /\
    resp_result <$> responses s'' = ["Done"].
Proof.
  split; [apply tool_of_name_none; reflexivity|].
  eexists _, _. repeat split; reflexivity.
Qed.

(** ** A handler that throws *)

Lemma raising_handler_never_answers (fc : FunctionCall) (s : State) :
  handler_raises fc = true ->
  exists s' e,
    handleToolCall fc s = Raised s' e /\ sessionRef s' = sessionRef s.
Proof.
  intros Hr. pose proof (handleToolCall_cases fc s) as H.
  destruct (handleToolCall fc s) as [s1 []|s1 e|s1 p k|s1 b k].
  - destruct H; congruence.
  - destruct H as (_ & Hs & _). eauto.
  - destruct H; congruence.
  - destruct H.
Qed.

(** C3, where the code departs from it.  A [make_call] without a
    [contactName] makes the handler throw at
    [args.contactName.toLowerCase()]: the exception leaves
    [handleToolCall] before the response is sent, no response goes out for
    the call, and the rest of the batch is neither dispatched nor
    answered. *)
Theorem throwing_handler_drops_response :
  handler_raises call_nobody = true /\
  (exists s' e,
     handleToolCall call_nobody live = Raised s' e /\
     e = TypeError "Cannot read properties of undefined (reading 'toLowerCase')" /\
     responses s' = []) /\
  (let l := dispatch (mkLoop live [] []) (EvMessage (tool_message [call_nobody; call_hangup])) in
   responses (app l) = [] /\
   dispatch_log (app l) = [dispatch_entry call_nobody] /\
   pending l = [] /\
   unhandled l
     = [TypeError "Cannot read properties of undefined (reading 'toLowerCase')"]).
Proof.
  split; [reflexivity|]. split.
  - eexists _, _. repeat split; reflexivity.
  - cbn zeta. repeat split; reflexivity.
Qed.

(** ** Inbound audio through the loop *)

Lemma onmessage_audio (payload : string) (bytes : list Z) (s : State)
    (c : AudioContext) (a : unit) :
  negb (String.eqb payload "") = true -> atob payload = inr bytes ->
  audioContextRef s = Some c -> analyserRef s = Some a ->
  exists k,
    onmessage (audio_message payload) s = AwaitDecode (setIsSpeaking true s) bytes k /\
    (forall b s', k (Decoded b) s' = playBuffer b s') /\
    (forall e s', k (DecodeRejected e) s' = Raised s' e).
Proof.
  intros Hne Hatob Hc Ha. unfold onmessage.
  change (is_interrupted (audio_message payload)) with false.
  change (toolCall (audio_message payload)) with (@None ToolCallMessage).
  change (grounding_chunks (audio_message payload)) with (@None (list GroundingChunk)).
  change (audio_data (audio_message payload)) with (Some payload).
  cbv iota. unfold await_decode. proc_unfold. rewrite Hc, Ha, Hne, Hatob.
  cbv iota. cbn [bind_step].
  eexists. split; [reflexivity|]. split; intros; reflexivity.
Qed.

Lemma valid_payload_inv (payload : string) :
  valid_payload payload = true ->
  negb (String.eqb payload "") = true /\ exists bytes, atob payload = inr bytes.
Proof.
  unfold valid_payload. intros H. apply andb_prop in H as [H1 H2].
  split; [exact H1|]. destruct (atob payload); [discriminate | eauto].
Qed.

(** An audio message and the completion of its decoding, with nothing in
    between: the buffer is enqueued. *)
Lemma receive_audio (l : Loop) (payload : string) (b : AudioBuffer)
    (c : AudioContext) (a : unit) :
  valid_payload payload = true ->
  audioContextRef (app l) = Some c -> analyserRef (app l) = Some a ->
  run_events l [EvMessage (audio_message payload);
                EvDecodeSettled (length (pending l)) (Decoded b)]
  = mkLoop (enqueued_state b c (setIsSpeaking true (app l))) (pending l) (unhandled l).
Proof.
  intros Hv Hc Ha. destruct (valid_payload_inv _ Hv) as (Hne & bytes & Hatob).
  destruct (onmessage_audio payload bytes (app l) c a Hne Hatob Hc Ha) as (k & Ek & Kb & _).
  unfold run_events. cbn [fold_left dispatch]. rewrite Ek. cbn [park pending app unhandled].
  rewrite lookup_fresh, Kb.
  replace (delete (length (pending l)) (pending l ++ [PendingDecode bytes k]))
    with (pending l) by (now rewrite delete_middle, app_nil_r).
  rewrite (playBuffer_runs b c a) by assumption. reflexivity.
Qed.

Lemma prologue_audio (fc : FunctionCall) (s : State) :
  audioContextRef (prologue fc s) = audioContextRef s /\
  analyserRef (prologue fc s) = analyserRef s /\
  nodes (prologue fc s) = nodes s /\
  audioSourcesRef (prologue fc s) = audioSourcesRef s /\
  nextStartTimeRef (prologue fc s) = nextStartTimeRef s.
Proof. unfold prologue. destruct (audioContextRef s) eqn:E; cbn; now rewrite ?E. Qed.

Lemma generate_image_parks (fc : FunctionCall) (o : gmap string JSVal) (s : State)
    (u : unit) :
  clientRef s = Some u -> fc_name fc = "generate_image" -> fc_args fc = Some o ->
  exists k,
    handleToolCall fc s = AwaitGenerate (prologue fc s) (o !! "prompt") k /\
    forall out s2, exists s3, k out s2 = Finished s3 tt /\ answers fc s2 s3.
Proof.
  intros Hcl Hname Hargs.
  destruct (prologue_frame fc s) as (_ & Pc & _).
  pose proof (handleToolCall_cases fc s) as H.
  rewrite handleToolCall_shape in *. rewrite Hname, Hargs in *.
  change (tool_of_name "generate_image") with (Some generate_image) in *.
  cbn [run_tool] in *. unfold await_generate in *.
  unfold mbind at 1, proc_bind at 1, bind at 1, gets at 1 in H.
  unfold mbind at 1, proc_bind at 1, bind at 1, gets at 1.
  cbn [bind_step] in *. rewrite Pc, Hcl in *.
  unfold try_catch at 1 in H. unfold try_catch at 1.
  unfold mbind at 1, proc_bind at 1, bind at 1, eval at 1, get_prop at 1, ret at 1 in H.
  unfold mbind at 1, proc_bind at 1, bind at 1, eval at 1, get_prop at 1, ret at 1.
  cbn [bind_step] in *.
  unfold mbind at 1, proc_bind at 1, bind at 1 in H.
  unfold mbind at 1, proc_bind at 1, bind at 1.
  cbn [bind_step catch_step] in *.
  destruct H as (_ & _ & _ & Hk).
  eexists. split; [reflexivity|].
  intros out s2. destruct (Hk out s2) as (s3 & E3 & A3 & _). eauto.
Qed.

(** C9. A tool call that is waiting for the image model does not hold up
    audio that arrives in a later message: with the call parked, the audio
    message is decoded and its buffer enqueued at the later of the clock and
    the marker, the call is still parked and unanswered, and when the image
    model settles, in whatever way, its one response is sent. *)
Theorem slow_tool_does_not_block_audio
    (s : State) (c : AudioContext) (a u : unit) (fc : FunctionCall)
    (o : gmap string JSVal) (payload : string) (b : AudioBuffer) :
  clientRef s = Some u ->
  audioContextRef s = Some c -> analyserRef s = Some a ->
  fc_name fc = "generate_image" -> fc_args fc = Some o ->
  valid_payload payload = true ->
  let l1 := dispatch (mkLoop s [] []) (EvMessage (tool_message [fc])) in
  let l2 := run_events l1 [EvMessage (audio_message payload);
                           EvDecodeSettled 1 (Decoded b)] in
  (exists k, pending l1 = [PendingGenerate (o !! "prompt") k]) /\
  sessionRef (app l1) = sessionRef s /\
  pending l2 = pending l1 /\
  unhandled l2 = [] /\
  sessionRef (app l2) = sessionRef s /\
  isSpeaking (app l2) = true /\
  audioSourcesRef (app l2) = audioSourcesRef s ++ [length (nodes s)] /\
  nodes (app l2)
    = nodes s ++ [slot b (Qmax (currentTime c) (nextStartTimeRef s))] /\
  nextStartTimeRef (app l2)
    = (Qmax (currentTime c) (nextStartTimeRef s) + duration b)%Q /\
  (forall outcome,
      let l3 := dispatch l2 (EvGenerateSettled 0 outcome) in
      pending l3 = [] /\ unhandled l3 = [] /\
      exists r,
        sessionRef (app l3)
          = sendToolResponse (mkResponse (fc_id fc) (fc_name fc) r) <$> sessionRef s).
Proof.
  intros Hcl Hc Ha Hname Hargs Hv. cbn zeta.
  destruct (generate_image_parks fc o s u Hcl Hname Hargs) as (k & Ek & Hk).
  destruct (prologue_frame fc s) as (Ps & _).
  destruct (prologue_audio fc s) as (Pc & Pa & Pn & Pr & Pm).
  assert (E1 : dispatch (mkLoop s [] []) (EvMessage (tool_message [fc]))
               = mkLoop (prologue fc s)
                   [PendingGenerate (o !! "prompt")
                      (fun out s' => bind_step (bind_step (k out s') (fun _ => ret tt))
                                               (fun _ s'' => Finished s'' tt))] []).
  { cbn [dispatch app pending unhandled]. rewrite onmessage_tool_message.
    cbn [for_of]. unfold mbind, proc_bind, bind. rewrite Ek. reflexivity. }
  rewrite E1.
  set (l1 := mkLoop (prologue fc s) _ []).
  assert (E2 : run_events l1 [EvMessage (audio_message payload);
                              EvDecodeSettled 1 (Decoded b)]
               = mkLoop (enqueued_state b c (setIsSpeaking true (prologue fc s)))
                        (pending l1) []).
  { apply (receive_audio l1 payload b c a Hv); cbn [app l1]; congruence. }
  rewrite E2.
  split; [eexists; reflexivity|]. split; [exact Ps|]. split; [reflexivity|].
  split; [reflexivity|]. split; [exact Ps|]. split; [reflexivity|].
  split; [cbn; now rewrite Pr, Pn|]. split; [cbn; now rewrite Pn, Pm|].
  split; [cbn; now rewrite Pm|].
  intros outcome. cbn [dispatch pending app unhandled l1 lookup list_lookup].
  destruct (Hk outcome (enqueued_state b c (setIsSpeaking true (prologue fc s))))
    as (s3 & E3 & r & A3).
  cbn [list_lookup]. rewrite E3. cbn [bind_step ret park pending unhandled app delete].
  split; [reflexivity|]. split; [reflexivity|].
  exists r. rewrite A3. cbn. now rewrite Ps.
Qed.

Lemma slow_tool_does_not_block_audio_witness :
  clientRef live = Some tt /\ fc_name call_image = "generate_image" /\
  valid_payload "AAAA" = true /\
  let l1 := dispatch (mkLoop live [] []) (EvMessage (tool_message [call_image])) in
  let l2 := run_events l1 [EvMessage (audio_message "AAAA");
                           EvDecodeSettled 1 (Decoded frame_1s)] in
  length (pending l2) = 1%nat /\
  responses (app l2) = [] /\
  audioSourcesRef (app l2) = [0%nat] /\
  nextStartTimeRef (app l2) = (Qmax 0 0 + duration frame_1s)%Q.
Proof.
  destruct (slow_tool_does_not_block_audio live (mkContext 0 false) tt tt call_image
              {[ "prompt" := VString "a panda" ]} "AAAA" frame_1s
              eq_refl eq_refl eq_refl eq_refl eq_refl eq_refl)
    as ((k & H1) & H2 & H3 & H4 & H5 & H6 & H7 & H8 & H9 & _).
  do 3 (split; [reflexivity|]).
  cbn zeta. split; [now rewrite H3, H1|].
  split; [unfold responses; now rewrite H5|].
  split; [exact H7 | exact H9].
Defined.

(** ** Natural completion of a slot *)

Lemma onended_runs (source : nat) (s : State) :
  exists s',
    onended source s = Finished s' tt /\
    audioSourcesRef s' = filter (fun x => x ≠ source) (audioSourcesRef s) /\
    isSpeaking s' =
      match audioContextRef s with
      | Some c =>
          if Qle_bool (nextStartTimeRef s - (1 # 10)) (currentTime c)
          then false else isSpeaking s
      | None => isSpeaking s
      end /\
    nodes s' = nodes s /\ nextStartTimeRef s' = nextStartTimeRef s /\
    audioContextRef s' = audioContextRef s.
Proof.
  unfold onended. proc_unfold. cbn [audioContextRef nextStartTimeRef set_audioSourcesRef].
  destruct (audioContextRef s) as [c|] eqn:E.
  - destruct (Qle_bool _ _); eexists; (split; [reflexivity|]); cbn; rewrite ?E; auto 10.
  - eexists; (split; [reflexivity|]); cbn; rewrite ?E; auto 10.
Qed.

Lemma onended_analyser (source : nat) (s s' : State) :
  onended source s = Finished s' tt -> analyserRef s' = analyserRef s.
Proof.
  unfold onended. proc_unfold. cbn [audioContextRef nextStartTimeRef set_audioSourcesRef].
  destruct (audioContextRef s) as [c|]; [destruct (Qle_bool _ _)|];
    intros E; injection E as <-; reflexivity.
Qed.

(** The clock reaches [t] and the node [source] reports its end. *)
Lemma slot_completes (l : Loop) (c : AudioContext) (n : SourceNode) (source : nat) (t : Q) :
  audioContextRef (app l) = Some c -> (currentTime c <= t)%Q ->
  nodes (app l) !! source = Some n -> node_onended n = true ->
  exists s',
    run_events l [EvClock t; EvEnded source] = mkLoop s' (pending l) (unhandled l) /\
    audioSourcesRef s' = filter (fun x => x ≠ source) (audioSourcesRef (app l)) /\
    isSpeaking s' =
      (if Qle_bool (nextStartTimeRef (app l) - (1 # 10)) t
       then false else isSpeaking (app l)) /\
    nodes s' = nodes (app l) /\ nextStartTimeRef s' = nextStartTimeRef (app l) /\
    audioContextRef s' = Some (mkContext t (ctx_closed c)) /\
    analyserRef s' = analyserRef (app l).
Proof.
  intros Hc Ht Hn Hon.
  assert (Ea : advance_clock t (app l)
               = set_audioContextRef (Some (mkContext t (ctx_closed c))) (app l)).
  { unfold advance_clock. rewrite Hc. apply Qle_bool_iff in Ht. now rewrite Ht. }
  unfold run_events. cbn [fold_left dispatch app pending unhandled]. rewrite Ea.
  cbn [nodes set_audioContextRef]. rewrite Hn, Hon.
  destruct (onended_runs source
              (set_audioContextRef (Some (mkContext t (ctx_closed c))) (app l)))
    as (s' & E & H1 & H2 & H3 & H4 & H5).
  rewrite E. cbn [park]. exists s'. split; [reflexivity|].
  cbn in H1, H2, H3, H4, H5. rewrite (onended_analyser source _ s' E). auto 10.
Qed.

Lemma run_events_app (l : Loop) (evs1 evs2 : list Event) :
  run_events l (evs1 ++ evs2) = run_events (run_events l evs1) evs2.
Proof. apply fold_left_app. Qed.

Lemma lookup_three {A} (l : list A) (x0 x1 x2 : A) :
  (l ++ [x0; x1; x2]) !! length l = Some x0 /\
  (l ++ [x0; x1; x2]) !! S (length l) = Some x1 /\
  (l ++ [x0; x1; x2]) !! S (S (length l)) = Some x2.
Proof.
  repeat split; rewrite lookup_app_r by lia.
  - now rewrite Nat.sub_diag.
  - now replace (S (length l) - length l)%nat with 1%nat by lia.
  - now replace (S (S (length l)) - length l)%nat with 2%nat by lia.
Qed.

Lemma Qle_bool_false (x y : Q) : (y < x)%Q -> Qle_bool x y = false.
Proof.
  intros H. destruct (Qle_bool x y) eqn:E; [|reflexivity].
  apply Qle_bool_iff in E. lra.
Qed.

Lemma Qle_bool_true (x y : Q) : (x <= y)%Q -> Qle_bool x y = true.
Proof. apply Qle_bool_iff. Qed.

(** The three-frame scenario: frames of 1 s, 0.5 s and 2 s arrive while the
    clock reads [t0] and nothing is scheduled; then each slot ends when the
    clock reaches its end. *)
Lemma three_frames (s : State) (c : AudioContext) (a : unit) (p1 p2 p3 : string) :
  audioContextRef s = Some c -> analyserRef s = Some a ->
  audioSourcesRef s = [] -> (nextStartTimeRef s <= currentTime c)%Q ->
  valid_payload p1 = true -> valid_payload p2 = true -> valid_payload p3 = true ->
  let t0 := currentTime c in
  let n := length (nodes s) in
  let la := run_events (mkLoop s [] [])
              [EvMessage (audio_message p1); EvDecodeSettled 0 (Decoded frame_1s);
               EvMessage (audio_message p2); EvDecodeSettled 0 (Decoded frame_half);
               EvMessage (audio_message p3); EvDecodeSettled 0 (Decoded frame_2s)] in
  let lb := run_events la [EvClock (t0 + 1); EvEnded n] in
  let lc := run_events lb [EvClock (t0 + (3 # 2)); EvEnded (S n)] in
  let ld := run_events lc [EvClock (t0 + (7 # 2)); EvEnded (S (S n))] in
  (exists t1 t2 t3,
      nodes (app la)
        = nodes s ++ [slot frame_1s t1; slot frame_half t2; slot frame_2s t3] /\
      (t1 == t0)%Q /\ (t2 == t0 + 1)%Q /\ (t3 == t0 + (3 # 2))%Q) /\
  (audioSourcesRef (app la) = [n; S n; S (S n)] /\ isSpeaking (app la) = true) /\
  (audioSourcesRef (app lb) = [S n; S (S n)] /\ isSpeaking (app lb) = true) /\
  (audioSourcesRef (app lc) = [S (S n)] /\ isSpeaking (app lc) = true) /\
  (audioSourcesRef (app ld) = [] /\ isSpeaking (app ld) = false /\
   (currentTime <$> audioContextRef (app ld)) = Some (t0 + (7 # 2))%Q).
Proof.
  intros Hc Ha Hsrc Hnext V1 V2 V3. cbn zeta.
  set (t0 := currentTime c). set (n := length (nodes s)).
  (* the three enqueues *)
  set (s1 := enqueued_state frame_1s c (setIsSpeaking true s)).
  set (s2 := enqueued_state frame_half c (setIsSpeaking true s1)).
  set (s3 := enqueued_state frame_2s c (setIsSpeaking true s2)).
  assert (Ea : run_events (mkLoop s [] [])
                 [EvMessage (audio_message p1); EvDecodeSettled 0 (Decoded frame_1s);
                  EvMessage (audio_message p2); EvDecodeSettled 0 (Decoded frame_half);
                  EvMessage (audio_message p3); EvDecodeSettled 0 (Decoded frame_2s)]
               = mkLoop s3 [] []).
  { change [EvMessage (audio_message p1); EvDecodeSettled 0 (Decoded frame_1s);
            EvMessage (audio_message p2); EvDecodeSettled 0 (Decoded frame_half);
            EvMessage (audio_message p3); EvDecodeSettled 0 (Decoded frame_2s)]
      with ([EvMessage (audio_message p1); EvDecodeSettled 0 (Decoded frame_1s)]
            ++ [EvMessage (audio_message p2); EvDecodeSettled 0 (Decoded frame_half)]
            ++ [EvMessage (audio_message p3); EvDecodeSettled 0 (Decoded frame_2s)]).
    rewrite !run_events_app.
    pose proof (receive_audio (mkLoop s [] []) p1 frame_1s c a V1 Hc Ha) as R1.
    pose proof (receive_audio (mkLoop s1 [] []) p2 frame_half c a V2 Hc Ha) as R2.
    pose proof (receive_audio (mkLoop s2 [] []) p3 frame_2s c a V3 Hc Ha) as R3.
    cbn [app pending unhandled length] in R1, R2, R3.
    fold s1 in R1. fold s2 in R2. fold s3 in R3.
    now rewrite R1, R2, R3. }
  rewrite Ea.
  set (t1 := Qmax t0 (nextStartTimeRef s)).
  set (t2 := Qmax t0 (t1 + duration frame_1s)).
  set (t3 := Qmax t0 (t2 + duration frame_half)).
  assert (D1 : (duration frame_1s == 1)%Q) by reflexivity.
  assert (D2 : (duration frame_half == 1 # 2)%Q) by reflexivity.
  assert (D3 : (duration frame_2s == 2)%Q) by reflexivity.
  assert (T1 : (t1 == t0)%Q) by (apply Q.max_l; exact Hnext).
  assert (T2 : (t2 == t0 + 1)%Q).
  { unfold t2. rewrite Q.max_r by lra. lra. }
  assert (T3 : (t3 == t0 + (3 # 2))%Q).
  { unfold t3. rewrite Q.max_r by lra. lra. }
  assert (N3 : nodes s3 = nodes s ++ [slot frame_1s t1; slot frame_half t2; slot frame_2s t3]).
  { cbn. rewrite <- !app_assoc. reflexivity. }
  assert (S3 : audioSourcesRef s3 = [n; S n; S (S n)]).
  { cbn. rewrite Hsrc, !length_app. cbn. fold n.
    now replace (n + 1)%nat with (S n) by lia; replace (S n + 1)%nat with (S (S n)) by lia. }
  assert (M3 : (nextStartTimeRef s3 == t0 + (7 # 2))%Q).
  { change (nextStartTimeRef s3) with (t3 + duration frame_2s)%Q. lra. }
  destruct (lookup_three (nodes s) (slot frame_1s t1) (slot frame_half t2)
              (slot frame_2s t3)) as (L0 & L1 & L2).
  rewrite <- N3 in L0, L1, L2. fold n in L0, L1, L2.
  split; [exists t1, t2, t3; auto|]. split; [split; [exact S3 | reflexivity]|].
  (* first slot ends *)
  destruct (slot_completes (mkLoop s3 [] []) c _ n (t0 + 1) Hc ltac:(fold t0; lra) L0 eq_refl)
    as (s4 & E4 & A4 & P4 & N4 & M4 & C4 & Y4).
  rewrite E4. cbn [app pending unhandled] in *.
  rewrite S3 in A4. rewrite Qle_bool_false in P4 by lra.
  assert (A4' : audioSourcesRef s4 = [S n; S (S n)]).
  { rewrite A4, !filter_cons. repeat case_decide; try lia. reflexivity. }
  split; [split; [exact A4' | exact P4]|].
  (* second slot ends *)
  rewrite <- N4 in L1, L2.
  destruct (slot_completes (mkLoop s4 [] []) _ _ (S n) (t0 + (3 # 2)) C4
              ltac:(cbn; lra) L1 eq_refl)
    as (s5 & E5 & A5 & P5 & N5 & M5 & C5 & Y5).
  rewrite E5. cbn [app pending unhandled] in *.
  rewrite M4 in P5. rewrite Qle_bool_false in P5 by lra.
  assert (A5' : audioSourcesRef s5 = [S (S n)]).
  { rewrite A5, A4', !filter_cons. repeat case_decide; try lia. reflexivity. }
  split; [split; [exact A5' | rewrite P5, P4; reflexivity]|].
  (* third slot ends *)
  rewrite <- N5 in L2.
  destruct (slot_completes (mkLoop s5 [] []) _ _ (S (S n)) (t0 + (7 # 2)) C5
              ltac:(cbn; lra) L2 eq_refl)
    as (s6 & E6 & A6 & P6 & N6 & M6 & C6 & Y6).
  rewrite E6. cbn [app pending unhandled] in *.
  rewrite M5, M4 in P6. rewrite Qle_bool_true in P6 by lra.
  split; [|split; [exact P6 | now rewrite C6]].
  rewrite A6, A5', !filter_cons. repeat case_decide; try lia. reflexivity.
Qed.

(** C8, as the code has it.  When a slot ends its node is taken off the
    list of active sources, and [isSpeaking] is cleared exactly when the
    output context is held and the clock has come within a tenth of a second
    of the marker; whether other slots are still active plays no part.  For
    frames of 1 s, 0.5 s and 2 s received at clock [t0] with nothing
    scheduled, the slots start at [t0], [t0 + 1] and [t0 + 1.5], and
    [isSpeaking] stays set when the first two end and is cleared when the
    third ends, 3.5 s after [t0]. *)
Theorem completion_updates_speaking
    (s : State) (c : AudioContext) (a : unit) (p1 p2 p3 : string) :
  audioContextRef s = Some c -> analyserRef s = Some a ->
  audioSourcesRef s = [] -> (nextStartTimeRef s <= currentTime c)%Q ->
  valid_payload p1 = true -> valid_payload p2 = true -> valid_payload p3 = true ->
  (forall st source, exists st',
      onended source st = Finished st' tt /\
      audioSourcesRef st' = filter (fun x => x ≠ source) (audioSourcesRef st) /\
      isSpeaking st' =
        match audioContextRef st with
        | Some c' =>
            if Qle_bool (nextStartTimeRef st - (1 # 10)) (currentTime c')
            then false else isSpeaking st
        | None => isSpeaking st
        end) /\
  let t0 := currentTime c in
  let n := length (nodes s) in
  let la := run_events (mkLoop s [] [])
              [EvMessage (audio_message p1); EvDecodeSettled 0 (Decoded frame_1s);
               EvMessage (audio_message p2); EvDecodeSettled 0 (Decoded frame_half);
               EvMessage (audio_message p3); EvDecodeSettled 0 (Decoded frame_2s)] in
  let lb := run_events la [EvClock (t0 + 1); EvEnded n] in
  let lc := run_events lb [EvClock (t0 + (3 # 2)); EvEnded (S n)] in
  let ld := run_events lc [EvClock (t0 + (7 # 2)); EvEnded (S (S n))] in
  (exists t1 t2 t3,
      nodes (app la)
        = nodes s ++ [slot frame_1s t1; slot frame_half t2; slot frame_2s t3] /\
      (t1 == t0)%Q /\ (t2 == t0 + 1)%Q /\ (t3 == t0 + (3 # 2))%Q) /\
  (audioSourcesRef (app la) = [n; S n; S (S n)] /\ isSpeaking (app la) = true) /\
  (audioSourcesRef (app lb) = [S n; S (S n)] /\ isSpeaking (app lb) = true) /\
  (audioSourcesRef (app lc) = [S (S n)] /\ isSpeaking (app lc) = true) /\
  (audioSourcesRef (app ld) = [] /\ isSpeaking (app ld) = false /\
   (currentTime <$> audioContextRef (app ld)) = Some (t0 + (7 # 2))%Q).
Proof.
  intros Hc Ha Hsrc Hnext V1 V2 V3. split.
  - intros st source.
    destruct (onended_runs source st) as (st' & E & H1 & H2 & _).
    exists st'. auto.
  - exact (three_frames s c a p1 p2 p3 Hc Ha Hsrc Hnext V1 V2 V3).
Qed.

Lemma completion_updates_speaking_witness :
  audioSourcesRef live = [] /\
  (nextStartTimeRef live <= currentTime (mkContext 0 false))%Q /\
  valid_payload "AAAA" = true /\
  let la := run_events (mkLoop live [] [])
              [EvMessage (audio_message "AAAA"); EvDecodeSettled 0 (Decoded frame_1s);
               EvMessage (audio_message "AAAA"); EvDecodeSettled 0 (Decoded frame_half);
               EvMessage (audio_message "AAAA"); EvDecodeSettled 0 (Decoded frame_2s)] in
  let lb := run_events la [EvClock (0 + 1); EvEnded 0] in
  let lc := run_events lb [EvClock (0 + (3 # 2)); EvEnded 1] in
  let ld := run_events lc [EvClock (0 + (7 # 2)); EvEnded 2] in
  isSpeaking (app la) = true /\ isSpeaking (app lb) = true /\
  isSpeaking (app lc) = true /\ isSpeaking (app ld) = false /\
  audioSourcesRef (app ld) = [].
Proof.
  destruct (completion_updates_speaking live (mkContext 0 false) tt "AAAA" "AAAA" "AAAA"
              eq_refl eq_refl eq_refl ltac:(apply Qle_refl) eq_refl eq_refl eq_refl)
    as (_ & _ & (_ & Ha) & (_ & Hb) & (_ & Hc) & (Hs & Hd & _)).
  split; [reflexivity|]. split; [apply Qle_refl|]. split; [reflexivity|].
  cbn zeta. auto.
Defined.

(** [isSpeaking] is cleared although the slot that ended was not the last
    active one and the clock has not reached the marker: a one-second frame
    followed by one of 50 ms, when the first ends. *)
Lemma speaking_cleared_while_slot_active :
  let la := run_events (mkLoop live [] [])
              [EvMessage (audio_message "AAAA"); EvDecodeSettled 0 (Decoded frame_1s);
               EvMessage (audio_message "AAAA"); EvDecodeSettled 0 (Decoded frame_50ms)] in
  let lb := run_events la [EvClock 1; EvEnded 0] in
  isSpeaking (app la) = true /\ audioSourcesRef (app la) = [0; 1]%nat /\
  isSpeaking (app lb) = false /\ audioSourcesRef (app lb) = [1%nat] /\
  nodes (app lb) !! 1%nat = Some (slot frame_50ms (Qmax 0 (Qmax 0 0 + duration frame_1s))) /\
  (currentTime <$> audioContextRef (app lb)) = Some 1%Q /\
  Qle_bool (nextStartTimeRef (app lb)) 1 = false.
Proof. cbn zeta. repeat split; reflexivity. Qed.

(** ** Registered sources are started nodes, always *)

Lemma active_started_same (s s' : State) :
  same_playback s s' -> active_started s -> active_started s'.
Proof. intros [Ha Hn] H source. rewrite Ha, Hn. apply H. Qed.

Lemma preserves_bind (P : State -> Prop) (r : Step unit) (f : unit -> Proc unit) :
  preserves P r -> (forall s, P s -> preserves P (f tt s)) ->
  preserves P (bind_step r f).
Proof.
  intros Hr Hf. induction Hr as [s Hs|s e Hs|s p k Hs Hk IH|s b k Hs Hk IH];
    cbn [bind_step]; [now apply Hf | now constructor | |];
    constructor; auto.
Qed.

Lemma run_tool_playback (t : option Tool) (args : option (gmap string JSVal)) (s : State) :
  match run_tool t args s with
  | Finished s' _ | Raised s' _ => same_playback s s'
  | AwaitGenerate s' _ k =>
      same_playback s s' /\
      forall o s2, exists s3 r, k o s2 = Finished s3 r /\ same_playback s2 s3
  | AwaitDecode _ _ _ => False
  end.
Proof.
  destruct t as [[]|]; cbn [run_tool].
  - destruct args as [o|]; [|proc_unfold; cbn; repeat split].
    destruct (o !! "contactName") as [[w|n]|] eqn:E.
    + proc_unfold. rewrite (find_contact_string _ _ _ E). cbn [bind_step].
      destruct (List.find _ MOCK_CONTACTS); proc_unfold;
        [|cbn [get_prop]; rewrite E; cbn [bind_step]]; repeat split.
    + proc_unfold. cbn [find_contact MOCK_CONTACTS get_prop]. rewrite E.
      cbn. repeat split.
    + proc_unfold. cbn [find_contact MOCK_CONTACTS get_prop]. rewrite E.
      cbn. repeat split.
  - destruct args; proc_unfold; cbn; repeat split.
  - destruct args; unfold addLog; proc_unfold; cbn [get_prop bind_step]; repeat split.
  - destruct args; proc_unfold; cbn [get_prop bind_step]; repeat split.
  - proc_unfold; cbn. repeat split.
  - destruct args; proc_unfold; cbn [get_prop bind_step]; repeat split.
  - destruct args; proc_unfold; cbn [get_prop bind_step]; repeat split.
  - proc_unfold. destruct (clientRef s); [|destruct args; repeat split].
    destruct args as [o|]; unfold addLog, await_generate; proc_unfold;
      cbn [get_prop bind_step catch_step]; [|repeat split].
    split; [split; reflexivity|].
    intros [e|r] s2; cbn [bind_step catch_step].
    + eexists _, _. split; [reflexivity|]. repeat split.
    + destruct (nonempty (image_data r)); cbn [bind_step catch_step];
        eexists _, _; (split; [reflexivity|]); repeat split.
  - destruct args; proc_unfold; cbn; repeat split.
Qed.

Lemma respond_playback (fc : FunctionCall) (r : string) (s : State) :
  same_playback s (respond fc r s).
Proof. unfold respond. destruct (sessionRef s); split; reflexivity. Qed.

Lemma prologue_playback (fc : FunctionCall) (s : State) :
  same_playback s (prologue fc s).
Proof. unfold prologue. destruct (audioContextRef s); split; reflexivity. Qed.

Lemma same_playback_trans (s1 s2 s3 : State) :
  same_playback s1 s2 -> same_playback s2 s3 -> same_playback s1 s3.
Proof. intros [A1 N1] [A2 N2]. split; congruence. Qed.

Lemma handleToolCall_preserves (fc : FunctionCall) (s : State) :
  active_started s -> preserves active_started (handleToolCall fc s).
Proof.
  intros Hs. rewrite handleToolCall_shape.
  pose proof (run_tool_playback (tool_of_name (fc_name fc)) (fc_args fc) (prologue fc s)) as H.
  pose proof (active_started_same _ _ (prologue_playback fc s) Hs) as Hp.
  destruct (run_tool _ _ _) as [s1 r|s1 e|s1 p k|s1 b k]; cbn [bind_step].
  - rewrite send_response_runs. constructor.
    eapply active_started_same; [apply respond_playback|].
    eapply active_started_same; eauto.
  - constructor. eapply active_started_same; eauto.
  - destruct H as [H1 Hk]. constructor; [eapply active_started_same; eauto|].
    intros o s2 H2. destruct (Hk o s2) as (s3 & r & -> & H3). cbn [bind_step].
    rewrite send_response_runs. constructor.
    eapply active_started_same; [apply respond_playback|].
    eapply active_started_same; eauto.
  - destruct H.
Qed.

Lemma for_of_preserves (fcs : list FunctionCall) : forall s,
  active_started s -> preserves active_started (for_of fcs handleToolCall s).
Proof.
  induction fcs as [|fc fcs IH]; intros s Hs.
  - now constructor.
  - change (for_of (fc :: fcs) handleToolCall s)
      with (bind_step (handleToolCall fc s) (fun _ => for_of fcs handleToolCall)).
    apply preserves_bind; [now apply handleToolCall_preserves | exact IH].
Qed.

Lemma interrupted_active_started (s : State) : active_started (interrupted_state s).
Proof.
  intros source Hin.
  destruct (interrupted_state_fields s) as (E & _). rewrite E in Hin. inversion Hin.
Qed.

Lemma playBuffer_preserves (b : AudioBuffer) (s : State) :
  active_started s -> preserves active_started (playBuffer b s).
Proof.
  intros Hs.
  assert (Hold : forall x source, source ∈ audioSourcesRef s ->
            exists n, (nodes s ++ [x]) !! source = Some n /\ is_Some (node_startedAt n)).
  { intros x source Hin. destruct (Hs source Hin) as (n & En & Sn).
    exists n. split; [|exact Sn]. now apply lookup_app_l_Some. }
  destruct (audioContextRef s) as [c|] eqn:Hc.
  - destruct (analyserRef s) as [a|] eqn:Ha.
    + rewrite (playBuffer_runs b c a) by assumption. constructor.
      intros source Hin. cbn in Hin |- *.
      apply elem_of_app in Hin as [Hin|Hin]; [now apply Hold|].
      apply list_elem_of_singleton in Hin as ->.
      rewrite lookup_fresh. eexists. split; [reflexivity|]. now eexists.
    + unfold playBuffer. proc_unfold. rewrite Hc. unfold createBufferSource.
      cbn [bind_step analyserRef set_nodes]. rewrite Ha. constructor.
      intros source Hin. cbn in Hin |- *. now apply Hold.
  - unfold playBuffer. proc_unfold. rewrite Hc. now constructor.
Qed.

Lemma onmessage_preserves (msg : LiveServerMessage) (s : State) :
  active_started s -> preserves active_started (onmessage msg s).
Proof.
  intros Hs. unfold onmessage. destruct (is_interrupted msg).
  { rewrite stopAllAudio_runs. constructor. apply interrupted_active_started. }
  unfold mbind at 1, proc_bind at 1, bind at 1.
  apply preserves_bind.
  { destruct (toolCall msg) as [[[fcs|]]|]; [now apply for_of_preserves| |];
      now constructor. }
  clear s Hs. intros s Hs.
  unfold mbind at 1, proc_bind at 1, bind at 1.
  apply preserves_bind.
  { destruct (grounding_chunks msg) as [chunks|]; [|now constructor].
    cbv zeta. destruct (0 <? length (search_results chunks))%nat; now constructor. }
  clear s Hs. intros s Hs. proc_unfold.
  destruct (audio_data msg) as [payload|]; [|now constructor].
  destruct (audioContextRef s); [|now constructor].
  destruct (analyserRef s); [|now constructor].
  destruct (negb (String.eqb payload "")); [|now constructor].
  cbn [bind_step]. destruct (atob payload) as [e|bytes]; cbn [bind_step];
    [now constructor|].
  unfold await_decode. cbn [bind_step]. constructor; [exact Hs|].
  intros [e|b] s' Hs'; cbn [bind_step]; [now constructor|].
  now apply playBuffer_preserves.
Qed.

Lemma park_ok (r : Step unit) (ps : list Pending) (errs : list JSError) :
  preserves active_started r -> Forall (parked_ok active_started) ps ->
  loop_ok (park r ps errs).
Proof.
  intros Hr Hps. destruct Hr; cbn [park]; split; cbn [app pending]; auto;
    apply Forall_app; split; auto; repeat constructor; assumption.
Qed.

Lemma onclose_runs (s : State) :
  exists s', onclose s = Finished s' tt /\ audioSourcesRef s' = [].
Proof.
  unfold onclose. proc_unfold. rewrite stopAllAudio_runs. cbn [bind_step].
  eexists. split; [reflexivity|]. cbn.
  now destruct (interrupted_state_fields (setIsSpeaking false (setConnected false s))).
Qed.

Lemma no_sources_started (s : State) : audioSourcesRef s = [] -> active_started s.
Proof. intros E source Hin. rewrite E in Hin. inversion Hin. Qed.

Lemma dispatch_ok (l : Loop) (ev : Event) : loop_ok l -> loop_ok (dispatch l ev).
Proof.
  intros [Hs Hps]. destruct ev as [msg|i o|i o|t|source| |]; cbn [dispatch].
  - apply park_ok; [now apply onmessage_preserves | exact Hps].
  - destruct (pending l !! i) as [[p k|b k]|] eqn:E; try (split; assumption).
    apply park_ok; [|now apply Forall_delete].
    eapply Forall_lookup_1 in Hps; [|exact E]. now apply Hps.
  - destruct (pending l !! i) as [[p k|b k]|] eqn:E; try (split; assumption).
    apply park_ok; [|now apply Forall_delete].
    eapply Forall_lookup_1 in Hps; [|exact E]. now apply Hps.
  - split; [|exact Hps]. cbn [app].
    destruct (advance_clock_frame t (app l)) as (_ & Hn & Ha & _).
    eapply active_started_same; [split; eassumption | exact Hs].
  - destruct (nodes (app l) !! source) as [n|]; [|split; assumption].
    destruct (node_onended n); [|split; assumption].
    destruct (onended_runs source (app l)) as (s' & E & Ha & _ & Hn & _).
    rewrite E. apply park_ok; [|exact Hps]. constructor.
    intros x Hin. rewrite Ha in Hin. apply list_elem_of_filter in Hin as [_ Hin].
    rewrite Hn. now apply Hs.
  - destruct (onclose_runs (app l)) as (s' & E & Ha). rewrite E.
    apply park_ok; [|exact Hps]. constructor. now apply no_sources_started.
  - destruct (disconnect_runs (app l)) as (s' & E & _ & _ & _ & _ & Ha & _). rewrite E.
    apply park_ok; [|exact Hps]. constructor. now apply no_sources_started.
Qed.

(** Whatever happens in the loop, a registered source is a node on which
    [start] was called: the assumption under which [stopAllAudio] stops
    every active slot holds in every reachable state. *)
Lemma registered_sources_started (evs : list Event) : forall l,
  loop_ok l -> loop_ok (run_events l evs).
Proof.
  induction evs as [|ev evs IH]; intros l Hl; [exact Hl|].
  apply IH. now apply dispatch_ok.
Qed.

Lemma fresh_loop_ok (s : State) : audioSourcesRef s = [] -> loop_ok (mkLoop s [] []).
Proof. intros E. split; [now apply no_sources_started | constructor]. Qed.

(* ================================================================== *)
(** * Proofs: the Frame Codec *)
(* ================================================================== *)




















(** The bytes of a few samples: full scale is clamped to the extreme
    values, half scale is [0x4000]. *)
Example encode_samples :
  Codec.encode [1; -1; 1 # 2; 2; -(3 # 1)]%Q
  = [255; 127; 0; 128; 0; 64; 255; 127; 0; 128]%Z.
Proof. reflexivity. Qed.

(** The two-call batch of the specification: a reminder, then a tool that
    is not declared. *)
Example batch_reminder_then_unknown :
  let l := dispatch (mkLoop live [] []) (EvMessage (tool_message [call_reminder; call_unknown])) in
  responses (app l)
  = [mkResponse "a" "set_reminder" "Memory stored: buy milk. Confirm to user.";
     mkResponse "b" "unknown_tool" "Done"] /\
  reminders (app l) = [mkReminder (Some (VString "buy milk")) (VString "Today") false] /\
  unhandled l = [].
Proof. cbn zeta. repeat split; reflexivity. Qed.

(* ================================================================== *)
(** * Proofs: more of the tool handlers *)
(* ================================================================== *)

(** Case analysis of [run_tool]: the synchronous outcomes are closed by
    [fin], the parked one is left to [fin_await]. *)
Ltac run_tool_by fin fin_await :=
  match goal with
  | |- context [run_tool ?t ?args ?s] =>
      destruct t as [[]|]; cbn [run_tool];
      [ (* make_call *)
        destruct args as [o|]; [|proc_unfold; cbn; fin];
        let E := fresh "E" in
        destruct (o !! "contactName") as [[w|n]|] eqn:E;
        [ proc_unfold; rewrite (find_contact_string _ _ _ E); cbn [bind_step];
          destruct (List.find _ MOCK_CONTACTS); proc_unfold;
          [|cbn [get_prop]; rewrite E; cbn [bind_step]]; fin
        | proc_unfold; cbn [find_contact MOCK_CONTACTS get_prop]; rewrite E; cbn; fin
        | proc_unfold; cbn [find_contact MOCK_CONTACTS get_prop]; rewrite E; cbn; fin ]
      | destruct args; proc_unfold; cbn; fin
      | destruct args; unfold addLog; proc_unfold; cbn [get_prop bind_step]; fin
      | destruct args; proc_unfold; cbn [get_prop bind_step]; fin
      | proc_unfold; cbn; fin
      | destruct args; proc_unfold; cbn [get_prop bind_step]; fin
      | destruct args; proc_unfold; cbn [get_prop bind_step]; fin
      | (* generate_image *)
        proc_unfold; destruct (clientRef s); [|destruct args; fin];
        destruct args as [o|]; unfold addLog, await_generate; proc_unfold;
        cbn [get_prop bind_step catch_step]; [fin_await|fin]
      | destruct args; proc_unfold; cbn; fin ]
  end.

Lemma untouched_refl (s : State) : untouched_by_tools s s.
Proof. repeat split. Qed.

Lemma untouched_trans (s1 s2 s3 : State) :
  untouched_by_tools s1 s2 -> untouched_by_tools s2 s3 -> untouched_by_tools s1 s3.
Proof.
  unfold untouched_by_tools. intros H1 H2.
  repeat match goal with H : _ /\ _ |- _ => destruct H end.
  repeat split; congruence.
Qed.

Lemma run_tool_untouched (t : option Tool) (args : option (gmap string JSVal)) (s : State) :
  match run_tool t args s with
  | Finished s' _ | Raised s' _ => untouched_by_tools s s'
  | AwaitGenerate s' _ k =>
      untouched_by_tools s s' /\
      forall o s2, exists s3 r, k o s2 = Finished s3 r /\ untouched_by_tools s2 s3
  | AwaitDecode _ _ _ => False
  end.
Proof.
  run_tool_by ltac:(repeat split)
    ltac:(split; [repeat split|];
          intros [e|r] s2; cbn [bind_step catch_step];
          [|destruct (nonempty (image_data r)); cbn [bind_step catch_step]];
          eexists _, _; (split; [reflexivity|]); repeat split).
Qed.

Lemma prologue_untouched (fc : FunctionCall) (s : State) :
  untouched_by_tools s (prologue fc s).
Proof. unfold prologue. destruct (audioContextRef s) eqn:E; repeat split; cbn; now rewrite ?E. Qed.

Lemma respond_untouched (fc : FunctionCall) (r : string) (s : State) :
  untouched_by_tools s (respond fc r s).
Proof. unfold respond. destruct (sessionRef s); repeat split. Qed.

(** Where a run of [handleToolCall] stops, and where a parked one ends
    when resumed, the state is untouched in the sense above. *)
Lemma tool_call_frame (fc : FunctionCall) (s : State) :
  match handleToolCall fc s with
  | Finished s' _ | Raised s' _ => untouched_by_tools s s'
  | AwaitGenerate s1 _ k =>
      forall o s2, exists s3, k o s2 = Finished s3 tt /\ untouched_by_tools s2 s3
  | AwaitDecode _ _ _ => False
  end.
Proof.
  rewrite handleToolCall_shape.
  pose proof (run_tool_untouched (tool_of_name (fc_name fc)) (fc_args fc) (prologue fc s)) as H.
  pose proof (prologue_untouched fc s) as Hp.
  destruct (run_tool _ _ _) as [s1 r|s1 e|s1 p k|s1 b k]; cbn [bind_step].
  - rewrite send_response_runs.
    eapply untouched_trans; [eapply untouched_trans; eassumption|apply respond_untouched].
  - eapply untouched_trans; eassumption.
  - destruct H as [H1 Hk]. intros o s2. destruct (Hk o s2) as (s3 & r & -> & H3).
    cbn [bind_step]. rewrite send_response_runs. eexists. split; [reflexivity|].
    eapply untouched_trans; [exact H3 | apply respond_untouched].
  - destruct H.
Qed.

(** X1. A tool call, however it ends, changes nothing but the logs, the
    sounds played, the phone, the reminders, the weather, the image and the
    responses sent: connection flags, refs and the playback schedule are as
    before. *)
Theorem tool_call_keeps_to_its_own (fc : FunctionCall) (s : State) (o : GenOutcome) :
  let r := resume 1 (fun _ => o) (handleToolCall fc s) in
  settled r = true /\ untouched_by_tools s (final_state r).
Proof.
  cbn zeta. rewrite handleToolCall_shape.
  pose proof (run_tool_untouched (tool_of_name (fc_name fc)) (fc_args fc) (prologue fc s)) as H.
  pose proof (prologue_untouched fc s) as Hp.
  destruct (run_tool _ _ _) as [s1 r|s1 e|s1 p k|s1 b k]; cbn [bind_step resume].
  - rewrite send_response_runs. cbn. split; [reflexivity|].
    eapply untouched_trans; [eapply untouched_trans; eassumption|apply respond_untouched].
  - cbn. split; [reflexivity|]. eapply untouched_trans; eassumption.
  - destruct H as [H1 Hk]. destruct (Hk o s1) as (s3 & r & -> & H3).
    cbn [bind_step]. rewrite send_response_runs. cbn. split; [reflexivity|].
    eapply untouched_trans; [|apply respond_untouched].
    eapply untouched_trans; [|exact H3]. eapply untouched_trans; eassumption.
  - destruct H.
Qed.

(* ================================================================== *)
(** * Proofs: what every event keeps *)
(* ================================================================== *)

Section Stable.
Variable P : State -> Prop.
Hypothesis HP : stable P.

Lemma stopAllAudio_keeps (s : State) : P s -> preserves P (stopAllAudio s).
Proof. intros H. rewrite stopAllAudio_runs. constructor. now apply stable_interrupt. Qed.

Lemma for_of_keeps (fcs : list FunctionCall) : forall s,
  P s -> preserves P (for_of fcs handleToolCall s).
Proof.
  induction fcs as [|fc fcs IH]; intros s Hs; [now constructor|].
  change (for_of (fc :: fcs) handleToolCall s)
    with (bind_step (handleToolCall fc s) (fun _ => for_of fcs handleToolCall)).
  apply preserves_bind; [now apply stable_tools | exact IH].
Qed.

Lemma onmessage_keeps (msg : LiveServerMessage) (s : State) :
  P s -> preserves P (onmessage msg s).
Proof.
  intros Hs. unfold onmessage. destruct (is_interrupted msg);
    [now apply stopAllAudio_keeps|].
  unfold mbind at 1, proc_bind at 1, bind at 1.
  apply preserves_bind.
  { destruct (toolCall msg) as [[[fcs|]]|]; [now apply for_of_keeps| |];
      now constructor. }
  clear s Hs. intros s Hs.
  unfold mbind at 1, proc_bind at 1, bind at 1.
  apply preserves_bind.
  { destruct (grounding_chunks msg) as [chunks|]; [|now constructor].
    cbv zeta. destruct (0 <? length (search_results chunks))%nat;
      constructor; [now apply stable_results | exact Hs]. }
  clear s Hs. intros s Hs. proc_unfold.
  destruct (audio_data msg) as [payload|]; [|now constructor].
  destruct (audioContextRef s); [|now constructor].
  destruct (analyserRef s); [|now constructor].
  destruct (negb (String.eqb payload "")); [|now constructor].
  cbn [bind_step]. pose proof (stable_speaking P HP true s Hs) as Hs1.
  destruct (atob payload) as [e|bytes]; cbn [bind_step]; [now constructor|].
  unfold await_decode. cbn [bind_step]. constructor; [exact Hs1|].
  intros [e|b] s' Hs'; cbn [bind_step]; [now constructor|].
  now apply stable_enqueue.
Qed.

Lemma onclose_keeps (s : State) : P s -> preserves P (onclose s).
Proof.
  intros Hs. unfold onclose. proc_unfold. rewrite stopAllAudio_runs. cbn [bind_step].
  constructor. apply stable_results, stable_interrupt, stable_speaking, stable_connected;
    assumption.
Qed.

Lemma disconnect_keeps (s : State) : P s -> preserves P (disconnect s).
Proof.
  intros Hs. unfold disconnect. unfold mbind at 1, proc_bind at 1, bind at 1.
  rewrite stopAllAudio_runs. unfold addLog. proc_unfold. constructor.
  apply stable_logs, stable_results, stable_vision, stable_speaking, stable_connected,
    stable_input, stable_context, stable_session, stable_video, stable_stream,
    stable_interrupt; assumption.
Qed.

Lemma park_keeps (r : Step unit) (ps : list Pending) (errs : list JSError) :
  preserves P r -> Forall (parked_ok P) ps -> loop_inv P (park r ps errs).
Proof.
  intros Hr Hps. destruct Hr; cbn [park]; split; cbn [app pending]; auto;
    apply Forall_app; split; auto; repeat constructor; assumption.
Qed.

Lemma dispatch_keeps (l : Loop) (ev : Event) : loop_inv P l -> loop_inv P (dispatch l ev).
Proof.
  intros [Hs Hps]. destruct ev as [msg|i o|i o|t|source| |]; cbn [dispatch].
  - apply park_keeps; [now apply onmessage_keeps | exact Hps].
  - destruct (pending l !! i) as [[p k|b k]|] eqn:E; try (split; assumption).
    apply park_keeps; [|now apply Forall_delete].
    eapply Forall_lookup_1 in Hps; [|exact E]. now apply Hps.
  - destruct (pending l !! i) as [[p k|b k]|] eqn:E; try (split; assumption).
    apply park_keeps; [|now apply Forall_delete].
    eapply Forall_lookup_1 in Hps; [|exact E]. now apply Hps.
  - split; [|exact Hps]. cbn [app]. now apply stable_clock.
  - destruct (nodes (app l) !! source) as [n|]; [|split; assumption].
    destruct (node_onended n); [|split; assumption].
    destruct (onended_runs source (app l)) as (s' & E & _).
    rewrite E. apply park_keeps; [|exact Hps]. constructor.
    eapply stable_ended; eassumption.
  - apply park_keeps; [now apply onclose_keeps | exact Hps].
  - apply park_keeps; [now apply disconnect_keeps | exact Hps].
Qed.

Lemma hcatch_keeps (r : HStep) (h : JSError -> State -> HStep) :
  hpreserves P r -> (forall e s, P s -> hpreserves P (h e s)) ->
  hpreserves P (hcatch r h).
Proof.
  intros Hr Hh. induction Hr; cbn [hcatch]; [now constructor | now apply Hh | |];
    constructor; auto.
Qed.

Lemma acquire_keeps (stream : MediaStream) (s : State) : P s -> P (acquire stream s).
Proof.
  intros Hs. unfold acquire.
  apply stable_client, stable_analyser, stable_context, stable_input, stable_stream;
    assumption.
Qed.

Lemma connectToJarvis_keeps (agi : bool) (s : State) :
  P s -> hpreserves P (connectToJarvis agi s).
Proof.
  intros Hs. unfold connectToJarvis. apply hcatch_keeps.
  - apply hpreserves_media; [unfold logged; now apply stable_logs|].
    intros [e|stream] s1 H1; [now apply hpreserves_throw|].
    apply hpreserves_connect; [now apply acquire_keeps|].
    intros [e|session] s2 H2;
      [now apply hpreserves_throw | apply hpreserves_return; now apply stable_session].
  - intros e s' H'. apply hpreserves_return. unfold logged. now apply stable_logs.
Qed.

Lemma toggleVision_keeps (s : State) : P s -> hpreserves P (toggleVision s).
Proof.
  intros Hs. unfold toggleVision, logged. destruct (isVisionActive s).
  - apply hpreserves_return. apply stable_logs, stable_vision, stable_video; assumption.
  - apply hcatch_keeps.
    + apply hpreserves_media; [exact Hs|].
      intros [e|stream] s1 H1; [now apply hpreserves_throw|].
      apply hpreserves_return. apply stable_logs, stable_vision, stable_video; assumption.
    + intros e s' H'. apply hpreserves_return. now apply stable_logs.
Qed.

Lemma hpark_keeps (r : HStep) (l : Loop) (agi : bool) (hs : list PendingHandshake) :
  hpreserves P r -> Forall (parked_ok P) (pending l) -> Forall (hparked_ok P) hs ->
  shell_inv P (hpark r l agi hs).
Proof.
  intros Hr Hps Hhs.
  destruct Hr; cbn [hpark]; repeat split; cbn; auto;
    apply Forall_app; split; auto; repeat constructor; assumption.
Qed.

Lemma toggleAGI_keeps (agi : bool) (s : State) : P s -> preserves P (toggleAGI agi s).
Proof.
  intros Hs. unfold toggleAGI. cbv zeta.
  unfold mbind at 1, proc_bind at 1, bind at 1, addLog at 1, modify at 1.
  cbn [bind_step].
  unfold mbind at 1, proc_bind at 1, bind at 1, gets at 1. cbn [bind_step connected setLogs].
  pose proof (stable_logs P HP
    (logs s ++ [mkLog (if negb agi then "AGI PROTOCOL ENGAGED. GOD MODE ACTIVE."
                       else "REVERTING TO STANDARD PROTOCOLS.") system]) s Hs) as H1.
  destruct (connected s); [|now constructor].
  unfold mbind at 1, proc_bind at 1, bind at 1.
  apply preserves_bind; [now apply disconnect_keeps|].
  intros s' Hs'. unfold addLog, modify. constructor. now apply stable_logs.
Qed.

Lemma shell_step_keeps (sh : Shell) (ev : ShellEvent) :
  shell_inv P sh -> shell_inv P (shell_step sh ev).
Proof.
  intros [[Hs Hps] Hhs]. destruct ev as [|i o|i o| |err| | | |ev]; cbn [shell_step].
  - apply hpark_keeps; auto. now apply connectToJarvis_keeps.
  - destruct (handshakes sh !! i) as [[k|k]|] eqn:E; try (repeat split; assumption).
    apply hpark_keeps; auto; [|now apply Forall_delete].
    eapply Forall_lookup_1 in Hhs; [|exact E]. now apply Hhs.
  - destruct (handshakes sh !! i) as [[k|k]|] eqn:E; try (repeat split; assumption).
    apply hpark_keeps; auto; [|now apply Forall_delete].
    eapply Forall_lookup_1 in Hhs; [|exact E]. now apply Hhs.
  - split; [|exact Hhs]. cbn [core]. apply park_keeps; [|exact Hps].
    unfold onopen, addLog. proc_unfold. constructor.
    apply stable_logs, stable_connected; assumption.
  - split; [|exact Hhs]. cbn [core]. apply park_keeps; [|exact Hps].
    unfold onerror, addLog, modify. constructor. now apply stable_logs.
  - split; [|exact Hhs]. cbn [core]. apply park_keeps; [|exact Hps].
    now apply toggleAGI_keeps.
  - apply hpark_keeps; auto. now apply toggleVision_keeps.
  - split; [|exact Hhs]. cbn [core]. apply park_keeps; [|exact Hps].
    unfold onEndCall, modify. constructor. now apply stable_hangup.
  - split; [|exact Hhs]. cbn [core]. apply dispatch_keeps. now split.
Qed.

Lemma run_shell_keeps (evs : list ShellEvent) : forall sh,
  shell_inv P sh -> shell_inv P (run_shell sh evs).
Proof.
  induction evs as [|ev evs IH]; intros sh Hsh; [exact Hsh|].
  apply IH. now apply shell_step_keeps.
Qed.

Lemma mounted_keeps (evs : list ShellEvent) :
  P initial -> P (app (core (run_shell mounted evs))).
Proof.
  intros H0. apply (run_shell_keeps evs mounted).
  repeat split; cbn; auto.
Qed.

End Stable.

(** A property closed under the changes a tool call may make is kept by
    [handleToolCall]. *)
Lemma handleToolCall_keeps (P : State -> Prop) (fc : FunctionCall) (s : State) :
  (forall s s', untouched_by_tools s s' -> P s -> P s') ->
  P s -> preserves P (handleToolCall fc s).
Proof.
  intros HP Hs. rewrite handleToolCall_shape.
  pose proof (run_tool_untouched (tool_of_name (fc_name fc)) (fc_args fc) (prologue fc s)) as H.
  pose proof (HP _ _ (prologue_untouched fc s) Hs) as Hp.
  destruct (run_tool _ _ _) as [s1 r|s1 e|s1 p k|s1 b k]; cbn [bind_step].
  - rewrite send_response_runs. constructor.
    eapply HP; [apply respond_untouched|]. eapply HP; eauto.
  - constructor. eapply HP; eauto.
  - destruct H as [H1 Hk]. constructor; [eapply HP; eauto|].
    intros o s2 H2. destruct (Hk o s2) as (s3 & r & -> & H3). cbn [bind_step].
    rewrite send_response_runs. constructor.
    eapply HP; [apply respond_untouched|]. eapply HP; eauto.
  - destruct H.
Qed.

Lemma schedule_ok_untouched (s s' : State) :
  untouched_by_tools s s' -> schedule_ok s -> schedule_ok s'.
Proof.
  unfold untouched_by_tools, schedule_ok.
  intros (_ & _ & _ & _ & _ & _ & _ & _ & _ & _ & H9 & H10 & H11) Hs.
  intros source Hin. rewrite H9 in Hin. rewrite H10, H11. now apply Hs.
Qed.

Lemma schedule_ok_interrupted (s : State) : schedule_ok (interrupted_state s).
Proof.
  intros source Hin.
  rewrite (proj1 (interrupted_state_fields s)) in Hin. now apply elem_of_nil in Hin.
Qed.

Lemma Qmax_marker (t m d : Q) : (0 <= d)%Q -> (m <= Qmax t m + d)%Q.
Proof. intros Hd. pose proof (Q.le_max_r t m). lra. Qed.

Lemma schedule_ok_enqueue (b : AudioBuffer) (s : State) :
  schedule_ok s -> preserves schedule_ok (playBuffer b s).
Proof.
  intros Hs.
  destruct (audioContextRef s) as [c|] eqn:Hc.
  - destruct (analyserRef s) as [a|] eqn:Ha.
    + rewrite (playBuffer_runs b c a) by assumption. constructor.
      intros source Hin. cbn in Hin |- *.
      apply elem_of_app in Hin as [Hin|Hin].
      * destruct (Hs source Hin) as (n & t & En & Sn & Le).
        exists n, t. split; [now apply lookup_app_l_Some|]. split; [exact Sn|].
        pose proof (Qmax_marker (currentTime c) (nextStartTimeRef s) (duration b)
                      (duration_nonneg b)). lra.
      * apply list_elem_of_singleton in Hin as ->.
        rewrite lookup_fresh. eexists _, _. split; [reflexivity|].
        split; [reflexivity|]. cbn. lra.
    + unfold playBuffer. proc_unfold. rewrite Hc. unfold createBufferSource.
      cbn [bind_step analyserRef set_nodes]. rewrite Ha. constructor.
      intros source Hin. cbn in Hin |- *.
      destruct (Hs source Hin) as (n & t & En & Sn & Le).
      exists n, t. split; [now apply lookup_app_l_Some|]. now split.
  - unfold playBuffer. proc_unfold. rewrite Hc. now constructor.
Qed.

Lemma schedule_ok_ended (source : nat) (s s' : State) :
  schedule_ok s -> onended source s = Finished s' tt -> schedule_ok s'.
Proof.
  intros Hs E. destruct (onended_runs source s) as (s1 & E1 & A & _ & N & M & _).
  rewrite E1 in E. injection E as <-.
  intros x Hin. rewrite A in Hin. apply list_elem_of_filter in Hin as [_ Hin].
  rewrite N, M. now apply Hs.
Qed.

Lemma schedule_ok_clock (t : Q) (s : State) : schedule_ok s -> schedule_ok (advance_clock t s).
Proof.
  intros Hs. unfold advance_clock. destruct (audioContextRef s); [|exact Hs].
  destruct (Qle_bool _ _); exact Hs.
Qed.

Lemma schedule_ok_stable : stable schedule_ok.
Proof.
  constructor; try (intros; assumption).
  - intros fc s. apply handleToolCall_keeps, schedule_ok_untouched.
  - intros s _. apply schedule_ok_interrupted.
  - apply schedule_ok_enqueue.
  - intros source s s'. apply schedule_ok_ended.
  - apply schedule_ok_clock.
Qed.

(** The phone through the tool handlers. *)
Lemma run_tool_phone (t : option Tool) (args : option (gmap string JSVal)) (s : State) :
  phone_ok s ->
  match run_tool t args s with
  | Finished s' _ | Raised s' _ => phone_ok s'
  | AwaitGenerate s' _ k =>
      phone_ok s' /\
      forall o s2, phone_ok s2 -> exists s3 r, k o s2 = Finished s3 r /\ phone_ok s3
  | AwaitDecode _ _ _ => False
  end.
Proof.
  intros H.
  run_tool_by
    ltac:(first [exact H | split; [exact (proj1 H) | reflexivity] | split; reflexivity])
    ltac:(split; [exact H|];
          intros [e|r] s2 H2; cbn [bind_step catch_step];
          [|destruct (nonempty (image_data r)); cbn [bind_step catch_step]];
          eexists _, _; (split; [reflexivity|]); exact H2).
Qed.

Lemma phone_ok_same (s s' : State) : phoneState s' = phoneState s -> phone_ok s -> phone_ok s'.
Proof. unfold phone_ok. now intros ->. Qed.

Lemma prologue_phone (fc : FunctionCall) (s : State) :
  phoneState (prologue fc s) = phoneState s.
Proof. unfold prologue. now destruct (audioContextRef s). Qed.

Lemma respond_phone_same (fc : FunctionCall) (r : string) (s : State) :
  phoneState (respond fc r s) = phoneState s.
Proof. unfold respond. now destruct (sessionRef s). Qed.

Lemma phone_ok_tools (fc : FunctionCall) (s : State) :
  phone_ok s -> preserves phone_ok (handleToolCall fc s).
Proof.
  intros Hs. rewrite handleToolCall_shape.
  pose proof (phone_ok_same _ _ (prologue_phone fc s) Hs) as Hp.
  pose proof (run_tool_phone (tool_of_name (fc_name fc)) (fc_args fc) (prologue fc s) Hp) as H.
  destruct (run_tool _ _ _) as [s1 r|s1 e|s1 p k|s1 b k]; cbn [bind_step].
  - rewrite send_response_runs. constructor.
    eapply phone_ok_same; [apply respond_phone_same | exact H].
  - now constructor.
  - destruct H as [H1 Hk]. constructor; [exact H1|].
    intros o s2 H2. destruct (Hk o s2 H2) as (s3 & r & -> & H3). cbn [bind_step].
    rewrite send_response_runs. constructor.
    eapply phone_ok_same; [apply respond_phone_same | exact H3].
  - destruct H.
Qed.

Lemma phone_ok_stable : stable phone_ok.
Proof.
  constructor; try (intros; assumption).
  - apply phone_ok_tools.
  - intros s. apply phone_ok_same. unfold interrupted_state. cbn.
    now destruct (audioContextRef s).
  - intros b s Hs. destruct (audioContextRef s) as [c|] eqn:Hc.
    + destruct (analyserRef s) as [a|] eqn:Ha.
      * rewrite (playBuffer_runs b c a) by assumption. now constructor.
      * unfold playBuffer. proc_unfold. rewrite Hc. unfold createBufferSource.
        cbn [bind_step analyserRef set_nodes]. rewrite Ha. now constructor.
    + unfold playBuffer. proc_unfold. rewrite Hc. now constructor.
  - intros source s s' Hs E. revert E. unfold onended. proc_unfold.
    cbn [audioContextRef nextStartTimeRef set_audioSourcesRef].
    destruct (audioContextRef s); [destruct (Qle_bool _ _)|];
      cbn; intros [= <-]; exact Hs.
  - intros t s Hs. unfold advance_clock. destruct (audioContextRef s); [|exact Hs].
    destruct (Qle_bool _ _); exact Hs.
  - intros s Hs. split; [exact (proj1 Hs) | reflexivity].
Qed.

(** X2. Whatever events arrive after the component is mounted -- messages,
    settled awaits, clock ticks, ended slots, connects, disconnects, mode
    switches -- every registered source is a started node whose slot ends at
    or before the marker.  A buffer enqueued next starts at the later of
    the clock and the marker, so it never overlaps a slot still active. *)
Theorem registered_slots_end_by_marker (evs : list ShellEvent) :
  schedule_ok (app (core (run_shell mounted evs))).
Proof.
  apply (mounted_keeps schedule_ok schedule_ok_stable).
  intros source Hin. now apply elem_of_nil in Hin.
Qed.

(** X3. Whatever events arrive after the component is mounted, the phone
    shows a call exactly when it has a contact on the line, and the call
    duration is zero: no handler ever changes it. *)
Theorem phone_in_call_iff_contact (evs : list ShellEvent) :
  phone_ok (app (core (run_shell mounted evs))).
Proof.
  apply (mounted_keeps phone_ok phone_ok_stable). split; reflexivity.
Qed.

(* ================================================================== *)
(** * Proofs: the tool handlers one by one *)
(* ================================================================== *)

Lemma handleToolCall_finishes (fc : FunctionCall) (s s1 : State) (r : string) :
  run_tool (tool_of_name (fc_name fc)) (fc_args fc) (prologue fc s) = Finished s1 r ->
  handleToolCall fc s = Finished (respond fc r s1) tt.
Proof.
  intros H. rewrite handleToolCall_shape, H. cbn [bind_step]. apply send_response_runs.
Qed.

Lemma session_after (fc : FunctionCall) (r : string) (s s1 : State) :
  sessionRef s1 = sessionRef (prologue fc s) ->
  sessionRef (respond fc r s1)
  = sendToolResponse (mkResponse (fc_id fc) (fc_name fc) r) <$> sessionRef s.
Proof.
  intros H. rewrite (proj1 (respond_frame fc r s1)), H.
  now rewrite (proj1 (prologue_frame fc s)).
Qed.

Lemma find_listed (c : Contact) (wanted : string) :
  c ∈ MOCK_CONTACTS -> toLowerCase (name c) = toLowerCase wanted ->
  List.find (fun c' => String.eqb (toLowerCase (name c')) (toLowerCase wanted)) MOCK_CONTACTS
  = Some c.
Proof.
  intros Hin <-. unfold MOCK_CONTACTS in Hin.
  repeat (apply elem_of_cons in Hin as [->|Hin]; [reflexivity|]).
  now apply elem_of_nil in Hin.
Qed.

(** X4. A [make_call] for a name that is, case ignored, the name of a known
    contact: the phone is in a call with that contact as listed, and the
    response gives the listed name and number, not the spelling asked for. *)
Theorem make_call_known_contact
    (fc : FunctionCall) (o : gmap string JSVal) (wanted : string) (c : Contact)
    (s : State) :
  fc_name fc = "make_call" ->
  fc_args fc = Some o ->
  o !! "contactName" = Some (VString wanted) ->
  c ∈ MOCK_CONTACTS ->
  toLowerCase (name c) = toLowerCase wanted ->
  exists s',
    handleToolCall fc s = Finished s' tt /\
    phoneState s' = mkPhoneState true (Some c) 0 /\
    sessionRef s' =
      sendToolResponse
        (mkResponse (fc_id fc) "make_call"
           ("Call Initiated. Info: Calling " +:+ name c +:+ " at " +:+ number c
              +:+ ". Confirm this to user."))
        <$> sessionRef s.
Proof.
  intros Hname Hargs Hprop Hin Hlow.
  eexists. split.
  { apply handleToolCall_finishes. rewrite Hname, Hargs.
    change (tool_of_name "make_call") with (Some make_call).
    cbn [run_tool]. proc_unfold.
    rewrite (find_contact_string _ _ _ Hprop), (find_listed _ _ Hin Hlow).
    proc_unfold. reflexivity. }
  split; [now rewrite respond_phone|].
  rewrite <- Hname at 1. now apply session_after.
Qed.

Lemma make_call_known_contact_witness :
  exists s',
    handleToolCall (mkCall "k" "make_call" (Some {[ "contactName" := VString "PEPPER" ]}))
                   live = Finished s' tt /\
    phoneState s' = mkPhoneState true (Some (mkContact "Pepper" "7777777777")) 0 /\
    sessionRef s' =
      sendToolResponse
        (mkResponse "k" "make_call"
           "Call Initiated. Info: Calling Pepper at 7777777777. Confirm this to user.")
        <$> sessionRef live.
Proof.
  apply (make_call_known_contact
           (mkCall "k" "make_call" (Some {[ "contactName" := VString "PEPPER" ]}))
           {[ "contactName" := VString "PEPPER" ]} "PEPPER"
           (mkContact "Pepper" "7777777777") live);
    [reflexivity | reflexivity | reflexivity | | reflexivity].
  unfold MOCK_CONTACTS. do 3 apply list_elem_of_further. apply list_elem_of_here.
Defined.

(** X5. An [end_call] hangs up whatever its arguments are, missing ones
    included: the handler returns, the phone is out of the call with no
    contact, the duration is kept, and the response says so. *)
Theorem end_call_needs_no_args (fc : FunctionCall) (s : State) :
  fc_name fc = "end_call" ->
  exists s',
    handleToolCall fc s = Finished s' tt /\
    phoneState s' = mkPhoneState false None (callDuration (phoneState s)) /\
    sessionRef s' =
      sendToolResponse
        (mkResponse (fc_id fc) "end_call" "Call disconnected. Confirm to user.")
        <$> sessionRef s.
Proof.
  intros Hname. eexists. split.
  { apply handleToolCall_finishes. rewrite Hname.
    change (tool_of_name "end_call") with (Some end_call).
    cbn [run_tool]. proc_unfold. reflexivity. }
  split.
  - rewrite respond_phone. cbn [phoneState setPhoneState].
    now rewrite (proj1 (prologue_fields fc s)).
  - rewrite <- Hname at 1. now apply session_after.
Qed.

Lemma end_call_needs_no_args_witness :
  exists s',
    handleToolCall call_hangup live = Finished s' tt /\
    phoneState s' = mkPhoneState false None (callDuration (phoneState live)) /\
    sessionRef s' =
      sendToolResponse
        (mkResponse "c2" "end_call" "Call disconnected. Confirm to user.")
        <$> sessionRef live.
Proof. apply (end_call_needs_no_args call_hangup live). reflexivity. Defined.

(** X6. A [set_reminder] with an arguments object appends one reminder and
    keeps the earlier ones in place; the new one is not completed, carries
    the task as sent, and its time is [Today] exactly when the time sent is
    falsy (missing, empty, zero). *)
Theorem set_reminder_appends (fc : FunctionCall) (o : gmap string JSVal) (s : State) :
  fc_name fc = "set_reminder" ->
  fc_args fc = Some o ->
  exists s' r,
    handleToolCall fc s = Finished s' tt /\
    reminders s' = reminders s ++ [r] /\
    task r = o !! "task" /\ completed r = false /\
    (truthy (o !! "time") = false -> time r = VString "Today") /\
    (truthy (o !! "time") = true -> Some (time r) = o !! "time") /\
    sessionRef s' =
      sendToolResponse
        (mkResponse (fc_id fc) "set_reminder"
           ("Memory stored: " +:+ show (o !! "task") +:+ ". Confirm to user."))
        <$> sessionRef s.
Proof.
  intros Hname Hargs. eexists _, _. split.
  { apply handleToolCall_finishes. rewrite Hname, Hargs.
    change (tool_of_name "set_reminder") with (Some set_reminder).
    cbn [run_tool]. proc_unfold. cbn [get_prop bind_step]. reflexivity. }
  split.
  { rewrite (proj1 (proj2 (respond_fields _ _ _))). cbn [reminders setReminders].
    now rewrite (proj1 (proj2 (prologue_fields fc s))). }
  cbn [task completed time].
  split; [reflexivity|]. split; [reflexivity|].
  split; [now intros ->|].
  split; [intros Ht; rewrite Ht; destruct (o !! "time"); [reflexivity | discriminate Ht]|].
  rewrite <- Hname at 1. now apply session_after.
Qed.

Lemma set_reminder_appends_witness :
  exists s' r,
    handleToolCall call_reminder live = Finished s' tt /\
    reminders s' = reminders live ++ [r] /\
    task r = Some (VString "buy milk") /\ completed r = false /\
    time r = VString "Today".
Proof.
  destruct (set_reminder_appends call_reminder {[ "task" := VString "buy milk" ]} live
              eq_refl eq_refl) as (s' & r & E & R & T & C & F & _).
  exists s', r. split; [exact E|]. split; [exact R|].
  split; [exact T|]. split; [exact C|]. apply F. reflexivity.
Defined.

(** X7. A [generate_image] call with a client held waits for the image
    model and is answered whatever comes back, without ever throwing: a
    rejection is logged and reported in the result, a reply with image data
    puts the image on the screen, a reply without leaves the screen as it is
    and says that no data came. *)
Theorem generate_image_outcomes
    (fc : FunctionCall) (o : gmap string JSVal) (s : State) (u : unit) :
  clientRef s = Some u -> fc_name fc = "generate_image" -> fc_args fc = Some o ->
  exists k,
    handleToolCall fc s = AwaitGenerate (prologue fc s) (o !! "prompt") k /\
    (forall e s2,
        k (GenRejected e) s2
        = Finished
            (respond fc ("Image generation failed: " +:+ err_message e)
               (logged ("Gen Error: " +:+ err_message e) error s2)) tt) /\
    (forall r s2,
        nonempty (image_data r) = true ->
        k (GenResolved r) s2
        = Finished
            (respond fc
               "Image generated successfully and displayed on the main screen. Tell the user here it is."
               (logged ("Image Generated: " +:+ show (o !! "prompt")) info
                  (setVoiceGeneratedImage
                     ("data:image/png;base64," +:+ default "" (image_data r)) s2))) tt) /\
    (forall r s2,
        nonempty (image_data r) = false ->
        k (GenResolved r) s2
        = Finished (respond fc "Image generation failed to return data." s2) tt).
Proof.
  intros Hcl Hname Hargs.
  destruct (prologue_frame fc s) as (_ & Pc & _).
  rewrite handleToolCall_shape. rewrite Hname, Hargs.
  change (tool_of_name "generate_image") with (Some generate_image).
  cbn [run_tool]. unfold await_generate.
  unfold mbind at 1, proc_bind at 1, bind at 1, gets at 1.
  cbn [bind_step]. rewrite Pc, Hcl.
  unfold try_catch at 1.
  unfold mbind at 1, proc_bind at 1, bind at 1, eval at 1, get_prop at 1, ret at 1.
  cbn [bind_step].
  unfold mbind at 1, proc_bind at 1, bind at 1.
  cbn [bind_step catch_step].
  eexists. split; [reflexivity|].
  split; [|split].
  - intros e s2. cbn [bind_step catch_step]. unfold addLog. proc_unfold.
    cbn [bind_step]. now rewrite send_response_runs.
  - intros r s2 Hr. cbn [bind_step catch_step]. rewrite Hr. unfold addLog. proc_unfold.
    cbn [bind_step catch_step]. now rewrite send_response_runs.
  - intros r s2 Hr. cbn [bind_step catch_step]. rewrite Hr. proc_unfold.
    cbn [bind_step catch_step]. now rewrite send_response_runs.
Qed.

Lemma generate_image_outcomes_witness :
  exists k,
    handleToolCall call_image live
    = AwaitGenerate (prologue call_image live) (Some (VString "a panda")) k /\
    k (GenRejected (mkError "Error" "quota")) live
    = Finished
        (respond call_image "Image generation failed: quota"
           (logged "Gen Error: quota" error live)) tt.
Proof.
  destruct (generate_image_outcomes call_image {[ "prompt" := VString "a panda" ]} live tt
              eq_refl eq_refl eq_refl) as (k & E & R & _).
  exists k. split; [exact E | apply R].
Defined.


(** What a throwing handler leaves behind. *)
Lemma run_tool_raised (t : option Tool) (args : option (gmap string JSVal)) (s s' : State)
    (e : JSError) :
  run_tool t args s = Raised s' e ->
  err_name e = "TypeError" /\
  phoneState s' = phoneState s /\ reminders s' = reminders s /\
  voiceGeneratedImage s' = voiceGeneratedImage s /\ logs s' = logs s /\
  weatherState s' = match t with
                    | Some display_weather => Some None
                    | _ => weatherState s
                    end.
Proof.
  revert s' e.
  run_tool_by
    ltac:(intros s' e; first [discriminate | intros [= <- <-]; repeat split; try reflexivity])
    ltac:(intros s' e; discriminate).
Qed.

(** X9. A handler that throws has changed nothing of phone, reminders and
    image; only a [display_weather] without arguments has already put its
    undefined arguments in the weather state.  The exception is a [TypeError], and the log holds
    the dispatch entry and nothing after it. *)
Theorem thrown_call_leaves_no_trace (fc : FunctionCall) (s s' : State) (e : JSError) :
  handleToolCall fc s = Raised s' e ->
  err_name e = "TypeError" /\
  phoneState s' = phoneState s /\ reminders s' = reminders s /\
  voiceGeneratedImage s' = voiceGeneratedImage s /\
  logs s' = logs s ++ [mkLog ("Executing Protocol: " +:+ fc_name fc) action] /\
  weatherState s' = (if String.eqb (fc_name fc) "display_weather" then Some None
                     else weatherState s).
Proof.
  rewrite handleToolCall_shape. intros H.
  destruct (run_tool _ _ _) as [s1 r|s1 e1|s1 p k|s1 b k] eqn:E; cbn [bind_step] in H;
    [rewrite send_response_runs in H; discriminate | | discriminate | discriminate].
  injection H as <- <-.
  destruct (run_tool_raised _ _ _ _ _ E) as (Hn & Hp & Hr & Hi & Hl & Hw).
  destruct (prologue_fields fc s) as (Pp & Pr & Pw & Pi).
  split; [exact Hn|]. split; [congruence|]. split; [congruence|]. split; [congruence|].
  split.
  { rewrite Hl. unfold prologue. now destruct (audioContextRef s). }
  rewrite Hw, Pw. unfold tool_of_name.
  destruct (String.eqb_spec (fc_name fc) "display_weather") as [->|Hne]; [reflexivity|].
  repeat match goal with
         | |- context [String.eqb (fc_name fc) ?b] =>
             destruct (String.eqb_spec (fc_name fc) b)
         end; try reflexivity; contradiction.
Qed.

Lemma thrown_call_leaves_no_trace_witness :
  exists s' e,
    handleToolCall (mkCall "w" "display_weather" None) live = Raised s' e /\
    err_name e = "TypeError" /\
    logs s' = [mkLog "Executing Protocol: display_weather" action] /\
    weatherState s' = Some None.
Proof.
  eexists _, _. split; [reflexivity|].
  destruct (thrown_call_leaves_no_trace (mkCall "w" "display_weather" None) live _ _ eq_refl)
    as (Hn & _ & _ & _ & Hl & Hw).
  split; [exact Hn|]. split; [exact Hl | exact Hw].
Defined.

(** X10. A [display_weather] call puts its arguments in the weather state
    as they came, before anything is read from them: the state holds them
    whether the handler then returns or throws, and whatever the location
    is. *)
Theorem display_weather_stores_args (fc : FunctionCall) (s : State) :
  fc_name fc = "display_weather" ->
  settled (handleToolCall fc s) = true /\
  weatherState (final_state (handleToolCall fc s)) = Some (fc_args fc) /\
  (forall o, fc_args fc = Some o ->
     handleToolCall fc s
     = Finished
         (respond fc ("Weather data for " +:+ show (o !! "location")
                        +:+ " displayed on HUD. Confirm current condition to user.")
            (setWeatherState (Some o) (prologue fc s))) tt).
Proof.
  intros Hname. rewrite handleToolCall_shape, Hname.
  change (tool_of_name "display_weather") with (Some display_weather).
  cbn [run_tool]. proc_unfold.
  destruct (fc_args fc) as [o|]; cbn [get_prop bind_step]; unfold ret; cbn [bind_step].
  - rewrite send_response_runs. cbn [settled final_state].
    split; [reflexivity|]. split; [|now intros o' [= <-]].
    now rewrite (proj1 (proj2 (proj2 (respond_fields _ _ _)))).
  - cbn [settled final_state]. split; [reflexivity|]. split; [reflexivity | discriminate].
Qed.

Lemma display_weather_stores_args_witness :
  settled (handleToolCall (mkCall "w" "display_weather" None) live) = true /\
  weatherState (final_state (handleToolCall (mkCall "w" "display_weather" None) live))
  = Some None.
Proof.
  destruct (display_weather_stores_args (mkCall "w" "display_weather" None) live eq_refl)
    as (H1 & H2 & _).
  split; [exact H1 | exact H2].
Defined.

(** X11. With no session stored, a tool call is carried out all the same and
    nobody is told: the call is logged, its handler runs to its end, and
    the session ref is still empty afterwards. *)
Theorem call_without_session_is_not_answered
    (fc : FunctionCall) (s : State) (o : GenOutcome) :
  sessionRef s = None ->
  let r := resume 1 (fun _ => o) (handleToolCall fc s) in
  settled r = true /\ sessionRef (final_state r) = None /\
  responses (final_state r) = [] /\
  dispatch_log (final_state r) = dispatch_log s ++ [dispatch_entry fc].
Proof.
  intros Hs. cbv zeta. pose proof (handleToolCall_cases fc s) as H.
  unfold responses.
  destruct (handleToolCall fc s) as [s1 []|s1 e|s1 p k|s1 b k]; cbn [resume].
  - destruct H as (_ & (r & A) & L). cbn. rewrite A, Hs. cbn. auto.
  - destruct H as (_ & A & L). cbn. rewrite A, Hs. auto.
  - destruct H as (_ & A & L & K). destruct (K o s1) as (s3 & -> & (r & A3) & L3).
    cbn. rewrite A3, A, Hs, L3, L. cbn. auto.
  - destruct H.
Qed.

Lemma call_without_session_is_not_answered_witness :
  let r := resume 1 (fun _ => GenRejected (TypeError "none"))
                  (handleToolCall call_reminder initial) in
  settled r = true /\ sessionRef (final_state r) = None /\
  responses (final_state r) = [] /\
  dispatch_log (final_state r) = dispatch_log initial ++ [dispatch_entry call_reminder].
Proof.
  exact (call_without_session_is_not_answered call_reminder initial
           (GenRejected (TypeError "none")) eq_refl).
Defined.

(* ================================================================== *)
(** * Proofs: inbound messages and teardown *)
(* ================================================================== *)

Lemma search_results_nil (chunks : list GroundingChunk) :
  Forall (fun c => web c = None) chunks -> search_results chunks = [].
Proof.
  induction 1 as [|c chunks Hc _ IH]; [reflexivity|].
  unfold search_results in *. cbn [omap list_omap]. now rewrite Hc.
Qed.

Lemma search_results_nil_inv (chunks : list GroundingChunk) :
  search_results chunks = [] -> Forall (fun c => web c = None) chunks.
Proof.
  induction chunks as [|c chunks IH]; [constructor|].
  unfold search_results in *. cbn [omap list_omap].
  destruct (web c) eqn:E; [discriminate|]. intros H. constructor; [exact E | now apply IH].
Qed.

(** X12. Grounding chunks replace the search results only when at least one
    of them carries a web source; chunks without any leave the results of
    an earlier message on the screen.  Nothing else changes. *)
Theorem grounding_never_clears_results (chunks : list GroundingChunk) (s : State) :
  exists s',
    onmessage (grounding_message chunks) s = Finished s' tt /\
    searchResults s' = match search_results chunks with
                       | [] => searchResults s
                       | rs => rs
                       end /\
    (search_results chunks = [] <-> Forall (fun c => web c = None) chunks) /\
    setSearchResults [] s' = setSearchResults [] s.
Proof.
  unfold onmessage.
  change (is_interrupted (grounding_message chunks)) with false.
  change (toolCall (grounding_message chunks)) with (@None ToolCallMessage).
  change (grounding_chunks (grounding_message chunks)) with (Some chunks).
  change (audio_data (grounding_message chunks)) with (@None string).
  cbv iota zeta. proc_unfold.
  assert (Hiff : search_results chunks = [] <-> Forall (fun c => web c = None) chunks)
    by (split; [apply search_results_nil_inv | apply search_results_nil]).
  destruct (search_results chunks) as [|r rs] eqn:E; cbn [length Nat.ltb Nat.leb bind_step].
  - exists s. split; [now destruct (audioContextRef s), (analyserRef s)|].
    repeat split; apply Hiff.
  - exists (setSearchResults (r :: rs) s).
    split; [cbn; now destruct (audioContextRef s), (analyserRef s)|].
    repeat split; apply Hiff.
Qed.

Lemma onmessage_audio_rejected (payload : string) (e : JSError) (s : State)
    (c : AudioContext) (a : unit) :
  negb (String.eqb payload "") = true -> atob payload = inl e ->
  audioContextRef s = Some c -> analyserRef s = Some a ->
  onmessage (audio_message payload) s = Raised (setIsSpeaking true s) e.
Proof.
  intros Hne Hatob Hc Ha. unfold onmessage.
  change (is_interrupted (audio_message payload)) with false.
  change (toolCall (audio_message payload)) with (@None ToolCallMessage).
  change (grounding_chunks (audio_message payload)) with (@None (list GroundingChunk)).
  change (audio_data (audio_message payload)) with (Some payload).
  cbv iota. unfold await_decode. proc_unfold. rewrite Hc, Ha, Hne, Hatob.
  reflexivity.
Qed.

(** X13. Audio that cannot be played leaves the speaking flag up.  When the
    payload is not base64, or when the decoder rejects the bytes, the
    callback ends in an unhandled rejection after [isSpeaking] was set:
    nothing is scheduled, no slot will ever end, and the flag stays up
    until other audio, an interruption or the end of the session resets
    it. *)
Theorem unplayable_audio_leaves_speaking (l : Loop) (payload : string) (e : JSError)
    (c : AudioContext) (a : unit) :
  payload <> "" ->
  audioContextRef (app l) = Some c -> analyserRef (app l) = Some a ->
  (atob payload = inl e ->
   dispatch l (EvMessage (audio_message payload))
   = mkLoop (setIsSpeaking true (app l)) (pending l) (unhandled l ++ [e])) /\
  (forall bytes, atob payload = inr bytes ->
   run_events l [EvMessage (audio_message payload);
                 EvDecodeSettled (length (pending l)) (DecodeRejected e)]
   = mkLoop (setIsSpeaking true (app l)) (pending l) (unhandled l ++ [e])).
Proof.
  intros Hne Hc Ha.
  assert (Hne' : negb (String.eqb payload "") = true).
  { apply negb_true_iff. now apply String.eqb_neq. }
  split.
  - intros Hatob. cbn [dispatch].
    now rewrite (onmessage_audio_rejected payload e (app l) c a).
  - intros bytes Hatob.
    destruct (onmessage_audio payload bytes (app l) c a Hne' Hatob Hc Ha)
      as (k & Ek & _ & Kr).
    unfold run_events. cbn [fold_left dispatch]. rewrite Ek.
    cbn [park pending app unhandled]. rewrite lookup_fresh, Kr.
    cbn [park]. now rewrite delete_middle, app_nil_r.
Qed.

Lemma unplayable_audio_leaves_speaking_witness :
  dispatch (mkLoop live [] []) (EvMessage (audio_message "a"))
  = mkLoop (setIsSpeaking true live) []
      [mkError "InvalidCharacterError" "The string to be decoded is not correctly encoded."]
  /\
  run_events (mkLoop live [] [])
    [EvMessage (audio_message "AAAA"); EvDecodeSettled 0 (DecodeRejected (TypeError "bad"))]
  = mkLoop (setIsSpeaking true live) [] [TypeError "bad"].
Proof.
  assert (Ha : "a" <> "") by discriminate.
  assert (Hb : "AAAA" <> "") by discriminate.
  split.
  - apply (proj1 (unplayable_audio_leaves_speaking (mkLoop live [] []) "a"
                    (mkError "InvalidCharacterError"
                       "The string to be decoded is not correctly encoded.")
                    (mkContext 0 false) tt Ha eq_refl eq_refl)).
    reflexivity.
  - apply (proj2 (unplayable_audio_leaves_speaking (mkLoop live [] []) "AAAA"
                    (TypeError "bad") (mkContext 0 false) tt Hb eq_refl eq_refl)
                 [0; 0; 0]%Z).
    reflexivity.
Defined.

(** X14. Audio is dropped without a trace when it cannot be played at all:
    with no output context, no analyser, or an empty payload, an audio
    message changes nothing, the speaking flag included. *)
Theorem audio_without_output_is_dropped (payload : string) (s : State) :
  audioContextRef s = None \/ analyserRef s = None \/ payload = "" ->
  onmessage (audio_message payload) s = Finished s tt.
Proof.
  intros H. unfold onmessage.
  change (is_interrupted (audio_message payload)) with false.
  change (toolCall (audio_message payload)) with (@None ToolCallMessage).
  change (grounding_chunks (audio_message payload)) with (@None (list GroundingChunk)).
  change (audio_data (audio_message payload)) with (Some payload).
  cbv iota. proc_unfold.
  destruct H as [->|[->| ->]]; [reflexivity | now destruct (audioContextRef s) |].
  now destruct (audioContextRef s), (analyserRef s).
Qed.

Lemma audio_without_output_is_dropped_witness :
  onmessage (audio_message "AAAA") initial = Finished initial tt.
Proof. apply audio_without_output_is_dropped. left. reflexivity. Defined.

(** X15. An interrupted message is nothing but an interruption: tool calls,
    grounding chunks and audio it carries are ignored.  No call is
    dispatched or answered, and the state is the one [stopAllAudio]
    leaves. *)
Theorem interrupted_message_drops_the_rest
    (mt : option ModelTurn) (tc : option ToolCallMessage) (s : State) :
  exists s',
    onmessage (mkMessage (Some (mkContent true mt)) tc) s = Finished s' tt /\
    stopAllAudio s = Finished s' tt /\
    responses s' = responses s /\ logs s' = logs s /\
    searchResults s' = searchResults s /\ phoneState s' = phoneState s /\
    reminders s' = reminders s.
Proof.
  exists (interrupted_state s). split; [now apply onmessage_interrupted|].
  split; [apply stopAllAudio_runs|].
  unfold responses, interrupted_state. cbn.
  destruct (audioContextRef s); repeat split.
Qed.

(** X16. Audio that comes in the same message as a [generate_image] call
    waits for the image model: while the call is parked the speaking flag
    is not raised and nothing is decoded; once the model has answered, the
    call is answered and only then the audio goes to the decoder. *)
Theorem audio_behind_tool_call_waits
    (fc : FunctionCall) (o : gmap string JSVal) (payload : string) (bytes : list Z)
    (s : State) (u : unit) :
  clientRef s = Some u -> fc_name fc = "generate_image" -> fc_args fc = Some o ->
  payload <> "" -> atob payload = inr bytes ->
  exists k,
    onmessage (tool_audio_message [fc] payload) s
    = AwaitGenerate (prologue fc s) (o !! "prompt") k /\
    isSpeaking (prologue fc s) = isSpeaking s /\
    forall out s2 c a,
      audioContextRef s2 = Some c -> analyserRef s2 = Some a ->
      exists s3 k',
        k out s2 = AwaitDecode (setIsSpeaking true s3) bytes k' /\
        answers fc s2 s3 /\
        (forall b s4, k' (Decoded b) s4 = playBuffer b s4).
Proof.
  intros Hcl Hname Hargs Hne Hatob.
  assert (Hne' : negb (String.eqb payload "") = true).
  { apply negb_true_iff. now apply String.eqb_neq. }
  destruct (generate_image_parks fc o s u Hcl Hname Hargs) as (k0 & E0 & K0).
  unfold onmessage.
  change (is_interrupted (tool_audio_message [fc] payload)) with false.
  change (toolCall (tool_audio_message [fc] payload))
    with (Some (mkToolCall (Some [fc]))).
  change (grounding_chunks (tool_audio_message [fc] payload))
    with (@None (list GroundingChunk)).
  change (audio_data (tool_audio_message [fc] payload)) with (Some payload).
  cbv iota. cbn [functionCalls for_of].
  unfold mbind at 1, proc_bind at 1, bind at 1.
  unfold mbind at 1, proc_bind at 1, bind at 1.
  rewrite E0. cbn [bind_step].
  eexists. split; [reflexivity|].
  split; [unfold prologue; now destruct (audioContextRef s)|].
  intros out s2 c a Hc Ha. destruct (K0 out s2) as (s3 & E3 & A3).
  rewrite E3. cbn [bind_step]. unfold await_decode. proc_unfold.
  assert (Hc3 : audioContextRef s3 = Some c /\ analyserRef s3 = Some a).
  { pose proof (tool_call_frame fc s) as Hf. rewrite E0 in Hf.
    destruct (Hf out s2) as (s3' & E3' & U3). rewrite E3 in E3'. injection E3' as <-.
    destruct U3 as (_ & _ & _ & _ & Uc & _ & Ua & _). now rewrite Uc, Ua. }
  destruct Hc3 as [Hc3 Ha3]. rewrite Hc3, Ha3, Hne', Hatob. cbn [bind_step].
  eexists s3, _. split; [reflexivity|]. split; [exact A3|]. reflexivity.
Qed.

Lemma audio_behind_tool_call_waits_witness :
  exists k,
    onmessage (tool_audio_message [call_image] "AAAA") live
    = AwaitGenerate (prologue call_image live) (Some (VString "a panda")) k /\
    isSpeaking (prologue call_image live) = false.
Proof.
  assert (Hne : "AAAA" <> "") by discriminate.
  destruct (audio_behind_tool_call_waits call_image {[ "prompt" := VString "a panda" ]}
              "AAAA" [0; 0; 0]%Z live tt eq_refl eq_refl eq_refl Hne eq_refl)
    as (k & E & S & _).
  exists k. split; [exact E | exact S].
Defined.

(** X17. When the server closes the channel the component stops playback and
    clears its flags and the search results, and that is all: the
    microphone stream is not stopped, neither context is closed, the
    session ref is kept, the vision flag stays as it is, and nothing is
    logged.  Releasing them is left to [disconnect]. *)
Theorem onclose_releases_nothing (s : State) :
  exists s',
    onclose s = Finished s' tt /\
    connected s' = false /\ isSpeaking s' = false /\ searchResults s' = [] /\
    audioSourcesRef s' = [] /\
    streamRef s' = streamRef s /\ videoStreamRef s' = videoStreamRef s /\
    audioContextRef s' = audioContextRef s /\
    inputAudioContextRef s' = inputAudioContextRef s /\
    sessionRef s' = sessionRef s /\ isVisionActive s' = isVisionActive s /\
    logs s' = logs s.
Proof.
  unfold onclose. proc_unfold. rewrite stopAllAudio_runs. cbn [bind_step].
  eexists. split; [reflexivity|].
  unfold interrupted_state. cbn. destruct (audioContextRef s) eqn:E; cbn;
    rewrite ?E; repeat split.
Qed.

Lemma disconnect_offline (s : State) : disconnect s = Finished (offline_state s) tt.
Proof.
  unfold disconnect. unfold mbind at 1, proc_bind at 1, bind at 1.
  rewrite stopAllAudio_runs. unfold addLog. proc_unfold. reflexivity.
Qed.

(** X18. A second [disconnect] finds nothing left to release: after the
    first, running it again returns normally and changes nothing but the
    log, which gets one more [SYSTEM OFFLINE] entry. *)
Theorem disconnect_twice (s : State) :
  exists s1 s2,
    disconnect s = Finished s1 tt /\ disconnect s1 = Finished s2 tt /\
    s2 = logged "SYSTEM OFFLINE" system s1.
Proof.
  exists (offline_state s), (offline_state (offline_state s)).
  split; [apply disconnect_offline|]. split; [apply disconnect_offline|].
  destruct s as [co sp vi lo re ph se we im ac ic an st vs so cl ss ne no sy].
  destruct ac as [c|], ic, st, vs, ss; vm_compute; reflexivity.
Qed.

Lemma stop_one_length (ns : list SourceNode) (source : nat) :
  length (stop_one ns source) = length ns.
Proof.
  unfold stop_one. destruct (ns !! source) as [n|]; [|reflexivity].
  destruct (node_startedAt n); [apply length_insert | reflexivity].
Qed.

Lemma stop_one_other (ns : list SourceNode) (source i : nat) :
  i <> source -> stop_one ns source !! i = ns !! i.
Proof.
  intros Hne. unfold stop_one. destruct (ns !! source) as [n|]; [|reflexivity].
  destruct (node_startedAt n); [|reflexivity].
  apply list_lookup_insert_ne. congruence.
Qed.

Lemma stop_one_same_audio (ns : list SourceNode) (source i : nat) (n' : SourceNode) :
  stop_one ns source !! i = Some n' ->
  exists n, ns !! i = Some n /\ node_buffer n' = node_buffer n /\
            node_startedAt n' = node_startedAt n /\
            node_connected n' = node_connected n /\ node_onended n' = node_onended n.
Proof.
  intros H. destruct (decide (i = source)) as [->|Hne].
  - unfold stop_one in H. destruct (ns !! source) as [n|] eqn:E; [|congruence].
    destruct (node_startedAt n) eqn:Es.
    + rewrite list_lookup_insert_eq in H by (eapply lookup_lt_Some; eauto).
      injection H as <-. exists n. repeat split.
    + rewrite E in H. injection H as <-. exists n. repeat split.
  - rewrite stop_one_other in H by assumption. exists n'. repeat split. exact H.
Qed.

Lemma stop_all_frame (ids : list nat) : forall ns,
  length (foldl stop_one ns ids) = length ns /\
  (forall i, i ∉ ids -> foldl stop_one ns ids !! i = ns !! i) /\
  (forall i n', foldl stop_one ns ids !! i = Some n' ->
     exists n, ns !! i = Some n /\ node_buffer n' = node_buffer n /\
               node_startedAt n' = node_startedAt n /\
               node_connected n' = node_connected n /\ node_onended n' = node_onended n).
Proof.
  induction ids as [|j ids IH]; intros ns; cbn [foldl].
  - split; [reflexivity|]. split; [reflexivity|].
    intros i n' H. exists n'. repeat split. exact H.
  - destruct (IH (stop_one ns j)) as (L & O & A). split; [|split].
    + now rewrite L, stop_one_length.
    + intros i Hi. apply not_elem_of_cons in Hi as [Hij Hi].
      now rewrite O, stop_one_other.
    + intros i n' H. destruct (A i n' H) as (m & Em & B1 & B2 & B3 & B4).
      destruct (stop_one_same_audio ns j i m Em) as (n & En & C1 & C2 & C3 & C4).
      exists n. split; [exact En|]. repeat split; congruence.
Qed.

(** X19. [stopAllAudio] touches the registered sources only, and of those
    only the stopped flag: the node store keeps its length, a node that is
    not registered is as before, and every node keeps its buffer, its start
    time and its wiring.  Phone, reminders, logs and session are left
    alone. *)
Theorem stopAllAudio_stops_only_registered (s : State) :
  exists s',
    stopAllAudio s = Finished s' tt /\
    length (nodes s') = length (nodes s) /\
    (forall i, i ∉ audioSourcesRef s -> nodes s' !! i = nodes s !! i) /\
    (forall i n', nodes s' !! i = Some n' ->
       exists n, nodes s !! i = Some n /\ node_buffer n' = node_buffer n /\
                 node_startedAt n' = node_startedAt n /\
                 node_connected n' = node_connected n /\
                 node_onended n' = node_onended n) /\
    logs s' = logs s /\ phoneState s' = phoneState s /\
    reminders s' = reminders s /\ sessionRef s' = sessionRef s /\
    connected s' = connected s.
Proof.
  exists (interrupted_state s). split; [apply stopAllAudio_runs|].
  destruct (interrupted_state_fields s) as (_ & _ & N & _).
  destruct (stop_all_frame (audioSourcesRef s) (nodes s)) as (L & O & A).
  rewrite N. split; [exact L|]. split; [exact O|]. split; [exact A|].
  unfold interrupted_state. cbn. destruct (audioContextRef s); repeat split.
Qed.

(* ================================================================== *)
(** * Proofs: handshake, mode switch and vision *)
(* ================================================================== *)

Lemma delete_fresh {A} (l : list A) (x : A) : delete (length l) (l ++ [x]) = l.
Proof. now rewrite delete_middle, app_nil_r. Qed.

(** X20. When the microphone is refused the handshake ends there: the
    failure is logged after the opening entry and nothing else changes --
    no stream, context, analyser, client or session is stored, the
    component is as connected as before, and no rejection is left
    unhandled. *)
Theorem microphone_refused (sh : Shell) (e : JSError) :
  let s := app (core sh) in
  let sh' := run_shell sh [Initialize;
                           MediaSettled (length (handshakes sh)) (MediaRejected e)] in
  app (core sh')
  = logged ("Init failed: " +:+ err_message e) error
      (logged (if isAGIMode sh then "INITIALIZING OMEGA LEVEL INTELLIGENCE..."
               else "Initializing J.A.R.V.I.S. Protocol...") system s) /\
  handshakes sh' = handshakes sh /\
  pending (core sh') = pending (core sh) /\
  unhandled (core sh') = unhandled (core sh).
Proof.
  cbv zeta. unfold run_shell. cbn [fold_left shell_step connectToJarvis hcatch hpark handshakes].
  rewrite lookup_fresh. cbn [hcatch hpark core app with_app pending unhandled handshakes].
  rewrite delete_fresh. repeat split.
Qed.

(** X21. When the microphone is granted but the channel cannot be opened,
    the failure is logged and what was acquired on the way stays acquired:
    the stream is stored and its tracks are not stopped, both contexts are
    open, analyser and client are set.  No session is stored, and the
    component is as connected as before. *)
Theorem connect_refused_keeps_microphone (sh : Shell) (stream : MediaStream) (e : JSError) :
  let s := app (core sh) in
  let n := length (handshakes sh) in
  let sh' := run_shell sh [Initialize; MediaSettled n (MediaResolved stream);
                           ConnectSettled n (ConnectRejected e)] in
  let s' := app (core sh') in
  streamRef s' = Some stream /\
  audioContextRef s' = Some new_context /\ inputAudioContextRef s' = Some new_context /\
  analyserRef s' = Some tt /\ clientRef s' = Some tt /\
  sessionRef s' = sessionRef s /\ connected s' = connected s /\
  logs s' = logs s ++
    [mkLog (if isAGIMode sh then "INITIALIZING OMEGA LEVEL INTELLIGENCE..."
            else "Initializing J.A.R.V.I.S. Protocol...") system;
     mkLog ("Init failed: " +:+ err_message e) error] /\
  handshakes sh' = handshakes sh /\ unhandled (core sh') = unhandled (core sh).
Proof.
  cbv zeta. unfold run_shell. cbn [fold_left shell_step connectToJarvis hcatch hpark handshakes].
  rewrite lookup_fresh. cbn [hcatch hpark core app with_app pending unhandled handshakes].
  rewrite delete_fresh, lookup_fresh.
  cbn [hcatch hpark core app with_app pending unhandled handshakes].
  rewrite delete_fresh. unfold logged, acquire. cbn.
  rewrite <- app_assoc. repeat split.
Qed.

(** The state a completed handshake leaves. *)
Lemma handshake_completes (sh : Shell) (stream : MediaStream) (session : LiveSession) :
  let n := length (handshakes sh) in
  run_shell sh [Initialize; MediaSettled n (MediaResolved stream);
                ConnectSettled n (ConnectResolved session)]
  = mkShell
      (with_app
         (set_sessionRef (Some session)
            (acquire stream
               (logged (if isAGIMode sh then "INITIALIZING OMEGA LEVEL INTELLIGENCE..."
                        else "Initializing J.A.R.V.I.S. Protocol...") system
                  (app (core sh)))))
         (core sh))
      (isAGIMode sh) (handshakes sh).
Proof.
  cbv zeta. unfold run_shell. cbn [fold_left shell_step connectToJarvis hcatch hpark handshakes].
  rewrite lookup_fresh. cbn [hcatch hpark core app with_app pending unhandled handshakes].
  rewrite delete_fresh, lookup_fresh.
  cbn [hcatch hpark core app with_app pending unhandled handshakes].
  now rewrite delete_fresh.
Qed.

(** X22. A session from start to end: the handshake completes, the channel
    opens, the user shuts down.  Everything the handshake acquired is
    released -- the stream's tracks are stopped, both contexts and the
    session are closed -- and the component is disconnected; the log reads
    opening entry, [SYSTEM ONLINE.], [SYSTEM OFFLINE]. *)
Theorem session_releases_what_it_acquired
    (sh : Shell) (stream : MediaStream) (session : LiveSession) :
  let s := app (core sh) in
  let n := length (handshakes sh) in
  let sh' := run_shell sh [Initialize; MediaSettled n (MediaResolved stream);
                           ConnectSettled n (ConnectResolved session);
                           Opened; Core EvDisconnect] in
  let s' := app (core sh') in
  connected s' = false /\ isSpeaking s' = false /\
  streamRef s' = Some (mkStream true) /\
  audioContextRef s' = Some (mkContext 0 true) /\
  inputAudioContextRef s' = Some (mkContext 0 true) /\
  sessionRef s' = Some (mkSession true (sess_toolResponses session)) /\
  audioSourcesRef s' = [] /\
  logs s' = logs s ++
    [mkLog (if isAGIMode sh then "INITIALIZING OMEGA LEVEL INTELLIGENCE..."
            else "Initializing J.A.R.V.I.S. Protocol...") system;
     mkLog "SYSTEM ONLINE." info; mkLog "SYSTEM OFFLINE" system] /\
  unhandled (core sh') = unhandled (core sh).
Proof.
  cbv zeta.
  change [Initialize; MediaSettled (length (handshakes sh)) (MediaResolved stream);
          ConnectSettled (length (handshakes sh)) (ConnectResolved session);
          Opened; Core EvDisconnect]
    with ([Initialize; MediaSettled (length (handshakes sh)) (MediaResolved stream);
           ConnectSettled (length (handshakes sh)) (ConnectResolved session)]
          ++ [Opened; Core EvDisconnect]).
  unfold run_shell. rewrite fold_left_app.
  fold (run_shell sh [Initialize; MediaSettled (length (handshakes sh)) (MediaResolved stream);
                      ConnectSettled (length (handshakes sh)) (ConnectResolved session)]).
  rewrite (handshake_completes sh stream session).
  cbn [fold_left shell_step core app with_app pending unhandled dispatch].
  unfold onopen, addLog. proc_unfold. cbn [park app pending unhandled].
  rewrite disconnect_offline. cbn [park app unhandled].
  unfold offline_state, interrupted_state, logged, acquire. cbn.
  repeat rewrite <- app_assoc. repeat split.
Qed.

(** X23. The handshake makes a new output context, whose clock starts at
    zero, but leaves the marker where it was.  After a shutdown, which sets
    the marker to the old clock, and a new handshake, the first buffer of
    the new session starts at the old clock reading on the new clock: it is
    delayed by the age of the previous context. *)
Theorem reconnect_keeps_the_old_marker
    (sh : Shell) (c : AudioContext) (stream : MediaStream) (session : LiveSession)
    (b : AudioBuffer) :
  audioContextRef (app (core sh)) = Some c ->
  let n := length (handshakes sh) in
  let sh' := run_shell sh [Core EvDisconnect; Initialize;
                           MediaSettled n (MediaResolved stream);
                           ConnectSettled n (ConnectResolved session); Opened] in
  let s' := app (core sh') in
  audioContextRef s' = Some new_context /\
  nextStartTimeRef s' = currentTime c /\
  exists s'',
    playBuffer b s' = Finished s'' tt /\
    nodes s'' !! length (nodes s') = Some (slot b (Qmax 0 (currentTime c))) /\
    nextStartTimeRef s'' = (Qmax 0 (currentTime c) + duration b)%Q.
Proof.
  intros Hc. cbv zeta.
  set (sh1 := shell_step sh (Core EvDisconnect)).
  assert (E1 : sh1 = mkShell (with_app (offline_state (app (core sh))) (core sh))
                       (isAGIMode sh) (handshakes sh)).
  { unfold sh1. cbn [shell_step dispatch]. now rewrite disconnect_offline. }
  change (run_shell sh [Core EvDisconnect; Initialize;
                        MediaSettled (length (handshakes sh)) (MediaResolved stream);
                        ConnectSettled (length (handshakes sh)) (ConnectResolved session);
                        Opened])
    with (shell_step
            (run_shell sh1 [Initialize;
                            MediaSettled (length (handshakes sh)) (MediaResolved stream);
                            ConnectSettled (length (handshakes sh)) (ConnectResolved session)])
            Opened).
  replace (length (handshakes sh)) with (length (handshakes sh1)) by now rewrite E1.
  rewrite (handshake_completes sh1 stream session). rewrite E1.
  cbn [shell_step core app with_app pending unhandled isAGIMode].
  unfold onopen, addLog. proc_unfold. cbn [park app].
  match goal with |- audioContextRef ?s = _ /\ _ => set (s' := s) end.
  assert (Hctx : audioContextRef s' = Some new_context) by reflexivity.
  assert (Han : analyserRef s' = Some tt) by reflexivity.
  assert (Hm : nextStartTimeRef s' = currentTime c).
  { unfold s', offline_state, interrupted_state, logged, acquire. cbn. now rewrite Hc. }
  split; [exact Hctx|]. split; [exact Hm|].
  exists (enqueued_state b new_context s').
  split; [now apply (playBuffer_runs b new_context tt)|].
  unfold enqueued_state. cbn [nodes set_nextStartTimeRef set_audioSourcesRef set_nodes
                              nextStartTimeRef].
  rewrite lookup_fresh, Hm. split; reflexivity.
Qed.

Lemma reconnect_keeps_the_old_marker_witness :
  let sh := mkShell (mkLoop (advance_clock (5 # 1) live) [] []) false [] in
  let s' := app (core (run_shell sh [Core EvDisconnect; Initialize;
                                     MediaSettled 0 (MediaResolved microphone);
                                     ConnectSettled 0 (ConnectResolved channel); Opened])) in
  audioContextRef s' = Some new_context /\
  nextStartTimeRef s' = (5 # 1)%Q /\
  exists s'',
    playBuffer frame_1s s' = Finished s'' tt /\
    nodes s'' !! length (nodes s') = Some (slot frame_1s (Qmax 0 (5 # 1))) /\
    nextStartTimeRef s'' = (Qmax 0 (5 # 1) + duration frame_1s)%Q.
Proof.
  exact (reconnect_keeps_the_old_marker
           (mkShell (mkLoop (advance_clock (5 # 1) live) [] []) false [])
           (mkContext (5 # 1) false) microphone channel frame_1s eq_refl).
Defined.

Lemma toggleAGI_runs (agi : bool) (s : State) :
  toggleAGI agi s
  = Finished
      (let s1 := logged (if negb agi then "AGI PROTOCOL ENGAGED. GOD MODE ACTIVE."
                         else "REVERTING TO STANDARD PROTOCOLS.") system s in
       if connected s
       then logged "System Reboot Required for Protocol Switch." error (offline_state s1)
       else s1) tt.
Proof.
  unfold toggleAGI, addLog. cbv zeta. proc_unfold. cbn [connected setLogs].
  destruct (connected s); [|reflexivity].
  rewrite disconnect_offline. reflexivity.
Qed.

(** X24. Switching the mode flips the flag and logs the new mode; when the
    component is connected it is shut down as by [disconnect], and the log
    reads mode entry, [SYSTEM OFFLINE], reboot notice, in that order.  When
    it is not connected nothing but the log changes. *)
Theorem mode_switch_shuts_down (sh : Shell) :
  let s := app (core sh) in
  let sh' := shell_step sh ToggleAGI in
  let s' := app (core sh') in
  isAGIMode sh' = negb (isAGIMode sh) /\
  logs s' = logs s ++
    mkLog (if negb (isAGIMode sh) then "AGI PROTOCOL ENGAGED. GOD MODE ACTIVE."
           else "REVERTING TO STANDARD PROTOCOLS.") system
    :: (if connected s
        then [mkLog "SYSTEM OFFLINE" system;
              mkLog "System Reboot Required for Protocol Switch." error]
        else []) /\
  connected s' = false /\
  sessionRef s' = (if connected s then close_session <$> sessionRef s else sessionRef s) /\
  streamRef s' = (if connected s then stop_tracks <$> streamRef s else streamRef s) /\
  (connected s = false -> setLogs [] s' = setLogs [] s) /\
  unhandled (core sh') = unhandled (core sh).
Proof.
  cbv zeta. cbn [shell_step isAGIMode core]. rewrite toggleAGI_runs.
  cbv zeta. cbn [park app unhandled].
  split; [reflexivity|].
  destruct (connected (app (core sh))) eqn:Hc.
  - unfold offline_state, interrupted_state, logged. cbn.
    destruct (audioContextRef (app (core sh))); cbn;
      repeat rewrite <- app_assoc; repeat split; discriminate.
  - unfold logged. cbn. rewrite Hc. repeat split.
Qed.

(** X25. Vision on and off again.  With vision off, the toggle asks for the
    camera: when it is granted the stream is stored and the flag raised,
    and the next toggle clears both; when it is refused the refusal is
    logged, nothing else changes and no rejection is left unhandled. *)
Theorem vision_on_and_off (sh : Shell) (stream : MediaStream) (e : JSError) :
  isVisionActive (app (core sh)) = false ->
  let s := app (core sh) in
  let n := length (handshakes sh) in
  let on := run_shell sh [ToggleVision; MediaSettled n (MediaResolved stream)] in
  let off := shell_step on ToggleVision in
  let refused := run_shell sh [ToggleVision; MediaSettled n (MediaRejected e)] in
  (isVisionActive (app (core on)) = true /\
   videoStreamRef (app (core on)) = Some stream) /\
  (app (core off)
   = logged "Visual sensors disabled." system
       (logged "Visual sensors activated." system
          (set_videoStreamRef None s)) /\
   handshakes off = handshakes sh) /\
  (app (core refused) = logged "Access to visual sensors denied." error s /\
   handshakes refused = handshakes sh /\
   unhandled (core refused) = unhandled (core sh)).
Proof.
  intros Hv. cbv zeta.
  assert (E : exists k,
             toggleVision (app (core sh)) = HAwaitMedia (app (core sh)) k /\
             (forall st s1,
                 k (MediaResolved st) s1
                 = HReturn (logged "Visual sensors activated." system
                              (setIsVisionActive true (set_videoStreamRef (Some st) s1)))) /\
             (forall e' s1,
                 k (MediaRejected e') s1
                 = HReturn (logged "Access to visual sensors denied." error s1))).
  { unfold toggleVision. rewrite Hv. cbn [hcatch].
    eexists. split; [reflexivity|]. split; intros; reflexivity. }
  destruct E as (k & E & Kok & Kno).
  unfold run_shell. cbn [fold_left].
  change (shell_step sh ToggleVision)
    with (hpark (toggleVision (app (core sh))) (core sh) (isAGIMode sh) (handshakes sh)).
  rewrite E.
  cbn [hpark]. cbn [shell_step handshakes core app with_app isAGIMode].
  rewrite lookup_fresh, delete_fresh, Kok, Kno.
  cbn [hpark core app with_app handshakes pending unhandled].
  split; [split; reflexivity|]. split; [|repeat split].
  unfold toggleVision. cbn [isVisionActive logged setLogs setIsVisionActive].
  cbn [hpark core app with_app handshakes].
  split; [|reflexivity].
  revert Hv. generalize (app (core sh)). intros [] Hv. cbn in Hv. subst. reflexivity.
Qed.

Lemma vision_on_and_off_witness :
  app (core (run_shell mounted [ToggleVision; MediaSettled 0 (MediaResolved microphone);
                                ToggleVision]))
  = logged "Visual sensors disabled." system
      (logged "Visual sensors activated." system initial).
Proof.
  exact (proj1 (proj1 (proj2 (vision_on_and_off mounted microphone (TypeError "denied")
                                eq_refl)))).
Defined.
